(** * SPOTWISE: the service-request lifecycle, the matching query and the
      provider-location throttle, embedded from the JavaScript sources.

    - [Js]              the few JavaScript values and operators the handlers use
    - [Model]           backend/models: the User and Request schemas, the Mongoose
                        hooks of the Request schema and the collection operations
    - [Controller]      backend/controllers/serviceRequestController.js
    - [Tracking]        the LocationTrackingService class (browser side)
    - [Scenario]        the people and requests of the worked examples
    - [AuthController]  backend/controllers/authController.js: login and logout
    - [Events]          the change-stream listener of the events route
    - [Lifecycle]       sequences of calls served one at a time
    - [Concurrent]      calls in flight together: the handlers await by await
    - [Geo]             the distance functions of the client
    - [SocketService]   the socket connection and its message queue
    - [EventService]    the event stream and its reconnection

    Clock readings ([Date.now()], [new Date()]) are an input [now] of every
    operation, in milliseconds; all the readings of one handler invocation
    are taken at the same instant.  [Math.random()] is an input [u] with
    [0 <= u < 1].  Numbers are exact (Z, Q, R), not IEEE doubles, except in
    the arithmetic of the verification code, which rounds each result to
    the nearest double ([Js.roundDouble]). *)

From Stdlib Require Import ZArith QArith Qabs Qround Qpower List String Bool Lia Lqa.
From Stdlib Require Import DecimalString.
From Stdlib Require Import Reals Lra.
Import ListNotations.

Local Open Scope string_scope.
Local Open Scope Z_scope.

(* ================================================================== *)
(** ** JavaScript values *)

Module Js.

(** The values a JSON body field (or a document path) can hold, as far as
    the handlers inspect them. *)
Inductive Value : Type :=
| Undefined
| Null
| Boolean (b : bool)
| Number (q : Q)
| Str (s : string).

(** [a === b]: no coercion, values of different types are never equal. *)
Definition strictEquals (a b : Value) : bool :=
  match a, b with
  | Undefined, Undefined => true
  | Null, Null => true
  | Boolean x, Boolean y => Bool.eqb x y
  | Number x, Number y => Qeq_bool x y
  | Str x, Str y => String.eqb x y
  | _, _ => false
  end.

(** [a !== b] *)
Definition strictNotEquals (a b : Value) : bool := negb (strictEquals a b).

(** [String(n)] for an integer [n]: its decimal digits. *)
Definition toDecimalString (n : Z) : string :=
  NilZero.string_of_int (Z.to_int n).

(** [Math.floor] *)
Definition floor (q : Q) : Z := Qfloor q.

(** *** The arithmetic of doubles

    A double is a rational number; [a * b] and [a + b] are the exact result
    rounded to the nearest double, ties to the even significand (IEEE 754,
    binary64: 53 significant bits, subnormals below [2 ^ -1022]).  Overflow
    is left out: the results here stay far below [2 ^ 1024]. *)

Definition pow2 (e : Z) : Q := (2 ^ e)%Q.

(** The binary exponent of a positive number [x]:
    [2 ^ e <= x < 2 ^ (e + 1)]. *)
Definition exponent (x : Q) : Z :=
  let e := Z.log2 (Qnum x) - Z.log2 (Zpos (Qden x)) in
  if Qle_bool (pow2 e) x then e else e - 1.

(** The gap between the doubles around [x]. *)
Definition ulp (x : Q) : Q := pow2 (Z.max (exponent x) (-1022) - 52).

(** The nearest integer, ties to the even one. *)
Definition nearestEven (x : Q) : Z :=
  let n := Qfloor x in
  match Qcompare (x - inject_Z n) (1 # 2) with
  | Lt => n
  | Gt => n + 1
  | Eq => if Z.even n then n else n + 1
  end.

Definition roundDouble (x : Q) : Q :=
  match Qcompare x 0 with
  | Eq => 0%Q
  | Gt => (inject_Z (nearestEven (x / ulp x)) * ulp x)%Q
  | Lt => (- (inject_Z (nearestEven (- x / ulp (- x))) * ulp (- x)))%Q
  end.

(** [a * b] and [a + b] on doubles *)
Definition mul (a b : Q) : Q := roundDouble (a * b).
Definition add (a b : Q) : Q := roundDouble (a + b).

End Js.

(* ================================================================== *)
(** ** backend/models *)

Module Model.

Definition ObjectId := N.

Inductive Role : Type := seeker_role | provider_role.

(** UserModel.js, [status] enum. *)
Inductive UserStatus : Type := offline | online | active | busy.
(* [busy] is the string 'in-progress' of the user schema. *)

(** Request schema, [status] enum. *)
Inductive Status : Type := pending | in_progress | completed | cancelled | expired.

(** Request schema, [history.status] enum. *)
Inductive HistoryStatus : Type := h_accepted | h_completed.

Definition Status_eqb (a b : Status) : bool :=
  match a, b with
  | pending, pending | in_progress, in_progress | completed, completed
  | cancelled, cancelled | expired, expired => true
  | _, _ => false
  end.

Definition UserStatus_eqb (a b : UserStatus) : bool :=
  match a, b with
  | offline, offline | online, online | active, active | busy, busy => true
  | _, _ => false
  end.

Definition Role_eqb (a b : Role) : bool :=
  match a, b with
  | seeker_role, seeker_role | provider_role, provider_role => true
  | _, _ => false
  end.

(** A GeoJSON point, [longitude, latitude]. *)
Definition Point : Type := (Q * Q)%type.

Record User : Type := mkUser {
  u_id : ObjectId;
  userName : string;
  u_role : Role;
  skills : list string;
  u_coordinates : list Q;      (* location.coordinates, an array of numbers *)
  u_status : UserStatus
}.

Record HistoryEntry : Type := mkHistory {
  h_provider : option ObjectId;
  h_status : HistoryStatus;
  h_timestamp : Z
}.

Record Request : Type := mkRequest {
  _id : ObjectId;
  seeker : ObjectId;
  category : string;
  description : string;
  contactNumber : string;
  location : Point;
  duration : Z;                      (* minutes *)
  additionalDetails : option string;
  provider : option ObjectId;
  status : Status;
  generatedPin : option string;      (* schema type String *)
  pinGeneratedAt : option Z;
  history : list HistoryEntry;
  createdAt : Z;
  updatedAt : Z;
  expirationTime : Z
}.

Definition set_status (s : Status) (r : Request) : Request :=
  mkRequest (_id r) (seeker r) (category r) (description r) (contactNumber r)
    (location r) (duration r) (additionalDetails r) (provider r) s
    (generatedPin r) (pinGeneratedAt r) (history r) (createdAt r)
    (updatedAt r) (expirationTime r).

Definition set_provider (p : option ObjectId) (r : Request) : Request :=
  mkRequest (_id r) (seeker r) (category r) (description r) (contactNumber r)
    (location r) (duration r) (additionalDetails r) p (status r)
    (generatedPin r) (pinGeneratedAt r) (history r) (createdAt r)
    (updatedAt r) (expirationTime r).

Definition set_generatedPin (p : option string) (r : Request) : Request :=
  mkRequest (_id r) (seeker r) (category r) (description r) (contactNumber r)
    (location r) (duration r) (additionalDetails r) (provider r) (status r)
    p (pinGeneratedAt r) (history r) (createdAt r)
    (updatedAt r) (expirationTime r).

Definition set_history (h : list HistoryEntry) (r : Request) : Request :=
  mkRequest (_id r) (seeker r) (category r) (description r) (contactNumber r)
    (location r) (duration r) (additionalDetails r) (provider r) (status r)
    (generatedPin r) (pinGeneratedAt r) h (createdAt r)
    (updatedAt r) (expirationTime r).

Definition set_updatedAt (t : Z) (r : Request) : Request :=
  mkRequest (_id r) (seeker r) (category r) (description r) (contactNumber r)
    (location r) (duration r) (additionalDetails r) (provider r) (status r)
    (generatedPin r) (pinGeneratedAt r) (history r) (createdAt r)
    t (expirationTime r).

Definition set_expirationTime (t : Z) (r : Request) : Request :=
  mkRequest (_id r) (seeker r) (category r) (description r) (contactNumber r)
    (location r) (duration r) (additionalDetails r) (provider r) (status r)
    (generatedPin r) (pinGeneratedAt r) (history r) (createdAt r)
    (updatedAt r) t.

Definition set_u_status (s : UserStatus) (u : User) : User :=
  mkUser (u_id u) (userName u) (u_role u) (skills u) (u_coordinates u) s.

(** The database: the two collections, each in its natural (insertion)
    order. *)
Record DB : Type := mkDB {
  requests : list Request;
  users : list User
}.

(** *** Hooks of the Request schema *)

(** First [pre('save')] hook:
    [this.expirationTime = new Date(Date.now() + this.duration * 60 * 1000)].
    It is registered for every save, of a new document or a loaded one. *)
Definition preSave_expiration (now : Z) (doc : Request) : Request :=
  set_expirationTime (now + duration doc * 60 * 1000) doc.

(** Second [pre('save')] hook: when [status] was modified, push a history
    entry for 'in-progress' and for 'completed'.  [modified] is
    [this.isModified('status')]. *)
Definition preSave_history (now : Z) (modified : bool) (doc : Request) : Request :=
  if modified then
    let doc1 :=
      if Status_eqb (status doc) in_progress
      then set_history (history doc ++ [mkHistory (provider doc) h_accepted now]) doc
      else doc in
    if Status_eqb (status doc1) completed
    then set_history (history doc1 ++ [mkHistory (provider doc1) h_completed now]) doc1
    else doc1
  else doc.

(** The filter of both sweeps:
    [{ expirationTime: { $lt: currentTime }, status: { $ne: 'expired' } }]. *)
Definition sweepFilter (currentTime : Z) (r : Request) : bool :=
  (expirationTime r <? currentTime) && negb (Status_eqb (status r) expired).

(** The update of both sweeps, [{ status: 'expired' }]; the schema has
    [timestamps: true], so the update also stamps [updatedAt]. *)
Definition markExpired (currentTime : Z) (r : Request) : Request :=
  set_updatedAt currentTime (set_status expired r).

(** What a sweep makes of a document its filter is tried on. *)
Definition swept (currentTime : Z) (r : Request) : Request :=
  if sweepFilter currentTime r then markExpired currentTime r else r.

(** [updateMany(filter, update)] of the [pre('find')] hook. *)
Definition sweepExpired (currentTime : Z) (rs : list Request) : list Request :=
  map (swept currentTime) rs.

(** [updateOne(filter, update)] of the [pre('findOne')] hook: only the first
    document that matches the filter is updated. *)
Fixpoint sweepOne (currentTime : Z) (rs : list Request) : list Request :=
  match rs with
  | [] => []
  | r :: rest =>
      if sweepFilter currentTime r
      then markExpired currentTime r :: rest
      else r :: sweepOne currentTime rest
  end.

(** *** Collection operations (pure parts) *)

Definition lookupRequest (id : ObjectId) (rs : list Request) : option Request :=
  find (fun r => N.eqb (_id r) id) rs.

Definition lookupUser (id : ObjectId) (us : list User) : option User :=
  find (fun u => N.eqb (u_id u) id) us.

(** Write a loaded document back: the stored document with the same [_id]
    is replaced. *)
Definition replaceRequest (doc : Request) (rs : list Request) : list Request :=
  map (fun r => if N.eqb (_id r) (_id doc) then doc else r) rs.

Definition replaceUser (doc : User) (us : list User) : list User :=
  map (fun u => if N.eqb (u_id u) (u_id doc) then doc else u) us.

(** [doc.save()] of a document loaded as [loaded] and modified into [doc]:
    the two [pre('save')] hooks in registration order, then the write. *)
Definition saveLoaded (now : Z) (loaded doc : Request) : Request :=
  let modified := negb (Status_eqb (status doc) (status loaded)) in
  set_updatedAt now (preSave_history now modified (preSave_expiration now doc)).

(** [doc.save()] of a new document.  Its [status] is the default 'pending',
    for which neither branch of the history hook pushes anything, whatever
    [isModified('status')] answers. *)
Definition saveNew (now : Z) (doc : Request) : Request :=
  set_updatedAt now (preSave_history now false (preSave_expiration now doc)).

End Model.

(* ================================================================== *)
(** ** backend/controllers/serviceRequestController.js *)

Module Controller.
Import Model.

(** *** Responses *)

Inductive Body : Type :=
| Message (m : string)
| MessageAndRequest (m : string) (r : Request)
| Document (r : Request)
| Documents (rs : list Request)
| Pin (requestId : ObjectId) (pin : option string).

Record Response : Type := mkResponse {
  statusCode : Z;
  body : Body
}.

(** [res.status(c).json({ message: m })] *)
Definition reply (c : Z) (m : string) : Response := mkResponse c (Message m).

(** The error kinds of the specification, as the responses the handlers
    send for them. *)
Definition ProviderBusy : Response :=
  reply 400 "You have an active request in progress. Please complete it before accepting a new request.".
Definition NotFound : Response := reply 404 "Service request not found".
Definition AlreadyClaimed : Response := reply 400 "Request is no longer active".
Definition InvalidPin : Response := reply 400 "Invalid PIN".
Definition CancelNotSeeker : Response := reply 403 "Only seekers can cancel requests".
Definition CancelInvalidState : Response :=
  reply 400 "Request is in progress and cannot be cancelled.".
Definition ServerError : Response := reply 500 "Server error".

(** *** The handler monad

    A handler threads the database, may answer early ([return res...]) and
    may throw; the [catch] of every handler answers 500. *)

Inductive Step (A : Type) : Type :=
| Next (a : A)
| Respond (r : Response)
| Throw.
Arguments Next {A} a.
Arguments Respond {A} r.
Arguments Throw {A}.

Definition Handler (A : Type) : Type := DB -> Step A * DB.

Definition ret {A} (a : A) : Handler A := fun db => (Next a, db).

Definition bind {A B} (m : Handler A) (k : A -> Handler B) : Handler B :=
  fun db =>
    match m db with
    | (Next a, db') => k a db'
    | (Respond r, db') => (Respond r, db')
    | (Throw, db') => (Throw, db')
    end.

Definition respond {A} (r : Response) : Handler A := fun db => (Respond r, db).
Definition throw {A} : Handler A := fun db => (Throw, db).

Notation "x <- m ;; k" := (bind m (fun x => k))
  (at level 61, m at next level, right associativity).
Notation "m ;;; k" := (bind m (fun _ => k))
  (at level 61, right associativity).

(** [if (c) return res...;] *)
Definition returnIf (c : bool) (r : Response) : Handler unit :=
  if c then respond r else ret tt.

(** A handler body always ends by answering or throwing. *)
Definition runHandler (h : Handler Empty_set) (db : DB) : Response * DB :=
  match h db with
  | (Next a, _) => match a with end
  | (Respond r, db') => (r, db')
  | (Throw, db') => (ServerError, db')
  end.

(** *** Model calls *)

(** [User.findById(id)]; the User schema has no query hook. *)
Definition User_findById (id : ObjectId) : Handler (option User) :=
  fun db => (Next (lookupUser id (users db)), db).

(** Reading a path of a document that may be [null] throws a TypeError. *)
Definition deref {A} (o : option A) : Handler A :=
  match o with Some a => ret a | None => throw end.

(** [user.save()] *)
Definition User_save (u : User) : Handler unit :=
  fun db => (Next tt, mkDB (requests db) (replaceUser u (users db))).

(** [ServiceRequest.findById(id)]: a [findOne] query, so the
    [pre('findOne')] hook runs first. *)
Definition ServiceRequest_findById (now : Z) (id : ObjectId) : Handler (option Request) :=
  fun db =>
    let rs := sweepOne now (requests db) in
    (Next (lookupRequest id rs), mkDB rs (users db)).

(** [ServiceRequest.find(filter)]: the [pre('find')] hook runs first. *)
Definition ServiceRequest_find (now : Z) (filter : Request -> bool) : Handler (list Request) :=
  fun db =>
    let rs := sweepExpired now (requests db) in
    (Next (List.filter filter rs), mkDB rs (users db)).

(** [request.save()] of a loaded document. *)
Definition ServiceRequest_save (now : Z) (loaded doc : Request) : Handler Request :=
  fun db =>
    let saved := saveLoaded now loaded doc in
    (Next saved, mkDB (replaceRequest saved (requests db)) (users db)).

(** [newRequest.save()] *)
Definition ServiceRequest_saveNew (now : Z) (doc : Request) : Handler Request :=
  fun db =>
    let saved := saveNew now doc in
    (Next saved, mkDB (requests db ++ [saved]) (users db)).

(** [req.user], decoded from the bearer token, and the request as the
    handlers read it. *)
Record ReqUser : Type := mkReqUser {
  id : ObjectId;
  role : Role
}.

(** *** createRequest *)

(** The fields of [req.body] that the handler reads, each of the type of
    its schema path (a value of another type fails the cast).  A field that
    may be missing is an option.  The location is taken as given, a GeoJSON
    point:
    the schema does not refuse a body without one ([location.type] and
    [location.coordinates] have the defaults 'Point' and [[]], and the
    [required] validator of an array path accepts an empty array), but the
    request stored then has no coordinates, which [Request.location] does
    not hold; such bodies are outside this embedding. *)
Record CreateBody : Type := mkCreateBody {
  b_category : option string;
  b_description : option string;
  b_contactNumber : option string;
  b_location : Point;
  b_duration : option Z;
  b_additionalDetails : option string
}.

(** Schema validation of a new Request: the [required: true] paths of type
    String (an empty string fails them too) and Number; a validation error
    is thrown by [save]. *)
Definition newServiceRequest (newId : ObjectId) (now : Z) (userId : ObjectId)
    (b : CreateBody) : option Request :=
  match b_category b, b_description b, b_contactNumber b, b_duration b with
  | Some c, Some d, Some n, Some m =>
      if (String.eqb c "" || String.eqb d "" || String.eqb n "")%bool then None
      else Some (mkRequest newId userId c d n (b_location b) m (b_additionalDetails b)
                   None pending None None [] now now 0)
                   (* [expirationTime] is unset until the save hook runs *)
  | _, _, _, _ => None
  end.

Definition createRequest (newId : ObjectId) (now : Z) (user : ReqUser) (b : CreateBody)
  : Handler Empty_set :=
  returnIf (negb (Role_eqb (role user) seeker_role))
    (reply 403 "Only seekers can create service requests") ;;;
  newRequest <- deref (newServiceRequest newId now (id user) b) ;;
  savedRequest <- ServiceRequest_saveNew now newRequest ;;
  respond (mkResponse 201 (Document savedRequest)).

(** *** acceptRequest *)

(** [Math.floor(100000 + Math.random() * 900000)], in doubles: the product
    is rounded, then the sum. *)
Definition generatePin (u : Q) : Z :=
  Js.floor (Js.add 100000 (Js.mul u 900000)).

Definition acceptRequest (now : Z) (u : Q) (user0 : ReqUser) (requestId : ObjectId)
  : Handler Empty_set :=
  user <- User_findById (id user0) ;;
  returnIf (negb (Role_eqb (role user0) provider_role))
    (reply 403 "Only providers can accept requests") ;;;
  user <- deref user ;;
  returnIf (UserStatus_eqb (u_status user) busy) ProviderBusy ;;;
  request <- ServiceRequest_findById now requestId ;;
  match request with
  | None => respond NotFound
  | Some request =>
      returnIf (negb (Status_eqb (status request) pending)) AlreadyClaimed ;;;
      let request1 := set_status in_progress request in
      let request2 := set_provider (Some (id user0)) request1 in
      (* the schema casts the number to the String type of the path *)
      let request3 :=
        set_generatedPin (Some (Js.toDecimalString (generatePin u))) request2 in
      User_save (set_u_status busy user) ;;;
      saved <- ServiceRequest_save now request request3 ;;
      respond (mkResponse 200 (MessageAndRequest "Request accepted" saved))
  end.

(** *** completeRequest *)

Definition pinValue (r : Request) : Js.Value :=
  match generatedPin r with
  | Some s => Js.Str s
  | None => Js.Undefined
  end.

Definition completeRequest (now : Z) (user0 : ReqUser) (requestId : ObjectId)
    (pin : Js.Value) : Handler Empty_set :=
  request <- ServiceRequest_findById now requestId ;;
  match request with
  | None => respond NotFound
  | Some request =>
      returnIf (Js.strictNotEquals (pinValue request) pin) InvalidPin ;;;
      saved <- ServiceRequest_save now request (set_status completed request) ;;
      user <- User_findById (id user0) ;;
      user <- deref user ;;
      User_save (set_u_status online user) ;;;
      respond (mkResponse 200 (MessageAndRequest "Request completed successfully" saved))
  end.

(** *** cancelRequest *)

Definition cancelRequest (now : Z) (user0 : ReqUser) (requestId : ObjectId)
  : Handler Empty_set :=
  user <- User_findById (id user0) ;;
  returnIf (negb (Role_eqb (role user0) seeker_role)) CancelNotSeeker ;;;
  request <- ServiceRequest_findById now requestId ;;
  match request with
  | None => respond NotFound
  | Some request =>
      returnIf (negb (Status_eqb (status request) pending)) CancelInvalidState ;;;
      ServiceRequest_save now request (set_status cancelled request) ;;;
      respond (reply 200 "Request cancelled successfully")
  end.

(** *** getRequestPin *)

Definition getRequestPin (now : Z) (user0 : ReqUser) (requestId : ObjectId)
  : Handler Empty_set :=
  request <- ServiceRequest_findById now requestId ;;
  match request with
  | None => respond (reply 404 "Request not found")
  | Some request =>
      returnIf (negb (N.eqb (seeker request) (id user0)))
        (reply 403 "Not authorized to access this request") ;;;
      returnIf (negb (Status_eqb (status request) in_progress))
        (reply 400 "PIN is only available for in-progress requests") ;;;
      respond (mkResponse 200 (Pin (_id request) (generatedPin request)))
  end.

(** *** getRequestHistory (the documents found; the formatting of the
        answer is left out) *)

Definition getRequestHistory (now : Z) (user0 : ReqUser) : Handler Empty_set :=
  match role user0 with
  | seeker_role =>
      history <- ServiceRequest_find now (fun r => N.eqb (seeker r) (id user0)) ;;
      respond (mkResponse 200 (Documents history))
  | provider_role =>
      history <- ServiceRequest_find now
        (fun r => existsb (fun h => match h_provider h with
                                    | Some p => N.eqb p (id user0)
                                    | None => false
                                    end) (history r)) ;;
      respond (mkResponse 200 (Documents history))
  end.

(** *** getActiveRequests *)

Section Matching.

(** The spherical geometry of the database: the central angle, in radians,
    between two points given as [longitude, latitude]. *)
Variable centralAngle : Point -> Point -> Q.

(** [$geoWithin: { $centerSphere: [center, radians] }] *)
Definition geoWithinCenterSphere (center : Point) (radians : Q) (p : Point) : bool :=
  Qle_bool (centralAngle center p) radians.

(** [const radius = 1000; // Radius in kilometers] *)
Definition radius : Q := 1000.

(** The divisor of [radius / 6378.1]: the Earth radius in kilometres. *)
Definition earthRadiusKm : Q := 63781 # 10.

(** The distance in kilometres that an angle stands for on that sphere. *)
Definition distanceKm (a b : Point) : Q := (centralAngle a b * earthRadiusKm)%Q.

Definition activeFilter (now : Z) (skills0 : list string) (center : Point)
    (r : Request) : bool :=
  existsb (String.eqb (category r)) skills0
  && geoWithinCenterSphere center (radius / earthRadiusKm) (location r)
  && (now <=? expirationTime r)
  && Status_eqb (status r) pending.

Definition getActiveRequests (now : Z) (user0 : ReqUser) : Handler Empty_set :=
  returnIf (negb (Role_eqb (role user0) provider_role))
    (reply 403 "Only providers can view service requests") ;;;
  user <- User_findById (id user0) ;;
  user <- deref user ;;
  returnIf (UserStatus_eqb (u_status user) busy)
    (reply 400 "You have an ongoing request in progress.") ;;;
  match u_coordinates user with
  | [c0; c1] =>
      activeRequests <- ServiceRequest_find now (activeFilter now (skills user) (c0, c1)) ;;
      respond (mkResponse 200 (Documents activeRequests))
  | _ => respond (reply 400 "Invalid location")
  end.

End Matching.

End Controller.

(* ================================================================== *)
(** ** LocationTrackingService (browser side) *)

Module Tracking.

Local Open Scope R_scope.

Record Coords : Type := mkCoords {
  latitude : R;
  longitude : R;
  accuracy : R
}.

Record Position : Type := mkPosition {
  coords : Coords;
  timestamp : Z
}.

Record TrackingOptions : Type := mkTrackingOptions {
  enableHighAccuracy : bool;
  maximumAge : Z;
  timeout : Z;
  distanceFilter : R
}.

Record Service : Type := mkService {
  lastPosition : option Position;
  trackingOptions : TrackingOptions;
  batteryFriendly : bool;
  minAccuracy : R
}.

(** The state the constructor builds. *)
Definition constructor : Service :=
  mkService None (mkTrackingOptions true 30000 27000 10) true 50.

(** [Math.atan2(y, x)] *)
Definition atan2 (y x : R) : R :=
  if Rlt_dec 0 x then atan (y / x)
  else if Rlt_dec x 0 then
    (if Rle_dec 0 y then atan (y / x) + PI else atan (y / x) - PI)
  else if Rlt_dec 0 y then PI / 2
  else if Rlt_dec y 0 then - (PI / 2)
  else 0.

(** [_calculateDistance(lat1, lon1, lat2, lon2)]: the haversine distance in
    metres. *)
Definition _calculateDistance (lat1 lon1 lat2 lon2 : R) : R :=
  let R0 := 6371000 in
  let phi1 := lat1 * PI / 180 in
  let phi2 := lat2 * PI / 180 in
  let dphi := (lat2 - lat1) * PI / 180 in
  let dlambda := (lon2 - lon1) * PI / 180 in
  let a := sin (dphi / 2) * sin (dphi / 2) +
           cos phi1 * cos phi2 * sin (dlambda / 2) * sin (dlambda / 2) in
  let c := 2 * atan2 (sqrt a) (sqrt (1 - a)) in
  R0 * c.

(** [x > y] on numbers. *)
Definition gtb (x y : R) : bool := if Rgt_dec x y then true else false.

(** The distance and the elapsed time [_shouldUpdatePosition] compares. *)
Definition movedDistance (last position : Position) : R :=
  _calculateDistance (latitude (coords last)) (longitude (coords last))
                     (latitude (coords position)) (longitude (coords position)).

Definition timeDiff (last position : Position) : Z :=
  (timestamp position - timestamp last)%Z.

Definition timeThreshold : Z := 60000.

Definition _shouldUpdatePosition (this : Service) (position : Position) : bool :=
  match lastPosition this with
  | None => true
  | Some last =>
      if batteryFriendly this && gtb (accuracy (coords position)) (minAccuracy this)
      then false
      else
        let distance := movedDistance last position in
        gtb distance (distanceFilter (trackingOptions this))
        || (timeThreshold <? timeDiff last position)%Z
  end.

(** What [_handlePositionUpdate] does besides assigning [lastPosition]. *)
Inductive Effect : Type :=
| StoreLastUserLocation (lat lng : R)
| NotifyListeners (p : Position)
| SocketUpdateLocation (lat lng : R).

(** [_handlePositionUpdate(position)]; [socketProvider] tells whether
    [window.socketService] exists and the stored role is 'provider'. *)
Definition _handlePositionUpdate (socketProvider : bool) (this : Service)
    (position : Position) : Service * list Effect :=
  if _shouldUpdatePosition this position then
    let formatted := position in
    (mkService (Some formatted) (trackingOptions this) (batteryFriendly this)
       (minAccuracy this),
     ([StoreLastUserLocation (latitude (coords formatted)) (longitude (coords formatted));
       NotifyListeners formatted]
      ++ (if socketProvider
          then [SocketUpdateLocation (latitude (coords formatted))
                                     (longitude (coords formatted))]
          else []))%list)
  else (this, []).

End Tracking.

(* ================================================================== *)
(** ** Sample data for the scenarios *)

Module Scenario.
Import Model Controller.

Definition alice : User := mkUser 1%N "alice" seeker_role [] [] offline.
Definition bob : User := mkUser 2%N "bob" seeker_role [] [] offline.
(** Pat rests 0.09 degrees of latitude north of Alice's request. *)
Definition patPoint : Point := (7759 # 100, 1306 # 100)%Q.
Definition pat : User :=
  mkUser 10%N "pat" provider_role ["plumbing"] [7759 # 100; 1306 # 100]%Q online.

(** Quinn, a second plumber, is not among the people of the worked
    examples; she joins for the calls in flight. *)
Definition quinn : User :=
  mkUser 11%N "quinn" provider_role ["plumbing"] [7759 # 100; 1306 # 100]%Q online.

Definition asAlice : ReqUser := mkReqUser 1%N seeker_role.
Definition asBob : ReqUser := mkReqUser 2%N seeker_role.
Definition asPat : ReqUser := mkReqUser 10%N provider_role.
Definition asQuinn : ReqUser := mkReqUser 11%N provider_role.

(** Alice's request 100 for a plumber, valid 30 minutes, created at time 0. *)
Definition tapBody : CreateBody :=
  mkCreateBody (Some "plumbing") (Some "Leaking tap") (Some "9876543210")
    (7759 # 100, 1297 # 100)%Q (Some 30) None.

Definition tap (st : Status) (prov : option ObjectId) (pin : option string)
    (hist : list HistoryEntry) : Request :=
  mkRequest 100%N 1%N "plumbing" "Leaking tap" "9876543210"
    (7759 # 100, 1297 # 100)%Q 30 None prov st pin None hist 0 0 1800000.

Definition people : list User := [alice; bob; pat].

(** The run that leads there: Alice creates the request at time 0, Pat
    accepts it at 600000 ([Math.random()] answering 1/2) and completes it at
    900000 with the code. *)
Definition dbCreated : DB :=
  snd (runHandler (createRequest 100%N 0 asAlice tapBody) (mkDB [] people)).
Definition dbAccepted : DB :=
  snd (runHandler (acceptRequest 600000 (1 # 2) asPat 100%N) dbCreated).
Definition dbCompleted : DB :=
  snd (runHandler (completeRequest 900000 asPat 100%N (Js.Str "550000")) dbAccepted).

(** A geometry for points of one meridian: the central angle of the arc
    between two latitudes, at 1000/9 km to the degree (the quarter meridian
    is 10000 km). *)
Definition meridianAngle (a b : Point) : Q :=
  (Qabs (snd a - snd b) * (1000 # 9) / earthRadiusKm)%Q.

(** The request after Pat accepted it at 600000 and completed it at 900000
    with the right code; the save of the completion left its window ending
    at 900000 + 30 minutes. *)
Definition completedTap : Request :=
  mkRequest 100%N 1%N "plumbing" "Leaking tap" "9876543210"
    (7759 # 100, 1297 # 100)%Q 30 None (Some 10%N) completed (Some "550000") None
    [mkHistory (Some 10%N) h_accepted 600000;
     mkHistory (Some 10%N) h_completed 900000]
    0 900000 2700000.

(** The request still pending, never accepted. *)
Definition pendingTap : Request := tap pending None None [].

(** A second pending request of Alice, stored after the first, with the
    same window. *)
Definition secondTap : Request :=
  mkRequest 101%N 1%N "plumbing" "Blocked drain" "9876543210"
    (7759 # 100, 1297 # 100)%Q 30 None None pending None None [] 0 0 1800000.

End Scenario.

(* ================================================================== *)
(** ** backend/controllers/authController.js: login and logout *)

Module AuthController.
Import Model Controller.

Section Auth.

(** The paths of the User schema that the record [User] leaves out, as
    projections, and the two library calls: [bcrypt.compare] and
    [jwt.sign] (taken to succeed). *)
Variable emailOf : User -> string.
Variable passwordOf : User -> string.
Variable bcryptCompare : string -> string -> bool.
Variable jwtSign : ObjectId -> Role -> string.

Inductive Answer : Type :=
| Message (code : Z) (m : string)
| Session (token : string) (userId : ObjectId) (name : string) (r : Role)
          (s : UserStatus).

(** [User.findOne({ email })] *)
Definition findByEmail (email : string) (us : list User) : option User :=
  find (fun u => String.eqb (emailOf u) email) us.

Definition login (email password : string) (db : DB) : Answer * DB :=
  match findByEmail email (users db) with
  | None => (Message 400 "Invalid credentials", db)
  | Some user =>
      if negb (bcryptCompare password (passwordOf user))
      then (Message 400 "Invalid credentials", db)
      else
        let user1 :=
          if Role_eqb (u_role user) provider_role
          then set_u_status online user else user in
        let db1 :=
          if Role_eqb (u_role user) provider_role
          then mkDB (requests db) (replaceUser user1 (users db)) else db in
        (Session (jwtSign (u_id user1) (u_role user1)) (u_id user1)
           (userName user1) (u_role user1) (u_status user1), db1)
  end.

End Auth.

Definition logout (user0 : ReqUser) (db : DB) : Z * string * DB :=
  match lookupUser (id user0) (users db) with
  | Some user =>
      if Role_eqb (u_role user) provider_role
      then (200, "Logged out successfully",
            mkDB (requests db) (replaceUser (set_u_status offline user) (users db)))
      else (200, "Logged out successfully", db)
  | None => (200, "Logged out successfully", db)
  end.

End AuthController.

(* ================================================================== *)
(** ** The change-stream handler of the events route *)

Module Events.
Import Model Controller.

(** [change.operationType] *)
Inductive OperationType : Type :=
| op_insert | op_update | op_replace | op_delete | op_invalidate.

Inductive SseEvent : Type :=
| RequestUpdated (r : Request).

(** [request.seeker.toString() === userId ||
     (request.provider && request.provider.toString() === userId)] *)
Definition relevantTo (userId : ObjectId) (request : Request) : bool :=
  N.eqb (seeker request) userId
  || match provider request with
     | Some p => N.eqb p userId
     | None => false
     end.

(** The listener of [changeStream.on('change', ...)] for the connection of
    [userId]: what it writes to the stream and what its lookup leaves of the
    database. *)
Definition onChange (now : Z) (writableEnded : bool) (userId : ObjectId)
    (operationType : OperationType) (documentKey : ObjectId) (db : DB)
  : list SseEvent * DB :=
  if writableEnded then ([], db)
  else
    match operationType with
    | op_update =>
        match ServiceRequest_findById now documentKey db with
        | (Next (Some request), db') =>
            if relevantTo userId request
            then ([RequestUpdated request], db')
            else ([], db')
        | (_, db') => ([], db')
        end
    | _ => ([], db)
    end.

End Events.

(* ================================================================== *)
(** ** The calls of the service-request routes, in sequence *)

Module Lifecycle.
Import Model Controller.

(** The paths of a request that no sweep writes: the document with [status]
    and [updatedAt] blanked. *)
Definition unswept (r : Request) : Request :=
  set_updatedAt 0 (set_status pending r).

(** The paths that are written once, when the request is created. *)
Definition fixedPaths (r : Request)
  : ObjectId * ObjectId * string * string * string * Point * Z * option string * Z :=
  (_id r, seeker r, category r, description r, contactNumber r, location r,
   duration r, additionalDetails r, createdAt r).

Definition isAccepted (h : HistoryEntry) : bool :=
  match h_status h with h_accepted => true | h_completed => false end.

Definition isNone {A} (o : option A) : bool :=
  match o with None => true | Some _ => false end.

(** A request is consistent when a pending request has no history, a
    provider is assigned exactly when a code is stored, a code is stored
    exactly when the history has an 'accepted' entry, and a request in
    progress has a code. *)
Definition consistent (r : Request) : bool :=
  (negb (Status_eqb (status r) pending) || isNone (hd_error (history r)))
  && Bool.eqb (isNone (provider r)) (isNone (generatedPin r))
  && Bool.eqb (isNone (generatedPin r)) (negb (existsb isAccepted (history r)))
  && (negb (Status_eqb (status r) in_progress) || negb (isNone (generatedPin r))).

(** The request of identifier [id0] is stored and no longer pending. *)
Definition claimed (id0 : ObjectId) (rs : list Request) : Prop :=
  exists r, lookupRequest id0 rs = Some r /\ status r <> pending.

(** How one stored request may change from one call to the next. *)
Definition evolves (r r' : Request) : Prop :=
  fixedPaths r' = fixedPaths r /\
  (status r <> pending -> status r' <> pending) /\
  (exists added, history r' = (history r ++ added)%list) /\
  (provider r <> None -> provider r' = provider r) /\
  (generatedPin r <> None -> generatedPin r' = generatedPin r).

Section Calls.

Variable centralAngle : Point -> Point -> Q.

Inductive Call : Type :=
| Create (newId : ObjectId) (user : ReqUser) (b : CreateBody)
| Active (user : ReqUser)
| Accept (u : Q) (user : ReqUser) (requestId : ObjectId)
| Complete (user : ReqUser) (requestId : ObjectId) (pin : Js.Value)
| History (user : ReqUser)
| GetPin (user : ReqUser) (requestId : ObjectId)
| Cancel (user : ReqUser) (requestId : ObjectId).

Definition handlerOf (now : Z) (c : Call) : Handler Empty_set :=
  match c with
  | Create newId user b => createRequest newId now user b
  | Active user => getActiveRequests centralAngle now user
  | Accept u user requestId => acceptRequest now u user requestId
  | Complete user requestId pin => completeRequest now user requestId pin
  | History user => getRequestHistory now user
  | GetPin user requestId => getRequestPin now user requestId
  | Cancel user requestId => cancelRequest now user requestId
  end.

Definition perform (now : Z) (c : Call) (db : DB) : Response * DB :=
  runHandler (handlerOf now c) db.

(** The database after a sequence of calls, each at its time, served one
    at a time: a call runs to its answer before the next begins.  The calls
    in flight together are in [Concurrent]. *)
Fixpoint run (cs : list (Z * Call)) (db : DB) : DB :=
  match cs with
  | [] => db
  | (now, c) :: rest => run rest (snd (perform now c db))
  end.

(** A create call brings an identifier no stored request has. *)
Definition freshFor (c : Call) (db : DB) : Prop :=
  match c with
  | Create newId _ _ => ~ In newId (map _id (requests db))
  | _ => True
  end.

(** Every create call of a sequence brings a fresh identifier. *)
Fixpoint allFresh (cs : list (Z * Call)) (db : DB) : Prop :=
  match cs with
  | [] => True
  | (now, c) :: rest => freshFor c db /\ allFresh rest (snd (perform now c db))
  end.

(** The ways a call can change the collection of requests: not at all, by
    the sweep of a fetch or of a listing, by the save of an accepted, a
    completed or a cancelled request after the sweep of its fetch, or by the
    save of a new request. *)
Inductive Change (now : Z) (c : Call) (rs : list Request) : list Request -> Prop :=
| change_none : Change now c rs rs
| change_fetch : Change now c rs (sweepOne now rs)
| change_listing : Change now c rs (sweepExpired now rs)
| change_accept requestId r caller code :
    lookupRequest requestId (sweepOne now rs) = Some r ->
    status r = pending ->
    Change now c rs
      (replaceRequest
         (saveLoaded now r
            (set_generatedPin (Some code)
               (set_provider (Some caller) (set_status in_progress r))))
         (sweepOne now rs))
| change_complete requestId r :
    lookupRequest requestId (sweepOne now rs) = Some r ->
    Change now c rs
      (replaceRequest (saveLoaded now r (set_status completed r)) (sweepOne now rs))
| change_cancel requestId r :
    lookupRequest requestId (sweepOne now rs) = Some r ->
    status r = pending ->
    Change now c rs
      (replaceRequest (saveLoaded now r (set_status cancelled r)) (sweepOne now rs))
| change_create newId user b doc :
    c = Create newId user b ->
    _id doc = newId -> status doc = pending -> provider doc = None ->
    generatedPin doc = None -> history doc = [] ->
    Change now c rs (rs ++ [doc]).

End Calls.

End Lifecycle.

(* ================================================================== *)
(** ** Calls in flight

    Express serves the calls concurrently: a handler runs up to its next
    [await], and the operations that the handlers send to the database
    interleave.  Here a handler is a program over single database
    operations, and a pool of such programs is run under any schedule.  As
    in [Controller], one invocation takes all its clock readings at one
    instant [now].

    A [save] of a loaded document writes the modified paths only ([$set]),
    pushes the new history entries ([$push]) and stamps [updatedAt]; what
    another call has stored meanwhile in the other paths stays. *)

Module Concurrent.
Import Model Controller.

(** A handler from some point on: it has answered, it has thrown, or it
    awaits a database operation [f] and goes on as [k] says, given the
    database as the operation leaves it. *)
Inductive Prog (A : Type) : Type :=
| Ret (a : A)
| Answer (r : Response)
| Fail
| Op (f : DB -> DB) (k : DB -> Prog A).
Arguments Ret {A} a.
Arguments Answer {A} r.
Arguments Fail {A}.
Arguments Op {A} f k.

Fixpoint bind {A B} (m : Prog A) (h : A -> Prog B) : Prog B :=
  match m with
  | Ret a => h a
  | Answer r => Answer r
  | Fail => Fail
  | Op f k => Op f (fun db => bind (k db) h)
  end.

Declare Scope prog_scope.
Delimit Scope prog_scope with prog.
Notation "x <- m ;; k" := (bind m (fun x => k))
  (at level 61, m at next level, right associativity) : prog_scope.
Notation "m ;;; k" := (bind m (fun _ => k))
  (at level 61, right associativity) : prog_scope.
Local Open Scope prog_scope.

(** [if (c) return res...;] *)
Definition returnIf (c : bool) (r : Response) : Prog unit :=
  if c then Answer r else Ret tt.

Definition deref {A} (o : option A) : Prog A :=
  match o with Some a => Ret a | None => Fail end.

(** *** Model calls, one database operation each *)

(** A query: the database is left as it is. *)
Definition query {A} (read : DB -> A) : Prog A :=
  Op (fun db => db) (fun db => Ret (read db)).

(** An update: nothing is read back. *)
Definition update (write : DB -> DB) : Prog unit :=
  Op write (fun _ => Ret tt).

Definition User_findById (id : ObjectId) : Prog (option User) :=
  query (fun db => lookupUser id (users db)).

(** [user.save()] of a document loaded as [loaded] and modified into [doc]:
    the handlers assign [status] only. *)
Definition writeBackUser (loaded doc stored : User) : User :=
  if UserStatus_eqb (u_status doc) (u_status loaded) then stored
  else set_u_status (u_status doc) stored.

Definition User_save (loaded doc : User) : Prog unit :=
  update (fun db =>
    mkDB (requests db)
      (map (fun w => if N.eqb (u_id w) (u_id doc)
                     then writeBackUser loaded doc w else w) (users db))).

(** [ServiceRequest.findById(id)]: the [updateOne] of the [pre('findOne')]
    hook, then the query. *)
Definition ServiceRequest_findById (now : Z) (id : ObjectId) : Prog (option Request) :=
  update (fun db => mkDB (sweepOne now (requests db)) (users db)) ;;;
  query (fun db => lookupRequest id (requests db)).

(** [ServiceRequest.find(filter)]: the [updateMany] of the [pre('find')]
    hook, then the query. *)
Definition ServiceRequest_find (now : Z) (filter : Request -> bool) : Prog (list Request) :=
  update (fun db => mkDB (sweepExpired now (requests db)) (users db)) ;;;
  query (fun db => List.filter filter (requests db)).

Definition option_eqb {A} (eqb : A -> A -> bool) (a b : option A) : bool :=
  match a, b with
  | Some x, Some y => eqb x y
  | None, None => true
  | _, _ => false
  end.

(** What the update of [saved.save()] makes of the stored document, for a
    document loaded as [loaded]: a path is written when its value is not
    the loaded one, the history entries pushed since the load are appended,
    and [updatedAt] is stamped. *)
Definition writeBack (loaded saved stored : Request) : Request :=
  mkRequest (_id stored) (seeker stored) (category stored) (description stored)
    (contactNumber stored) (location stored) (duration stored)
    (additionalDetails stored)
    (if option_eqb N.eqb (provider saved) (provider loaded)
     then provider stored else provider saved)
    (if Status_eqb (status saved) (status loaded)
     then status stored else status saved)
    (if option_eqb String.eqb (generatedPin saved) (generatedPin loaded)
     then generatedPin stored else generatedPin saved)
    (pinGeneratedAt stored)
    (history stored ++ skipn (List.length (history loaded)) (history saved))
    (createdAt stored)
    (updatedAt saved)
    (if expirationTime saved =? expirationTime loaded
     then expirationTime stored else expirationTime saved).

(** [request.save()] of a loaded document: the hooks run on the document in
    memory, which the handler goes on with; the stored one is updated. *)
Definition ServiceRequest_save (now : Z) (loaded doc : Request) : Prog Request :=
  let saved := saveLoaded now loaded doc in
  update (fun db =>
    mkDB (map (fun r => if N.eqb (_id r) (_id saved)
                        then writeBack loaded saved r else r) (requests db))
         (users db)) ;;;
  Ret saved.

(** [newRequest.save()]: an insert. *)
Definition ServiceRequest_saveNew (now : Z) (doc : Request) : Prog Request :=
  let saved := saveNew now doc in
  update (fun db => mkDB (requests db ++ [saved]) (users db)) ;;;
  Ret saved.

(** *** The handlers of serviceRequestController.js, await by await *)

Definition createRequest (newId : ObjectId) (now : Z) (user : ReqUser) (b : CreateBody)
  : Prog Empty_set :=
  returnIf (negb (Role_eqb (role user) seeker_role))
    (reply 403 "Only seekers can create service requests") ;;;
  newRequest <- deref (newServiceRequest newId now (id user) b) ;;
  savedRequest <- ServiceRequest_saveNew now newRequest ;;
  Answer (mkResponse 201 (Document savedRequest)).

Definition acceptRequest (now : Z) (u : Q) (user0 : ReqUser) (requestId : ObjectId)
  : Prog Empty_set :=
  user <- User_findById (id user0) ;;
  returnIf (negb (Role_eqb (role user0) provider_role))
    (reply 403 "Only providers can accept requests") ;;;
  user <- deref user ;;
  returnIf (UserStatus_eqb (u_status user) busy) ProviderBusy ;;;
  request <- ServiceRequest_findById now requestId ;;
  match request with
  | None => Answer NotFound
  | Some request =>
      returnIf (negb (Status_eqb (status request) pending)) AlreadyClaimed ;;;
      let request1 := set_status in_progress request in
      let request2 := set_provider (Some (id user0)) request1 in
      let request3 :=
        set_generatedPin (Some (Js.toDecimalString (generatePin u))) request2 in
      User_save user (set_u_status busy user) ;;;
      saved <- ServiceRequest_save now request request3 ;;
      Answer (mkResponse 200 (MessageAndRequest "Request accepted" saved))
  end.

Definition completeRequest (now : Z) (user0 : ReqUser) (requestId : ObjectId)
    (pin : Js.Value) : Prog Empty_set :=
  request <- ServiceRequest_findById now requestId ;;
  match request with
  | None => Answer NotFound
  | Some request =>
      returnIf (Js.strictNotEquals (pinValue request) pin) InvalidPin ;;;
      saved <- ServiceRequest_save now request (set_status completed request) ;;
      user <- User_findById (id user0) ;;
      user <- deref user ;;
      User_save user (set_u_status online user) ;;;
      Answer (mkResponse 200 (MessageAndRequest "Request completed successfully" saved))
  end.

Definition cancelRequest (now : Z) (user0 : ReqUser) (requestId : ObjectId)
  : Prog Empty_set :=
  user <- User_findById (id user0) ;;
  returnIf (negb (Role_eqb (role user0) seeker_role)) CancelNotSeeker ;;;
  request <- ServiceRequest_findById now requestId ;;
  match request with
  | None => Answer NotFound
  | Some request =>
      returnIf (negb (Status_eqb (status request) pending)) CancelInvalidState ;;;
      ServiceRequest_save now request (set_status cancelled request) ;;;
      Answer (reply 200 "Request cancelled successfully")
  end.

Definition getRequestPin (now : Z) (user0 : ReqUser) (requestId : ObjectId)
  : Prog Empty_set :=
  request <- ServiceRequest_findById now requestId ;;
  match request with
  | None => Answer (reply 404 "Request not found")
  | Some request =>
      returnIf (negb (N.eqb (seeker request) (id user0)))
        (reply 403 "Not authorized to access this request") ;;;
      returnIf (negb (Status_eqb (status request) in_progress))
        (reply 400 "PIN is only available for in-progress requests") ;;;
      Answer (mkResponse 200 (Pin (_id request) (generatedPin request)))
  end.

Definition getRequestHistory (now : Z) (user0 : ReqUser) : Prog Empty_set :=
  match role user0 with
  | seeker_role =>
      history <- ServiceRequest_find now (fun r => N.eqb (seeker r) (id user0)) ;;
      Answer (mkResponse 200 (Documents history))
  | provider_role =>
      history <- ServiceRequest_find now
        (fun r => existsb (fun h => match h_provider h with
                                    | Some p => N.eqb p (id user0)
                                    | None => false
                                    end) (history r)) ;;
      Answer (mkResponse 200 (Documents history))
  end.

Section Pools.

Variable centralAngle : Point -> Point -> Q.

Definition getActiveRequests (now : Z) (user0 : ReqUser) : Prog Empty_set :=
  returnIf (negb (Role_eqb (role user0) provider_role))
    (reply 403 "Only providers can view service requests") ;;;
  user <- User_findById (id user0) ;;
  user <- deref user ;;
  returnIf (UserStatus_eqb (u_status user) busy)
    (reply 400 "You have an ongoing request in progress.") ;;;
  match u_coordinates user with
  | [c0; c1] =>
      activeRequests <-
        ServiceRequest_find now (activeFilter centralAngle now (skills user) (c0, c1)) ;;
      Answer (mkResponse 200 (Documents activeRequests))
  | _ => Answer (reply 400 "Invalid location")
  end.

Definition handlerOf (now : Z) (c : Lifecycle.Call) : Prog Empty_set :=
  match c with
  | Lifecycle.Create newId user b => createRequest newId now user b
  | Lifecycle.Active user => getActiveRequests now user
  | Lifecycle.Accept u user requestId => acceptRequest now u user requestId
  | Lifecycle.Complete user requestId pin => completeRequest now user requestId pin
  | Lifecycle.History user => getRequestHistory now user
  | Lifecycle.GetPin user requestId => getRequestPin now user requestId
  | Lifecycle.Cancel user requestId => cancelRequest now user requestId
  end.

End Pools.

(** *** Running *)

(** A handler that runs alone, from its first operation to its answer. *)
Fixpoint alone (p : Prog Empty_set) (db : DB) : Response * DB :=
  match p with
  | Ret a => match a with end
  | Answer r => (r, db)
  | Fail => (ServerError, db)
  | Op f k => alone (k (f db)) (f db)
  end.

(** The answer of a handler, once it has one; the [catch] answers 500. *)
Definition answerOf (p : Prog Empty_set) : option Response :=
  match p with
  | Ret a => match a with end
  | Answer r => Some r
  | Fail => Some ServerError
  | Op _ _ => None
  end.

Fixpoint setNth {A} (i : nat) (a : A) (l : list A) : list A :=
  match l, i with
  | [], _ => []
  | _ :: rest, O => a :: rest
  | x :: rest, S j => x :: setNth j a rest
  end.

(** The calls in flight and the database. *)
Definition State : Type := (list (Prog Empty_set) * DB)%type.

(** The database performs the operation that the handler at position [i]
    awaits, and that handler runs up to its next [await]; nothing happens
    when it has answered already. *)
Definition turn (st : State) (i : nat) : State :=
  match nth_error (fst st) i with
  | Some (Op f k) =>
      let db' := f (snd st) in (setNth i (k db') (fst st), db')
  | _ => st
  end.

(** A schedule: whose operation the database performs next. *)
Definition exec (schedule : list nat) (st : State) : State :=
  fold_left turn schedule st.

(** *** What every operation respects *)

(** How a stored request may change under the operations of calls in
    flight. *)
Definition evolves (r r' : Request) : Prop :=
  Lifecycle.fixedPaths r' = Lifecycle.fixedPaths r /\
  (status r <> pending -> status r' <> pending) /\
  (exists added, history r' = (history r ++ added)%list).

(** The collection keeps its requests, each one evolving, and may gain new
    ones at the end. *)
Definition advances (rs rs' : list Request) : Prop :=
  exists front added, rs' = (front ++ added)%list /\ Forall2 evolves rs front.

(** Every operation that a program awaits makes the requests advance. *)
Fixpoint respects {A} (p : Prog A) : Prop :=
  match p with
  | Op f k =>
      forall db, advances (requests db) (requests (f db)) /\ respects (k (f db))
  | _ => True
  end.

(** Every stored request is consistent. *)
Definition allConsistent (db : DB) : Prop :=
  forallb Lifecycle.consistent (requests db) = true.

(** As long as [Inv] holds of the database, the operations of the program
    keep it, and what the program comes to satisfies [Q]. *)
Fixpoint yields {A} (Inv : DB -> Prop) (Q : A -> Prop) (p : Prog A) : Prop :=
  match p with
  | Ret a => Q a
  | Op f k => forall db, Inv db -> Inv (f db) /\ yields Inv Q (k (f db))
  | _ => True
  end.

(** As long as [P] holds of the database, which the operations of the
    program keep, the program does not answer 200. *)
Fixpoint refusing (P : DB -> Prop) (p : Prog Empty_set) : Prop :=
  match p with
  | Answer r => statusCode r <> 200
  | Op f k => forall db, P db -> P (f db) /\ refusing P (k (f db))
  | _ => True
  end.

End Concurrent.

(* ================================================================== *)
(** ** Distances on the client: the map and the location service *)

Module Geo.
Import Tracking.

Local Open Scope R_scope.

(** [{ lat, lng }] *)
Record LatLng : Type := mkLatLng {
  lat : R;
  lng : R
}.

(** map-service.js, [_haversineDistance(p1, p2)]: kilometres. *)
Definition _haversineDistance (p1 p2 : LatLng) : R :=
  let R0 := 6371 in
  let dLat := (lat p2 - lat p1) * PI / 180 in
  let dLon := (lng p2 - lng p1) * PI / 180 in
  let a := sin (dLat / 2) * sin (dLat / 2) +
           cos (lat p1 * PI / 180) * cos (lat p2 * PI / 180) *
           sin (dLon / 2) * sin (dLon / 2) in
  let c := 2 * atan2 (sqrt a) (sqrt (1 - a)) in
  R0 * c.

(** location-service.js, [deg2rad(deg)] *)
Definition deg2rad (deg : R) : R := deg * (PI / 180).

(** location-service.js, [calculateDistanceInKm(origin, destination)] *)
Definition calculateDistanceInKm (origin destination : LatLng) : R :=
  let R0 := 6371 in
  let dLat := deg2rad (lat destination - lat origin) in
  let dLng := deg2rad (lng destination - lng origin) in
  let a := sin (dLat / 2) * sin (dLat / 2) +
           cos (deg2rad (lat origin)) * cos (deg2rad (lat destination)) *
           sin (dLng / 2) * sin (dLng / 2) in
  let c := 2 * atan2 (sqrt a) (sqrt (1 - a)) in
  let distance := R0 * c in
  distance.

(** The reference the haversine formula is compared with: the cosine of the
    central angle between two points by the spherical law of cosines, and
    the length of the great-circle arc on a sphere of 6371000 metres. *)
Definition cosCentralAngle (lat1 lon1 lat2 lon2 : R) : R :=
  sin (lat1 * PI / 180) * sin (lat2 * PI / 180) +
  cos (lat1 * PI / 180) * cos (lat2 * PI / 180) * cos ((lon2 - lon1) * PI / 180).

Definition greatCircleDistance (lat1 lon1 lat2 lon2 : R) : R :=
  6371000 * acos (cosCentralAngle lat1 lon1 lat2 lon2).

(** The readings of the geolocation API, handled one after the other. *)
Fixpoint feed (socketProvider : bool) (this : Service) (readings : list Position)
  : Service * list Effect :=
  match readings with
  | [] => (this, [])
  | position :: rest =>
      let (this1, effects1) := _handlePositionUpdate socketProvider this position in
      let (this2, effects2) := feed socketProvider this1 rest in
      (this2, (effects1 ++ effects2)%list)
  end.

(** The reading the listeners were given last, if any. *)
Fixpoint lastNotified (effects : list Effect) : option Position :=
  match effects with
  | [] => None
  | NotifyListeners p :: rest =>
      match lastNotified rest with
      | Some q => Some q
      | None => Some p
      end
  | _ :: rest => lastNotified rest
  end.

End Geo.

(* ================================================================== *)
(** ** SocketService (browser side): the connection and the message queue

    The registry of listeners is left out; a timer event may be given at any
    time, also when no timer is pending. *)

Module SocketService.

Section Service.

(** The payload of a message and its acknowledgement callback. *)
Context {Data : Type} {Callback : Type}.

Record Message : Type := mkMessage {
  event : string;
  data : Data;
  callback : option Callback
}.

(** Whether [socket.emit] throws on a message, and whether
    [window.errorHandler] is defined. *)
Variable emitThrows : Message -> bool.
Variable hasErrorHandler : bool.

Record State : Type := mkState {
  socket : bool;                      (* [this.socket] is not null *)
  connected : bool;
  reconnecting : bool;
  reconnectAttempts : Z;
  currentReconnectDelay : Q;
  reconnectTimerId : bool;            (* [this.reconnectTimerId] is not null *)
  pendingMessages : list Message;
  connectionErrorShown : bool
}.

Definition maxReconnectAttempts : Z := 10.
Definition initialReconnectDelay : Q := 1000.
Definition maxReconnectDelay : Q := 30000.

Definition constructor : State :=
  mkState false false false 0 initialReconnectDelay false [] false.

Inductive Output : Type :=
| Emit (m : Message)                       (* [socket.emit] *)
| NotifyError (title message : string)     (* [this.notifyError] *)
| SetReconnectTimer (delay : Q)            (* [setTimeout], to [connect] *)
| ClearReconnectTimer                      (* [clearTimeout] *)
| CloseSocket                              (* [socket.disconnect()] *)
| AuthErrorHandled (message : string)      (* [errorHandler.handleAuthError] *)
| ScheduleLogout (delay : Z).              (* [setTimeout], to the logout *)

(** [Math.min(a, b)] *)
Definition min (a b : Q) : Q := if Qle_bool a b then a else b.

(** [Math.random() * 0.3 + 0.85] *)
Definition jitterOf (u : Q) : Q := (u * (3 # 10) + (85 # 100))%Q.

Definition scheduleReconnect (u : Q) (this : State) : State * list Output :=
  if reconnecting this then (this, [])
  else
    let attempts := reconnectAttempts this + 1 in
    if maxReconnectAttempts <? attempts then
      (mkState (socket this) (connected this) true attempts
         (currentReconnectDelay this) (reconnectTimerId this)
         (pendingMessages this) (connectionErrorShown this),
       [NotifyError "Connection Failed"
          "Failed to reconnect to the server after 10 attempts. Please refresh the page."])
    else
      let delay :=
        min (currentReconnectDelay this * (3 # 2) * jitterOf u)%Q maxReconnectDelay in
      (mkState (socket this) (connected this) true attempts delay true
         (pendingMessages this) (connectionErrorShown this),
       [SetReconnectTimer delay]).

Definition emitWithErrorHandling (m : Message) (this : State)
  : bool * State * list Output :=
  if negb (socket this) || negb (connected this) then
    (false,
     mkState (socket this) (connected this) (reconnecting this)
       (reconnectAttempts this) (currentReconnectDelay this)
       (reconnectTimerId this) (pendingMessages this ++ [m])
       (connectionErrorShown this),
     [])
  else if emitThrows m then (false, this, [])
  else (true, this, [Emit m]).

(** [messagesToSend.forEach(msg => this.emitWithErrorHandling(...))] *)
Fixpoint emitAll (ms : list Message) (this : State) : State * list Output :=
  match ms with
  | [] => (this, [])
  | m :: rest =>
      let '(_, this1, out1) := emitWithErrorHandling m this in
      let (this2, out2) := emitAll rest this1 in
      (this2, (out1 ++ out2)%list)
  end.

Definition sendPendingMessages (this : State) : State * list Output :=
  match pendingMessages this with
  | [] => (this, [])
  | messagesToSend =>
      emitAll messagesToSend
        (mkState (socket this) (connected this) (reconnecting this)
           (reconnectAttempts this) (currentReconnectDelay this)
           (reconnectTimerId this) [] (connectionErrorShown this))
  end.

Definition handleSuccessfulConnection (this : State) : State * list Output :=
  sendPendingMessages
    (mkState (socket this) true false 0 initialReconnectDelay
       (reconnectTimerId this) (pendingMessages this) false).

Definition intentionalDisconnects : list string :=
  ["io client disconnect"; "io server disconnect"].

Definition handleDisconnection (reason : string) (u : Q) (this : State)
  : State * list Output :=
  let this1 :=
    mkState (socket this) false (reconnecting this) (reconnectAttempts this)
      (currentReconnectDelay this) (reconnectTimerId this)
      (pendingMessages this) (connectionErrorShown this) in
  if existsb (String.eqb reason) intentionalDisconnects then (this1, [])
  else scheduleReconnect u this1.

Definition handleConnectionError (u : Q) (this : State) : State * list Output :=
  let shown := connectionErrorShown this in
  let this1 :=
    mkState (socket this) false (reconnecting this) (reconnectAttempts this)
      (currentReconnectDelay this) (reconnectTimerId this)
      (pendingMessages this) true in
  let out1 :=
    if shown then []
    else [NotifyError "Connection Error"
            "Could not connect to real-time service. Some features may be limited."] in
  let (this2, out2) := scheduleReconnect u this1 in
  (this2, (out1 ++ out2)%list).

Definition handleAuthError (this : State) : State * list Output :=
  let out1 :=
    if hasErrorHandler
    then [AuthErrorHandled "Your session has expired or is invalid"]
    else [NotifyError "Authentication Error" "Please log in again"; ScheduleLogout 2000] in
  if reconnectTimerId this then
    (mkState (socket this) (connected this) (reconnecting this)
       (reconnectAttempts this) (currentReconnectDelay this) false
       (pendingMessages this) (connectionErrorShown this),
     (out1 ++ [ClearReconnectTimer])%list)
  else (this, out1).

(** [connect()]; [ioThrows] tells whether creating the socket throws. *)
Definition connect (ioThrows : bool) (u : Q) (this : State) : State * list Output :=
  let out1 := if reconnectTimerId this then [ClearReconnectTimer] else [] in
  let this1 :=
    mkState (socket this) (connected this) (reconnecting this)
      (reconnectAttempts this) (currentReconnectDelay this) false
      (pendingMessages this) (connectionErrorShown this) in
  if ioThrows then
    let (this2, out2) := handleConnectionError u this1 in
    (this2, (out1 ++ out2)%list)
  else
    (mkState true (connected this1) (reconnecting this1)
       (reconnectAttempts this1) (currentReconnectDelay this1) false
       (pendingMessages this1) (connectionErrorShown this1),
     out1).

Definition disconnect (this : State) : State * list Output :=
  ((mkState false false (reconnecting this) (reconnectAttempts this)
      (currentReconnectDelay this) false (pendingMessages this)
      (connectionErrorShown this)),
   ((if socket this then [CloseSocket] else [])
    ++ (if reconnectTimerId this then [ClearReconnectTimer] else []))%list).

(** What happens to the service: the events of the socket, the reconnection
    timer, and the calls of the application. *)
Inductive Event : Type :=
| OnConnect
| OnDisconnect (reason : string) (u : Q)
| OnConnectError (u : Q)
| OnError (isAuth : bool) (message : string)
| TimerFires (ioThrows : bool) (u : Q)
| CallConnect (ioThrows : bool) (u : Q)
| CallDisconnect
| CallEmit (m : Message).

Definition step (this : State) (e : Event) : State * list Output :=
  match e with
  | OnConnect => handleSuccessfulConnection this
  | OnDisconnect reason u => handleDisconnection reason u this
  | OnConnectError u => handleConnectionError u this
  | OnError true _ => handleAuthError this
  | OnError false message => (this, [NotifyError "Connection Error" message])
  | TimerFires ioThrows u =>
      connect ioThrows u
        (mkState (socket this) (connected this) (reconnecting this)
           (reconnectAttempts this) (currentReconnectDelay this) false
           (pendingMessages this) (connectionErrorShown this))
  | CallConnect ioThrows u => connect ioThrows u this
  | CallDisconnect => disconnect this
  | CallEmit m => let '(_, this1, out) := emitWithErrorHandling m this in (this1, out)
  end.

Fixpoint run (this : State) (es : list Event) : State * list Output :=
  match es with
  | [] => (this, [])
  | e :: rest =>
      let (this1, out1) := step this e in
      let (this2, out2) := run this1 rest in
      (this2, (out1 ++ out2)%list)
  end.

(** The messages given to [socket.emit], in order, and the number of
    reconnection timers set. *)
Fixpoint emitted (out : list Output) : list Message :=
  match out with
  | [] => []
  | Emit m :: rest => m :: emitted rest
  | _ :: rest => emitted rest
  end.

Fixpoint timersSet (out : list Output) : nat :=
  match out with
  | [] => 0%nat
  | SetReconnectTimer _ :: rest => S (timersSet rest)
  | _ :: rest => timersSet rest
  end.

Fixpoint connections (es : list Event) : nat :=
  match es with
  | [] => 0%nat
  | OnConnect :: rest => S (connections rest)
  | _ :: rest => connections rest
  end.

(** Whether the service announced that it gives up reconnecting. *)
Definition gaveUp (out : list Output) : bool :=
  existsb (fun o => match o with
                    | NotifyError title _ => String.eqb title "Connection Failed"
                    | _ => false
                    end) out.

(** The flag and the counter of reconnection go together. *)
Definition coupled (this : State) : Prop :=
  reconnectAttempts this = if reconnecting this then 1 else 0.

(** The reconnection timers a state can still set before the next
    connection. *)
Definition budget (this : State) : nat :=
  if reconnecting this then 0%nat else 1%nat.

End Service.

End SocketService.

(* ================================================================== *)
(** ** EventService (browser side): the event stream and its reconnection

    The registry of listeners and the ping are left out. *)

Module EventService.

Section Service.

(** Whether [window.errorHandler] is defined. *)
Variable hasErrorHandler : bool.

Record State : Type := mkState {
  eventSource : bool;                 (* [this.eventSource] is not null *)
  currentReconnectTimeout : Q;
  reconnectAttempts : Z;
  isConnected : bool;
  connectionErrorShown : bool
}.

Definition reconnectTimeout : Q := 5000.
Definition maxReconnectTimeout : Q := 60000.
Definition maxReconnectAttempts : Z := 10.

Definition constructor : State :=
  mkState false reconnectTimeout 0 false false.

Inductive Output : Type :=
| Open                                     (* [new EventSource(url)] *)
| Close                                    (* [eventSource.close()] *)
| ShowAlert (title message kind : string)  (* [errorHandler.showAlert] *)
| SetTimeout (delay : Q).                  (* [setTimeout], to [connect] *)

Definition showAlert (title message kind : string) : list Output :=
  if hasErrorHandler then [ShowAlert title message kind] else [].

Definition scheduleReconnect (u : Q) (this : State) : State * list Output :=
  let attempts := reconnectAttempts this + 1 in
  if negb (maxReconnectAttempts =? 0) && (maxReconnectAttempts <? attempts) then
    (mkState (eventSource this) (currentReconnectTimeout this) attempts
       (isConnected this) (connectionErrorShown this),
     showAlert "Connection Failed"
       "Failed to establish connection after multiple attempts. Please refresh the page."
       "error")
  else
    let delay :=
      SocketService.min
        (currentReconnectTimeout this * (3 # 2) * SocketService.jitterOf u)%Q
        maxReconnectTimeout in
    (mkState (eventSource this) delay attempts
       (isConnected this) (connectionErrorShown this),
     [SetTimeout delay]).

Definition disconnect (this : State) : State * list Output :=
  if eventSource this then
    (mkState false (currentReconnectTimeout this) (reconnectAttempts this)
       false (connectionErrorShown this),
     [Close])
  else (this, []).

(** [connect()]; [throws] tells whether building the event source throws. *)
Definition connect (throws : bool) (u : Q) (this : State) : State * list Output :=
  let (this1, out1) := disconnect this in
  if throws then
    let shown := connectionErrorShown this1 in
    let this2 :=
      mkState (eventSource this1) (currentReconnectTimeout this1)
        (reconnectAttempts this1) false true in
    let out2 :=
      if shown then []
      else showAlert "Connection Error"
             "Failed to establish real-time connection. Some features may be limited. Retrying..."
             "warning" in
    let (this3, out3) := scheduleReconnect u this2 in
    (this3, (out1 ++ out2 ++ out3)%list)
  else
    (mkState true (currentReconnectTimeout this1) (reconnectAttempts this1)
       (isConnected this1) (connectionErrorShown this1),
     (out1 ++ [Open])%list).

(** [eventSource.onopen] *)
Definition onopen (this : State) : State * list Output :=
  (mkState (eventSource this) reconnectTimeout 0 true false, []).

Definition handleConnectionError (u : Q) (this : State) : State * list Output :=
  let out1 := if eventSource this then [Close] else [] in
  let this1 :=
    mkState (eventSource this) (currentReconnectTimeout this)
      (reconnectAttempts this) false (connectionErrorShown this) in
  let (this2, out2) := scheduleReconnect u this1 in
  let out3 :=
    if connectionErrorShown this2 then []
    else showAlert "Connection Error"
           "Lost connection to the server. Attempting to reconnect..."
           "warning" in
  (mkState (eventSource this2) (currentReconnectTimeout this2)
     (reconnectAttempts this2) (isConnected this2) true,
   (out1 ++ out2 ++ out3)%list).

Definition reconnect (throws : bool) (u : Q) (this : State) : State * list Output :=
  let (this1, out1) := disconnect this in
  let (this2, out2) := connect throws u this1 in
  (this2, (out1 ++ out2)%list).

(** What happens to the service: the events of the stream, and the calls of
    [connect] (by [init], by a reconnection timer or by the application),
    [disconnect] and [reconnect]. *)
Inductive Event : Type :=
| OnOpen
| OnError (u : Q)
| OnConnected (parses : bool)
| CallConnect (throws : bool) (u : Q)
| CallDisconnect
| CallReconnect (throws : bool) (u : Q).

Definition step (this : State) (e : Event) : State * list Output :=
  match e with
  | OnOpen => onopen this
  | OnError u => handleConnectionError u this
  | OnConnected parses =>
      if parses then
        (mkState (eventSource this) (currentReconnectTimeout this)
           (reconnectAttempts this) (isConnected this) false, [])
      else (this, [])
  | CallConnect throws u => connect throws u this
  | CallDisconnect => disconnect this
  | CallReconnect throws u => reconnect throws u this
  end.

Fixpoint run (this : State) (es : list Event) : State * list Output :=
  match es with
  | [] => (this, [])
  | e :: rest =>
      let (this1, out1) := step this e in
      let (this2, out2) := run this1 rest in
      (this2, (out1 ++ out2)%list)
  end.

(** The delays of the timers set, in order. *)
Fixpoint delays (out : list Output) : list Q :=
  match out with
  | [] => []
  | SetTimeout d :: rest => d :: delays rest
  | _ :: rest => delays rest
  end.

Fixpoint opens (es : list Event) : nat :=
  match es with
  | [] => 0%nat
  | OnOpen :: rest => S (opens rest)
  | _ :: rest => opens rest
  end.

(** The value of [Math.random()] an event carries, if any. *)
Definition randomOf (e : Event) : option Q :=
  match e with
  | OnError u | CallConnect _ u | CallReconnect _ u => Some u
  | _ => None
  end.

Definition validRandom (e : Event) : Prop :=
  match randomOf e with
  | Some u => (0 <= u)%Q /\ (u < 1)%Q
  | None => True
  end.

(** The timers the service can still set before the next [onopen]. *)
Definition budget (this : State) : nat :=
  Z.to_nat (maxReconnectAttempts - reconnectAttempts this).

(** The timeout of a state lies between the initial and the greatest one;
    the delay of a timer is at least 1.5 * 0.85 times the initial one. *)
Definition bounded (this : State) : Prop :=
  (reconnectTimeout <= currentReconnectTimeout this)%Q /\
  (currentReconnectTimeout this <= maxReconnectTimeout)%Q.

Definition delayOk (d : Q) : Prop :=
  (6375 <= d)%Q /\ (d <= maxReconnectTimeout)%Q.

End Service.

End EventService.

(* ================================================================== *)
(** * Properties *)

Import Model Controller.

(** ** Decidable equalities of the enums *)

Lemma Status_eqb_eq a b : Status_eqb a b = true <-> a = b.
Proof. destruct a, b; simpl; split; congruence. Qed.

Lemma Status_eqb_refl a : Status_eqb a a = true.
Proof. now destruct a. Qed.

Lemma Status_eqb_neq a b : Status_eqb a b = false <-> a <> b.
Proof. destruct a, b; simpl; split; congruence. Qed.

Lemma UserStatus_eqb_eq a b : UserStatus_eqb a b = true <-> a = b.
Proof. destruct a, b; simpl; split; congruence. Qed.

Lemma UserStatus_eqb_neq a b : UserStatus_eqb a b = false <-> a <> b.
Proof. destruct a, b; simpl; split; congruence. Qed.

Lemma Role_eqb_eq a b : Role_eqb a b = true <-> a = b.
Proof. destruct a, b; simpl; split; congruence. Qed.

(** ** The expiry sweeps *)

Section Sweep.

Variable now : Z.

Lemma sweepFilter_spec r :
  sweepFilter now r = true <-> expirationTime r < now /\ status r <> expired.
Proof.
  unfold sweepFilter. rewrite andb_true_iff, Z.ltb_lt, negb_true_iff, Status_eqb_neq.
  reflexivity.
Qed.

Lemma markExpired_status r : status (markExpired now r) = expired.
Proof. reflexivity. Qed.

Lemma markExpired_id r : _id (markExpired now r) = _id r.
Proof. reflexivity. Qed.

Lemma sweepFilter_markExpired r : sweepFilter now (markExpired now r) = false.
Proof. unfold sweepFilter. simpl. apply andb_false_r. Qed.

Lemma swept_id r : _id (swept now r) = _id r.
Proof. unfold swept. now destruct (sweepFilter now r). Qed.

Lemma swept_stale r : expirationTime r < now -> status (swept now r) = expired.
Proof.
  intros Hlt. unfold swept.
  destruct (sweepFilter now r) eqn:E; [reflexivity|].
  destruct (Status_eqb (status r) expired) eqn:S.
  - now apply Status_eqb_eq.
  - exfalso. apply Status_eqb_neq in S.
    assert (sweepFilter now r = true) by (apply sweepFilter_spec; auto).
    congruence.
Qed.

Lemma swept_fresh r : now <= expirationTime r -> swept now r = r.
Proof.
  intros Hle. unfold swept.
  destruct (sweepFilter now r) eqn:E; [|reflexivity].
  apply sweepFilter_spec in E. lia.
Qed.

Lemma swept_expirationTime r : expirationTime (swept now r) = expirationTime r.
Proof. unfold swept. now destruct (sweepFilter now r). Qed.

Lemma swept_swept r : swept now (swept now r) = swept now r.
Proof.
  unfold swept. destruct (sweepFilter now r) eqn:E.
  - now rewrite sweepFilter_markExpired.
  - now rewrite E.
Qed.

Lemma sweepExpired_map rs : sweepExpired now rs = map (swept now) rs.
Proof. reflexivity. Qed.

Lemma lookupRequest_sweepExpired id0 rs :
  lookupRequest id0 (sweepExpired now rs) = option_map (swept now) (lookupRequest id0 rs).
Proof.
  induction rs as [|r rs IH]; simpl; [reflexivity|].
  rewrite swept_id.
  destruct (N.eqb (_id r) id0); [reflexivity|exact IH].
Qed.

(** [updateOne] touches at most the first matching document: a looked-up
    document is either as it was or marked expired. *)
Lemma lookupRequest_sweepOne id0 rs r :
  lookupRequest id0 rs = Some r ->
  lookupRequest id0 (sweepOne now rs) = Some r \/
  lookupRequest id0 (sweepOne now rs) = Some (markExpired now r).
Proof.
  induction rs as [|x rs IH]; [discriminate|].
  unfold lookupRequest in *. cbn [sweepOne find].
  destruct (sweepFilter now x) eqn:F; cbn [find].
  - rewrite markExpired_id.
    destruct (N.eqb (_id x) id0) eqn:E.
    + intros H; inversion H; subst. now right.
    + intros H. now left.
  - destruct (N.eqb (_id x) id0) eqn:E.
    + intros H. now left.
    + exact IH.
Qed.

Lemma lookupRequest_sweepOne_None id0 rs :
  lookupRequest id0 rs = None -> lookupRequest id0 (sweepOne now rs) = None.
Proof.
  induction rs as [|x rs IH]; [reflexivity|].
  unfold lookupRequest in *. cbn [sweepOne find].
  destruct (sweepFilter now x) eqn:F; cbn [find];
    rewrite ?markExpired_id;
    destruct (N.eqb (_id x) id0) eqn:E; try discriminate; auto.
Qed.

End Sweep.

Lemma map_swept_twice (now : Z) (rs : list Request) :
  map (swept now) (map (swept now) rs) = map (swept now) rs.
Proof.
  rewrite map_map. apply map_ext. intros r. apply swept_swept.
Qed.

(** C8. The expiry sweep of the listing reads ([pre('find')], an
    [updateMany]) is idempotent: run twice in a row at the same instant it
    leaves exactly the collection that one run leaves; and after it every
    request with [expirationTime < now], the non-terminal ones among them,
    has status 'expired'. *)
Theorem sweepExpired_idempotent (now : Z) (rs : list Request) :
  sweepExpired now (sweepExpired now rs) = sweepExpired now rs /\
  forallb (fun r => negb (expirationTime r <? now) || Status_eqb (status r) expired)
    (sweepExpired now rs) = true.
Proof.
  split.
  - rewrite !sweepExpired_map. apply map_swept_twice.
  - apply forallb_forall. intros x Hx.
    apply in_map_iff in Hx. destruct Hx as [r [<- _]].
    destruct (expirationTime (swept now r) <? now) eqn:E; [|reflexivity].
    apply Z.ltb_lt in E. rewrite swept_expirationTime in E.
    cbn [negb orb]. apply Status_eqb_eq. now apply swept_stale.
Qed.

(** Two listing reads in a row see the same documents and leave the same
    database as one. *)
Lemma find_twice (now : Z) (filter : Request -> bool) (db : DB) :
  ServiceRequest_find now filter (snd (ServiceRequest_find now filter db))
  = ServiceRequest_find now filter db.
Proof.
  unfold ServiceRequest_find. cbn [snd requests users].
  rewrite !sweepExpired_map. now rewrite map_swept_twice.
Qed.

(** The sweep of the fetches ([pre('findOne')], an [updateOne]) is not: each
    run expires one more stale request. *)
Lemma sweepOne_not_idempotent :
  sweepOne 2000000 (sweepOne 2000000 [Scenario.pendingTap; Scenario.secondTap])
  <> sweepOne 2000000 [Scenario.pendingTap; Scenario.secondTap].
Proof. vm_compute. discriminate. Qed.

(** ** Reads and the sweep (C2) *)

Lemma scenario_states :
  requests Scenario.dbCreated = [Scenario.pendingTap] /\
  requests Scenario.dbCompleted = [Scenario.completedTap].
Proof. vm_compute. split; reflexivity. Qed.

(** C2 fails on the code: the filter of the sweep excludes only the status
    'expired', so a completed request whose [expirationTime] has passed is
    rewritten to 'expired' by the next read.  Alice's request was created,
    accepted and completed; its [expirationTime] is 2700000.  Her history
    read at 3000000 finds it 'expired'. *)
Theorem sweep_overwrites_completed :
  map status (requests Scenario.dbCompleted) = [completed] /\
  map expirationTime (requests Scenario.dbCompleted) = [2700000] /\
  fst (runHandler (getRequestHistory 3000000 Scenario.asAlice) Scenario.dbCompleted)
  = mkResponse 200 (Documents [markExpired 3000000 Scenario.completedTap]) /\
  map status
    (requests (snd (runHandler (getRequestHistory 3000000 Scenario.asAlice)
                      Scenario.dbCompleted)))
  = [expired].
Proof. vm_compute. repeat split. Qed.

(** X27. What does hold of the listing reads (a [find], whose hook sweeps with
    [updateMany]): a stored request whose [expirationTime] is earlier than
    the current time is left stored with status 'expired' and, if the query
    selects it, returned so; every document returned with
    [expirationTime < now] has status 'expired'; and a request whose
    [expirationTime] is not earlier than now is left as it was. *)
Lemma listing_read_observes_expired
    (now : Z) (filter : Request -> bool) (db : DB) (r : Request) :
  In r (requests db) ->
  expirationTime r < now ->
  let db' := snd (ServiceRequest_find now filter db) in
  let found := List.filter filter (sweepExpired now (requests db)) in
  fst (ServiceRequest_find now filter db) = Next found /\
  status (swept now r) = expired /\
  _id (swept now r) = _id r /\
  In (swept now r) (requests db') /\
  (filter (swept now r) = true -> In (swept now r) found) /\
  (forall x, In x found -> expirationTime x < now -> status x = expired) /\
  (forall x, In x (requests db) -> now <= expirationTime x -> In x (requests db')).
Proof.
  intros Hin Hlt. cbn. repeat split.
  - now apply swept_stale.
  - apply swept_id.
  - now apply in_map.
  - intros Hf. apply filter_In. split; [now apply in_map|assumption].
  - intros x Hx Hxlt. apply filter_In in Hx. destruct Hx as [Hx _].
    apply in_map_iff in Hx. destruct Hx as [y [<- Hy]].
    rewrite swept_expirationTime in Hxlt. now apply swept_stale.
  - intros x Hx Hle. apply in_map_iff. exists x. split; [|assumption].
    now apply swept_fresh.
Qed.

(** A fetch by id sweeps with [updateOne], which expires only the first
    stale request of the collection: the second one is read as pending after
    its window has ended, and can still be accepted. *)
Lemma fetch_reads_stale_request_as_pending :
  expirationTime Scenario.secondTap < 2000000 /\
  fst (ServiceRequest_findById 2000000 101%N
         (mkDB [Scenario.pendingTap; Scenario.secondTap] Scenario.people))
  = Next (Some Scenario.secondTap) /\
  statusCode
    (fst (runHandler (acceptRequest 2000000 (1 # 2) Scenario.asPat 101%N)
            (mkDB [Scenario.pendingTap; Scenario.secondTap] Scenario.people)))
  = 200.
Proof. vm_compute. repeat split. Qed.

(** ** Handlers *)

Ltac run_handler :=
  unfold runHandler, acceptRequest, completeRequest, cancelRequest, getRequestPin,
    bind, returnIf, deref, ret, respond, throw, User_findById, User_save,
    ServiceRequest_findById, ServiceRequest_save;
  cbn [fst snd users requests].

Lemma lookupRequest_Some id0 rs r :
  lookupRequest id0 rs = Some r -> In r rs /\ _id r = id0.
Proof.
  intros H. apply find_some in H. destruct H as [Hin He].
  split; [assumption|]. now apply N.eqb_eq.
Qed.

Lemma lookupRequest_replace id0 rs r doc :
  lookupRequest id0 rs = Some r -> _id doc = id0 ->
  lookupRequest id0 (replaceRequest doc rs) = Some doc.
Proof.
  intros H Hid. subst id0. unfold lookupRequest, replaceRequest in *.
  induction rs as [|x rs IH]; [discriminate|].
  cbn [map find] in *.
  destruct (N.eqb (_id x) (_id doc)) eqn:E.
  - rewrite N.eqb_refl. reflexivity.
  - rewrite E. now apply IH.
Qed.

Lemma lookupUser_replace id0 us v doc :
  lookupUser id0 us = Some v -> u_id doc = id0 ->
  lookupUser id0 (replaceUser doc us) = Some doc.
Proof.
  intros H Hid. subst id0. unfold lookupUser, replaceUser in *.
  induction us as [|x us IH]; [discriminate|].
  cbn [map find] in *.
  destruct (N.eqb (u_id x) (u_id doc)) eqn:E.
  - rewrite N.eqb_refl. reflexivity.
  - rewrite E. now apply IH.
Qed.

Lemma lookupUser_Some id0 us v :
  lookupUser id0 us = Some v -> u_id v = id0.
Proof.
  intros H. apply find_some in H. now apply N.eqb_eq.
Qed.

(** The fields a save leaves alone, and the one it always rewrites. *)
Lemma preSave_history_fields now m doc :
  let d := preSave_history now m doc in
  _id d = _id doc /\ status d = status doc /\ provider d = provider doc /\
  generatedPin d = generatedPin doc /\ pinGeneratedAt d = pinGeneratedAt doc /\
  expirationTime d = expirationTime doc /\ duration d = duration doc.
Proof.
  unfold preSave_history. destruct m; [|cbn; repeat split].
  destruct (Status_eqb (status doc) in_progress) eqn:E1; cbn [status set_history];
    destruct (Status_eqb (status doc) completed) eqn:E2; cbn; repeat split.
Qed.

Lemma saveLoaded_expirationTime now loaded doc :
  expirationTime (saveLoaded now loaded doc) = now + duration doc * 60 * 1000.
Proof.
  unfold saveLoaded. cbn [expirationTime set_updatedAt].
  now rewrite (proj1 (proj2 (proj2 (proj2 (proj2 (proj2
    (preSave_history_fields now _ (preSave_expiration now doc)))))))).
Qed.

(** ** The verification code *)

Lemma floor_spec (x : Q) (p : Z) :
  Js.floor x = p <-> (inject_Z p <= x < inject_Z (p + 1))%Q.
Proof.
  unfold Js.floor. split.
  - intros <-. split; [apply Qfloor_le | apply Qlt_floor].
  - intros [Hlo Hhi].
    assert (p <= Qfloor x).
    { rewrite <- (Qfloor_Z p). now apply Qfloor_resp_le. }
    assert (Qfloor x < p + 1).
    { rewrite Zlt_Qlt. eapply Qle_lt_trans; [apply Qfloor_le | exact Hhi]. }
    lia.
Qed.

(** *** Rounding to the nearest double *)

Module DoubleFacts.
Import Js.

Lemma pow2_pos e : (0 < pow2 e)%Q.
Proof. apply Qpower_0_lt. reflexivity. Qed.

Lemma pow2_le a b : a <= b -> (pow2 a <= pow2 b)%Q.
Proof. intros H. apply Qpower_le_compat_l; [exact H|discriminate]. Qed.

Lemma pow2_lt_inv a b : (pow2 a < pow2 b)%Q -> a < b.
Proof. intros H. eapply Qpower_lt_compat_l_inv; [exact H|reflexivity]. Qed.

Lemma pow2_plus a b : (pow2 (a + b) == pow2 a * pow2 b)%Q.
Proof. apply Qpower_plus. discriminate. Qed.

Lemma pow2_Z n : 0 <= n -> (pow2 n == inject_Z (2 ^ n))%Q.
Proof. intros H. unfold pow2. now rewrite Zpower_Qpower. Qed.

(** [pow2 a / pow2 b] is an integer when [b <= a]. *)
Lemma pow2_div a b : b <= a -> (pow2 a / pow2 b == inject_Z (2 ^ (a - b)))%Q.
Proof.
  intros H. rewrite <- pow2_Z by lia.
  replace a with ((a - b) + b) at 1 by lia. rewrite pow2_plus.
  field. intros E. pose proof (pow2_pos b) as P. rewrite E in P. discriminate.
Qed.

Lemma exponent_spec x :
  (0 < x)%Q -> (pow2 (exponent x) <= x)%Q /\ (x < pow2 (exponent x + 1))%Q.
Proof.
  intros Hx. destruct x as [a b]. unfold exponent. cbn [Qnum Qden].
  assert (Ha : 0 < a) by (unfold Qlt in Hx; cbn in Hx; lia).
  set (la := Z.log2 a). set (lb := Z.log2 (Zpos b)).
  destruct (Z.log2_spec a Ha) as [A1 A2]. fold la in A1, A2.
  destruct (Z.log2_spec (Zpos b) eq_refl) as [B1 B2]. fold lb in B1, B2.
  assert (Hla : 0 <= la) by apply Z.log2_nonneg.
  assert (Hlb : 0 <= lb) by apply Z.log2_nonneg.
  rewrite Zle_Qle, <- pow2_Z in A1, B1 by lia.
  rewrite Zlt_Qlt, <- pow2_Z in A2, B2 by lia.
  assert (Hb : (0 < inject_Z (Zpos b))%Q) by reflexivity.
  assert (E : (a # b == inject_Z a / inject_Z (Zpos b))%Q) by apply Qmake_Qdiv.
  (* the two outer bounds *)
  assert (Up : (a # b < pow2 (la - lb + 1))%Q).
  { rewrite E. apply Qlt_shift_div_r; [exact Hb|].
    eapply Qlt_le_trans; [exact A2|].
    replace (Z.succ la) with ((la - lb + 1) + lb) by lia. rewrite pow2_plus.
    apply Qmult_le_l; [apply pow2_pos|exact B1]. }
  assert (Lo : (pow2 (la - lb - 1) <= a # b)%Q).
  { rewrite E. apply Qle_shift_div_l; [exact Hb|].
    eapply Qle_trans; [|exact A1].
    replace la with ((la - lb - 1) + Z.succ lb) at 2 by lia. rewrite pow2_plus.
    apply Qmult_le_l; [apply pow2_pos|]. apply Qlt_le_weak. exact B2. }
  destruct (Qle_bool (pow2 (la - lb)) (a # b)) eqn:T.
  - apply Qle_bool_iff in T. split; assumption.
  - assert (T' : (a # b < pow2 (la - lb))%Q).
    { apply Qnot_le_lt. intros H. apply Qle_bool_iff in H. congruence. }
    replace (la - lb - 1 + 1) with (la - lb) by lia. split; assumption.
Qed.

Lemma exponent_le x y : (0 < x)%Q -> (x <= y)%Q -> exponent x <= exponent y.
Proof.
  intros Hx Hxy.
  assert (Hy : (0 < y)%Q) by (eapply Qlt_le_trans; eassumption).
  destruct (exponent_spec x Hx) as [X1 _]. destruct (exponent_spec y Hy) as [_ Y2].
  assert (H : (pow2 (exponent x) < pow2 (exponent y + 1))%Q).
  { eapply Qle_lt_trans; [exact X1|]. eapply Qle_lt_trans; eassumption. }
  apply pow2_lt_inv in H. lia.
Qed.

Lemma nearestEven_Z n : nearestEven (inject_Z n) = n.
Proof.
  unfold nearestEven. rewrite Qfloor_Z.
  destruct (Qcompare (inject_Z n - inject_Z n) (1 # 2)) eqn:C; [| reflexivity |];
    exfalso; [apply Qeq_alt in C|apply Qgt_alt in C]; Lqa.lra.
Qed.

Lemma nearestEven_bounds x : Qfloor x <= nearestEven x <= Qfloor x + 1.
Proof.
  unfold nearestEven. destruct (Qcompare _ _); [destruct (Z.even _)| |]; lia.
Qed.

Lemma nearestEven_le x y : (x <= y)%Q -> nearestEven x <= nearestEven y.
Proof.
  intros H. pose proof (Qfloor_resp_le x y H) as F.
  pose proof (nearestEven_bounds x) as Bx. pose proof (nearestEven_bounds y) as By.
  destruct (Z.eq_dec (Qfloor x) (Qfloor y)) as [E|E]; [|lia].
  unfold nearestEven. rewrite <- E.
  destruct (Qcompare (x - inject_Z (Qfloor x)) (1 # 2)) eqn:Cx;
    destruct (Qcompare (y - inject_Z (Qfloor x)) (1 # 2)) eqn:Cy;
    try (destruct (Z.even (Qfloor x)); lia); try lia;
    exfalso;
    repeat match goal with
    | C : Qcompare _ _ = Eq |- _ => apply Qeq_alt in C
    | C : Qcompare _ _ = Lt |- _ => apply Qlt_alt in C
    | C : Qcompare _ _ = Gt |- _ => apply Qgt_alt in C
    end; Lqa.lra.
Qed.

Lemma roundDouble_pos x :
  (0 < x)%Q -> roundDouble x = (inject_Z (nearestEven (x / ulp x)) * ulp x)%Q.
Proof.
  intros H. unfold roundDouble.
  destruct (Qcompare x 0) eqn:C; [| |reflexivity]; exfalso;
    [apply Qeq_alt in C|apply Qlt_alt in C]; Lqa.lra.
Qed.

Lemma roundDouble_0 x : (x == 0)%Q -> roundDouble x = 0%Q.
Proof.
  intros H. unfold roundDouble.
  destruct (Qcompare x 0) eqn:C; [reflexivity| |]; exfalso;
    [apply Qlt_alt in C|apply Qgt_alt in C]; Lqa.lra.
Qed.

Lemma ulp_pos x : (0 < ulp x)%Q.
Proof. apply pow2_pos. Qed.

(** A positive number is rounded within its binade. *)
Lemma roundDouble_binade x :
  (0 < x)%Q ->
  let m := Z.max (exponent x) (-1022) in
  (roundDouble x <= pow2 (m + 1))%Q /\
  (exponent x = m -> pow2 m <= roundDouble x)%Q.
Proof.
  intros Hx m. rewrite roundDouble_pos by exact Hx.
  destruct (exponent_spec x Hx) as [X1 X2].
  unfold ulp. fold m. set (q := pow2 (m - 52)).
  assert (Hq : (0 < q)%Q) by apply pow2_pos.
  assert (E52 : (pow2 m == inject_Z (2 ^ 52) * q)%Q).
  { unfold q. rewrite <- (pow2_Z 52), <- pow2_plus by lia.
    replace (52 + (m - 52)) with m by lia. reflexivity. }
  assert (E53 : (pow2 (m + 1) == inject_Z (2 ^ 53) * q)%Q).
  { unfold q. rewrite <- (pow2_Z 53), <- pow2_plus by lia.
    replace (53 + (m - 52)) with (m + 1) by lia. reflexivity. }
  split.
  - assert (H : (x / q <= inject_Z (2 ^ 53))%Q).
    { apply Qle_shift_div_r; [exact Hq|]. rewrite <- E53.
      apply Qlt_le_weak. eapply Qlt_le_trans; [exact X2|].
      apply pow2_le. lia. }
    apply nearestEven_le in H. rewrite nearestEven_Z in H.
    rewrite E53. apply Qmult_le_r; [exact Hq|]. now rewrite <- Zle_Qle.
  - intros Em. rewrite Em in X1.
    assert (H : (inject_Z (2 ^ 52) <= x / q)%Q).
    { apply Qle_shift_div_l; [exact Hq|]. now rewrite <- E52. }
    apply nearestEven_le in H. rewrite nearestEven_Z in H.
    rewrite E52. apply Qmult_le_r; [exact Hq|]. now rewrite <- Zle_Qle.
Qed.

(** Rounding is monotone. *)
Lemma roundDouble_le x y :
  (0 <= x)%Q -> (x <= y)%Q -> (roundDouble x <= roundDouble y)%Q.
Proof.
  intros H0 Hxy.
  destruct (Qlt_le_dec 0 x) as [Hx|Hx].
  - assert (Hy : (0 < y)%Q) by (eapply Qlt_le_trans; eassumption).
    pose proof (exponent_le x y Hx Hxy) as He.
    destruct (Z.eq_dec (Z.max (exponent x) (-1022)) (Z.max (exponent y) (-1022)))
      as [E|E].
    + rewrite !roundDouble_pos by assumption. unfold ulp. rewrite E.
      set (q := pow2 _). assert (Hq : (0 < q)%Q) by apply pow2_pos.
      apply Qmult_le_r; [exact Hq|]. rewrite <- Zle_Qle.
      apply nearestEven_le. unfold Qdiv. apply Qmult_le_r; [|exact Hxy].
      now apply Qinv_lt_0_compat.
    + destruct (roundDouble_binade x Hx) as [X _].
      destruct (roundDouble_binade y Hy) as [_ Y].
      eapply Qle_trans; [exact X|]. eapply Qle_trans; [|apply Y; lia].
      apply pow2_le. lia.
  - assert (Ex : (x == 0)%Q) by Lqa.lra.
    rewrite (roundDouble_0 x Ex).
    destruct (Qlt_le_dec 0 y) as [Hy|Hy].
    + rewrite roundDouble_pos by exact Hy.
      apply Qmult_le_0_compat; [|apply Qlt_le_weak, ulp_pos].
      change 0%Q with (inject_Z 0). rewrite <- Zle_Qle.
      rewrite <- (nearestEven_Z 0). apply nearestEven_le.
      apply Qle_shift_div_l; [apply ulp_pos|].
      change (inject_Z 0) with 0%Q. rewrite Qmult_0_l. now apply Qlt_le_weak.
    + assert (Ey : (y == 0)%Q) by Lqa.lra.
      rewrite (roundDouble_0 y Ey). apply Qle_refl.
Qed.

End DoubleFacts.

(** Every double below 1 is at most [1 - 2 ^ -53]; for such a value of
    [Math.random()] the code has six digits. *)
Lemma generatePin_range (u : Q) :
  (0 <= u)%Q -> (u <= 1 - (1 # 2 ^ 53))%Q -> 100000 <= generatePin u <= 999999.
Proof.
  intros H0 H1. unfold generatePin, Js.floor, Js.add, Js.mul.
  set (y := Js.roundDouble (u * 900000)).
  assert (Y0 : (0 <= y)%Q).
  { change 0%Q with (Js.roundDouble 0) at 1. apply DoubleFacts.roundDouble_le; Lqa.lra. }
  assert (Y1 : (y <= Js.roundDouble (900000 * (1 - (1 # 2 ^ 53))))%Q).
  { apply DoubleFacts.roundDouble_le; Lqa.lra. }
  assert (E1 : (Js.roundDouble (900000 * (1 - (1 # 2 ^ 53)))
                == 900000 - (1 # 2 ^ 33))%Q)
    by (vm_compute; reflexivity).
  rewrite E1 in Y1.
  assert (S0 : (Js.roundDouble 100000 <= Js.roundDouble (100000 + y))%Q).
  { apply DoubleFacts.roundDouble_le; Lqa.lra. }
  assert (S1 : (Js.roundDouble (100000 + y)
                <= Js.roundDouble (1000000 - (1 # 2 ^ 33)))%Q).
  { apply DoubleFacts.roundDouble_le; Lqa.lra. }
  apply Qfloor_resp_le in S0, S1.
  assert (F0 : Qfloor (Js.roundDouble 100000) = 100000) by (vm_compute; reflexivity).
  assert (F1 : Qfloor (Js.roundDouble (1000000 - (1 # 2 ^ 33))) = 999999)
    by (vm_compute; reflexivity).
  lia.
Qed.

(** The rounding shows: for the double nearest to 0.3333422222222222 the
    code is 400008, where exact arithmetic gives 400007. *)
Lemma generatePin_rounds_as_doubles :
  generatePin (1501239907786853 # 4503599627370496) = 400008 /\
  Js.floor (100000 + (1501239907786853 # 4503599627370496) * 900000) = 400007.
Proof. vm_compute. split; reflexivity. Qed.

Lemma saveLoaded_id now loaded doc : _id (saveLoaded now loaded doc) = _id doc.
Proof.
  unfold saveLoaded. cbn [_id set_updatedAt].
  now rewrite (proj1 (preSave_history_fields now _ (preSave_expiration now doc))).
Qed.

(** ** accept (C6, C7) *)

(** C6, as stated, fails in two points.  On the AlreadyClaimed path the
    request is mutated: the lookup of the request is a [findOne] query,
    whose hook sweeps before the status is tested, so a pending request
    whose window has passed is turned 'expired' and then refused.  And a
    provider can hold two open requests: login stores 'online' whatever the
    status was, so after accepting request 100 and logging in again Pat
    accepts request 101 as well, and both are in progress with Pat as
    provider. *)
Lemma accept_refusal_mutates_request :
  (status Scenario.pendingTap = pending /\
   fst (runHandler (acceptRequest 2000000 (1 # 2) Scenario.asPat 100%N)
          (mkDB [Scenario.pendingTap] Scenario.people)) = AlreadyClaimed /\
   requests (snd (runHandler (acceptRequest 2000000 (1 # 2) Scenario.asPat 100%N)
                    (mkDB [Scenario.pendingTap] Scenario.people)))
   = [markExpired 2000000 Scenario.pendingTap] /\
   markExpired 2000000 Scenario.pendingTap <> Scenario.pendingTap) /\
  (let db1 :=
     snd (runHandler (acceptRequest 600000 (1 # 2) Scenario.asPat 100%N)
            (mkDB [Scenario.pendingTap; Scenario.secondTap] Scenario.people)) in
   let db2 :=
     snd (AuthController.login userName userName String.eqb (fun _ _ => "token")
            "pat" "pat" db1) in
   let out3 := runHandler (acceptRequest 700000 (1 # 4) Scenario.asPat 101%N) db2 in
   option_map u_status (lookupUser 10%N (users db1)) = Some busy /\
   statusCode (fst out3) = 200 /\
   map (fun r => (_id r, status r, provider r)) (requests (snd out3))
   = [(100%N, in_progress, Some 10%N); (101%N, in_progress, Some 10%N)]).
Proof. vm_compute. repeat split. discriminate. Qed.

(** C6 (amended). An accept call of a provider fails with ProviderBusy when
    the provider's status is already 'in-progress', with NotFound when no
    request has the given id, and with AlreadyClaimed when the status of the
    request, as the lookup finds it after the sweep of its [findOne] hook,
    is not pending: a request stored with another status, or a pending one
    that the sweep has just expired.  A request found pending is accepted.
    On the ProviderBusy path nothing is mutated.  On the other two paths no
    user is mutated and accept itself writes nothing to the requests: the
    collection is what the sweep of the lookup leaves. *)
Theorem accept_failure_paths
    (now : Z) (u : Q) (user0 : ReqUser) (requestId : ObjectId) (db : DB) (user : User) :
  role user0 = provider_role ->
  lookupUser (id user0) (users db) = Some user ->
  let out := runHandler (acceptRequest now u user0 requestId) db in
  let sweptDb := mkDB (sweepOne now (requests db)) (users db) in
  (u_status user = busy -> out = (ProviderBusy, db)) /\
  (u_status user <> busy -> lookupRequest requestId (requests db) = None ->
     out = (NotFound, sweptDb)) /\
  (u_status user <> busy ->
     forall r, lookupRequest requestId (requests db) = Some r -> status r <> pending ->
     out = (AlreadyClaimed, sweptDb)) /\
  (u_status user <> busy ->
     forall r, lookupRequest requestId (sweepOne now (requests db)) = Some r ->
     (status r <> pending -> out = (AlreadyClaimed, sweptDb)) /\
     (status r = pending -> statusCode (fst out) = 200)).
Proof.
  intros Hrole Huser out sweptDb. subst out sweptDb.
  run_handler. rewrite Hrole, Huser. cbn [Role_eqb negb].
  repeat split.
  - intros Hb. rewrite Hb. reflexivity.
  - intros Hb Hnone. apply UserStatus_eqb_neq in Hb. rewrite Hb.
    rewrite (lookupRequest_sweepOne_None now _ _ Hnone). reflexivity.
  - intros Hb r Hr Hst. apply UserStatus_eqb_neq in Hb. rewrite Hb.
    destruct (lookupRequest_sweepOne now _ _ _ Hr) as [E|E]; rewrite E.
    + apply Status_eqb_neq in Hst. rewrite Hst. reflexivity.
    + reflexivity.
  - intros Hst. apply UserStatus_eqb_neq in H. rewrite H, H0.
    apply Status_eqb_neq in Hst. rewrite Hst. reflexivity.
  - intros Hst. apply UserStatus_eqb_neq in H. rewrite H, H0, Hst. reflexivity.
Qed.

(** The refusal of a stale request: pending as stored, expired by the sweep
    of the lookup, refused, and left expired. *)
Lemma accept_failure_paths_witness :
  runHandler (acceptRequest 2000000 (1 # 2) Scenario.asPat 100%N)
    (mkDB [Scenario.pendingTap] Scenario.people)
  = (AlreadyClaimed,
     mkDB (sweepOne 2000000 [Scenario.pendingTap]) Scenario.people).
Proof.
  refine (proj1 (proj2 (proj2 (proj2
    (accept_failure_paths 2000000 (1 # 2) Scenario.asPat 100%N
       (mkDB [Scenario.pendingTap] Scenario.people) Scenario.pat _ _)))
    _ (markExpired 2000000 Scenario.pendingTap) _) _).
  - reflexivity.
  - reflexivity.
  - simpl. discriminate.
  - reflexivity.
  - simpl. discriminate.
Defined.

(** C7 fails on the code in one point: the schema declares
    [pinGeneratedAt] beside [generatedPin], and nothing assigns it.  After
    Pat's successful accept the request carries a code and a history entry,
    but no code-generation time. *)
Lemma accept_leaves_pinGeneratedAt_unset :
  fst (runHandler (acceptRequest 600000 (1 # 2) Scenario.asPat 100%N)
         (mkDB [Scenario.pendingTap] Scenario.people))
  = mkResponse 200 (MessageAndRequest "Request accepted"
      (mkRequest 100%N 1%N "plumbing" "Leaking tap" "9876543210"
         (7759 # 100, 1297 # 100)%Q 30 None (Some 10%N) in_progress
         (Some "550000") None [mkHistory (Some 10%N) h_accepted 600000]
         0 600000 2400000)) /\
  map pinGeneratedAt
    (requests (snd (runHandler (acceptRequest 600000 (1 # 2) Scenario.asPat 100%N)
                      (mkDB [Scenario.pendingTap] Scenario.people))))
  = [None].
Proof. vm_compute. split; reflexivity. Qed.

(** X29. A successful accept call on a pending request sets the request's
    provider to the caller and its status to in-progress, stores as
    verification code the decimal string of
    [floor(100000 + random * 900000)], computed in doubles, an integer in
    100000..999999, appends to the history an entry recording the accepted
    transition with the provider and the time of the save, and sets the
    provider's status to in-progress; it leaves [pinGeneratedAt] as it
    was. *)
Theorem accept_success
    (now : Z) (u : Q) (user0 : ReqUser) (requestId : ObjectId) (db : DB)
    (user : User) (r : Request) :
  role user0 = provider_role ->
  lookupUser (id user0) (users db) = Some user ->
  u_status user <> busy ->
  lookupRequest requestId (sweepOne now (requests db)) = Some r ->
  status r = pending ->
  (0 <= u)%Q -> (u <= 1 - (1 # 2 ^ 53))%Q ->
  let out := runHandler (acceptRequest now u user0 requestId) db in
  exists saved,
    fst out = mkResponse 200 (MessageAndRequest "Request accepted" saved) /\
    lookupRequest requestId (requests (snd out)) = Some saved /\
    provider saved = Some (id user0) /\
    status saved = in_progress /\
    generatedPin saved = Some (Js.toDecimalString (generatePin u)) /\
    100000 <= generatePin u <= 999999 /\
    pinGeneratedAt saved = pinGeneratedAt r /\
    history saved = (history r ++ [mkHistory (Some (id user0)) h_accepted now])%list /\
    lookupUser (id user0) (users (snd out)) = Some (set_u_status busy user).
Proof.
  intros Hrole Huser Hbusy Hreq Hst Hu0 Hu1 out. subst out.
  run_handler. rewrite Hrole, Huser. cbn [Role_eqb negb].
  apply UserStatus_eqb_neq in Hbusy. rewrite Hbusy, Hreq, Hst.
  cbn [Status_eqb negb fst snd requests users].
  destruct (lookupRequest_Some _ _ _ Hreq) as [_ Hid].
  eexists. split; [reflexivity|].
  split.
  { eapply lookupRequest_replace; [exact Hreq|]. rewrite saveLoaded_id. exact Hid. }
  unfold saveLoaded. rewrite Hst. cbn.
  split; [reflexivity|]. split; [reflexivity|]. split; [reflexivity|].
  split; [now apply generatePin_range|].
  split; [reflexivity|]. split; [reflexivity|].
  eapply lookupUser_replace; [exact Huser|]. cbn.
  now apply lookupUser_Some in Huser.
Qed.

Lemma accept_success_witness :
  exists saved,
    fst (runHandler (acceptRequest 600000 (1 # 2) Scenario.asPat 100%N)
           (mkDB [Scenario.pendingTap] Scenario.people))
    = mkResponse 200 (MessageAndRequest "Request accepted" saved) /\
    status saved = in_progress /\
    generatedPin saved = Some "550000".
Proof.
  destruct (accept_success 600000 (1 # 2) Scenario.asPat 100%N
              (mkDB [Scenario.pendingTap] Scenario.people)
              Scenario.pat Scenario.pendingTap)
    as (saved & H1 & _ & _ & H4 & H5 & _).
  - reflexivity.
  - reflexivity.
  - simpl. discriminate.
  - reflexivity.
  - reflexivity.
  - vm_compute. discriminate.
  - vm_compute. discriminate.
  - exists saved. repeat split; assumption.
Defined.

(** ** expirationTime (C1) *)

(** X26. Every save of a loaded request runs the first [pre('save')] hook
    again: a successful accept moves [expirationTime] to the time of the
    save plus the duration (the saves of complete and cancel go through the
    same hook). *)
Lemma accept_recomputes_expirationTime
    (now : Z) (u : Q) (user0 : ReqUser) (requestId : ObjectId) (db : DB)
    (user : User) (r : Request) :
  role user0 = provider_role ->
  lookupUser (id user0) (users db) = Some user ->
  u_status user <> busy ->
  lookupRequest requestId (sweepOne now (requests db)) = Some r ->
  status r = pending ->
  option_map expirationTime
    (lookupRequest requestId
       (requests (snd (runHandler (acceptRequest now u user0 requestId) db))))
  = Some (now + duration r * 60 * 1000).
Proof.
  intros Hrole Huser Hbusy Hreq Hst.
  run_handler. rewrite Hrole, Huser. cbn [Role_eqb negb].
  apply UserStatus_eqb_neq in Hbusy. rewrite Hbusy, Hreq, Hst.
  cbn [Status_eqb negb fst snd requests users].
  destruct (lookupRequest_Some _ _ _ Hreq) as [_ Hid].
  erewrite lookupRequest_replace; [|exact Hreq|rewrite saveLoaded_id; exact Hid].
  cbn [option_map]. now rewrite saveLoaded_expirationTime.
Qed.

(** C1 fails on the code.  Alice creates her 30-minute request at time 0:
    [expirationTime] is 1800000.  Pat accepts it ten minutes later, at
    600000: the save of the accepted request sets [expirationTime] to
    2400000. *)
Theorem accept_changes_expirationTime :
  map expirationTime
    (requests (snd (runHandler (createRequest 100%N 0 Scenario.asAlice Scenario.tapBody)
                      (mkDB [] Scenario.people))))
  = [1800000] /\
  map expirationTime
    (requests
       (snd (runHandler (acceptRequest 600000 (1 # 2) Scenario.asPat 100%N)
          (snd (runHandler (createRequest 100%N 0 Scenario.asAlice Scenario.tapBody)
                  (mkDB [] Scenario.people))))))
  = [2400000].
Proof. vm_compute. split; reflexivity. Qed.

(** ** complete (C3, C10) *)

(** Whatever the status of the request found, a strictly equal code
    completes it. *)
Lemma complete_ignores_status
    (now : Z) (user0 : ReqUser) (requestId : ObjectId) (pin : Js.Value)
    (db : DB) (r : Request) :
  lookupRequest requestId (sweepOne now (requests db)) = Some r ->
  Js.strictEquals (pinValue r) pin = true ->
  option_map status
    (lookupRequest requestId
       (requests (snd (runHandler (completeRequest now user0 requestId pin) db))))
  = Some completed.
Proof.
  intros Hreq Hpin. run_handler. rewrite Hreq.
  unfold Js.strictNotEquals. rewrite Hpin. cbn [negb fst snd requests users].
  destruct (lookupRequest_Some _ _ _ Hreq) as [_ Hid].
  assert (lookupRequest requestId
            (replaceRequest (saveLoaded now r (set_status completed r))
               (sweepOne now (requests db)))
          = Some (saveLoaded now r (set_status completed r))) as E.
  { eapply lookupRequest_replace; [exact Hreq|]. rewrite saveLoaded_id. exact Hid. }
  destruct (lookupUser (id user0) (users db)); cbn [fst snd requests];
    rewrite E; cbn [option_map]; unfold saveLoaded; cbn [status set_updatedAt];
    now rewrite (proj1 (proj2 (preSave_history_fields now _ _))).
Qed.

(** C3 fails on the code: [completeRequest] never reads the status.  Alice's
    request is pending and was never accepted, so it has no code; a
    completion call whose body has no [pin] passes the comparison
    ([undefined !== undefined] is false) and completes it. *)
Theorem complete_succeeds_on_pending :
  status Scenario.pendingTap = pending /\
  fst (runHandler (completeRequest 1000 Scenario.asPat 100%N Js.Undefined)
         (mkDB [Scenario.pendingTap] Scenario.people))
  = mkResponse 200 (MessageAndRequest "Request completed successfully"
      (mkRequest 100%N 1%N "plumbing" "Leaking tap" "9876543210"
         (7759 # 100, 1297 # 100)%Q 30 None None completed
         None None [mkHistory None h_completed 1000] 0 1000 1801000)) /\
  map status
    (requests (snd (runHandler (completeRequest 1000 Scenario.asPat 100%N Js.Undefined)
                      (mkDB [Scenario.pendingTap] Scenario.people))))
  = [completed].
Proof. vm_compute. repeat split. Qed.

(** A code that differs leaves the request as the lookup found it. *)
Lemma complete_mismatch
    (now : Z) (user0 : ReqUser) (requestId : ObjectId) (pin : Js.Value)
    (db : DB) (r : Request) :
  lookupRequest requestId (sweepOne now (requests db)) = Some r ->
  Js.strictEquals (pinValue r) pin = false ->
  runHandler (completeRequest now user0 requestId pin) db
  = (InvalidPin, mkDB (sweepOne now (requests db)) (users db)).
Proof.
  intros Hreq Hpin. run_handler. rewrite Hreq.
  unfold Js.strictNotEquals. now rewrite Hpin.
Qed.

(** C10. The stored code is a string (or absent), and the comparison is
    strict: for every stored request, in-progress or not, a completion call
    whose [pin] is a JSON number fails with InvalidPin, whatever the number
    (the one whose digits are the stored string included), and completes
    nothing. *)
Theorem complete_with_number_is_InvalidPin
    (now : Z) (user0 : ReqUser) (requestId : ObjectId) (q : Q)
    (db : DB) (r : Request) :
  lookupRequest requestId (requests db) = Some r ->
  runHandler (completeRequest now user0 requestId (Js.Number q)) db
  = (InvalidPin, mkDB (sweepOne now (requests db)) (users db)).
Proof.
  intros Hreq.
  destruct (lookupRequest_sweepOne now _ _ _ Hreq) as [E|E];
    (eapply complete_mismatch; [exact E|]);
    unfold pinValue; cbn [generatedPin markExpired set_updatedAt set_status];
    now destruct (generatedPin r).
Qed.

Lemma complete_with_number_is_InvalidPin_witness :
  runHandler (completeRequest 700000 Scenario.asPat 100%N (Js.Number 550000))
    (mkDB [Scenario.tap in_progress (Some 10%N) (Some "550000")
             [mkHistory (Some 10%N) h_accepted 600000]] Scenario.people)
  = (InvalidPin,
     mkDB (sweepOne 700000
             [Scenario.tap in_progress (Some 10%N) (Some "550000")
                [mkHistory (Some 10%N) h_accepted 600000]]) Scenario.people).
Proof.
  apply (complete_with_number_is_InvalidPin 700000 Scenario.asPat 100%N 550000
           (mkDB [Scenario.tap in_progress (Some 10%N) (Some "550000")
                    [mkHistory (Some 10%N) h_accepted 600000]] Scenario.people)
           (Scenario.tap in_progress (Some 10%N) (Some "550000")
              [mkHistory (Some 10%N) h_accepted 600000])).
  reflexivity.
Defined.

(** ** cancel (C5) *)

(** C5 fails on the code: [cancelRequest] tests the role of the caller, not
    that the caller is the seeker of the request.  Bob, a seeker, cancels
    Alice's pending request. *)
Theorem cancel_by_another_seeker_succeeds :
  seeker Scenario.pendingTap = 1%N /\ id Scenario.asBob = 2%N /\
  fst (runHandler (cancelRequest 1000 Scenario.asBob 100%N)
         (mkDB [Scenario.pendingTap] Scenario.people))
  = reply 200 "Request cancelled successfully" /\
  map status
    (requests (snd (runHandler (cancelRequest 1000 Scenario.asBob 100%N)
                      (mkDB [Scenario.pendingTap] Scenario.people))))
  = [cancelled].
Proof. vm_compute. repeat split. Qed.

(** X25. The paths of cancel: a caller who is not a seeker is refused
    and nothing is written, a request that is not pending is refused and
    only the sweep of the lookup is written, and success stores
    'cancelled'. *)
Lemma cancel_paths
    (now : Z) (user0 : ReqUser) (requestId : ObjectId) (db : DB) (r : Request) :
  lookupRequest requestId (sweepOne now (requests db)) = Some r ->
  let out := runHandler (cancelRequest now user0 requestId) db in
  (role user0 <> seeker_role -> out = (CancelNotSeeker, db)) /\
  (role user0 = seeker_role -> status r <> pending ->
     out = (CancelInvalidState, mkDB (sweepOne now (requests db)) (users db))) /\
  (role user0 = seeker_role -> status r = pending ->
     fst out = reply 200 "Request cancelled successfully" /\
     option_map status (lookupRequest requestId (requests (snd out))) = Some cancelled).
Proof.
  intros Hreq out. subst out. run_handler.
  destruct (lookupRequest_Some _ _ _ Hreq) as [_ Hid].
  split; [|split].
  - intros Hr. destruct (role user0); [contradiction|reflexivity].
  - intros Hr Hst. rewrite Hr. cbn [Role_eqb negb]. rewrite Hreq.
    apply Status_eqb_neq in Hst. now rewrite Hst.
  - intros Hr Hst. rewrite Hr. cbn [Role_eqb negb]. rewrite Hreq, Hst.
    cbn [Role_eqb Status_eqb negb fst snd requests].
    split; [reflexivity|].
    erewrite lookupRequest_replace; [|exact Hreq|rewrite saveLoaded_id; exact Hid].
    cbn [option_map]. unfold saveLoaded. cbn [status set_updatedAt].
    now rewrite (proj1 (proj2 (preSave_history_fields now _ _))).
Qed.

(** ** Matching (C4) *)

Section MatchingFacts.

Variable centralAngle : Point -> Point -> Q.

Lemma geoWithin_radius (center p : Point) :
  geoWithinCenterSphere centralAngle center (radius / earthRadiusKm) p = true
  <-> (distanceKm centralAngle center p <= 1000)%Q.
Proof.
  unfold geoWithinCenterSphere, distanceKm. rewrite Qle_bool_iff.
  unfold radius, earthRadiusKm, Qdiv.
  change (/ (63781 # 10))%Q with (10 # 63781)%Q.
  generalize (centralAngle center p). intros a. split; intros H; Lqa.lra.
Qed.

(** X28. The matching query returns an eligible request exactly when it lies
    within 1000 km of the provider. *)
Lemma getActiveRequests_radius
    (now : Z) (user0 : ReqUser) (db : DB) (user : User) (c0 c1 : Q) (r : Request) :
  role user0 = provider_role ->
  lookupUser (id user0) (users db) = Some user ->
  u_status user <> busy ->
  u_coordinates user = [c0; c1] ->
  In r (requests db) ->
  In (category r) (skills user) ->
  status r = pending ->
  now <= expirationTime r ->
  exists found,
    fst (runHandler (getActiveRequests centralAngle now user0) db)
    = mkResponse 200 (Documents found) /\
    (In r found <-> (distanceKm centralAngle (c0, c1) (location r) <= 1000)%Q).
Proof.
  intros Hrole Huser Hbusy Hc Hin Hcat Hst Hexp.
  unfold runHandler, getActiveRequests, bind, returnIf, deref, ret, respond,
    User_findById, ServiceRequest_find.
  rewrite Hrole. cbn [Role_eqb negb fst snd users]. rewrite Huser.
  apply UserStatus_eqb_neq in Hbusy. rewrite Hbusy, Hc. cbn [fst snd].
  eexists. split; [reflexivity|].
  rewrite filter_In. unfold activeFilter.
  rewrite !andb_true_iff, geoWithin_radius, Z.leb_le, Status_eqb_eq.
  split.
  - intros [_ [[[_ Hd] _] _]]. exact Hd.
  - intros Hd. split.
    + apply in_map_iff. exists r. split; [now apply swept_fresh | assumption].
    + repeat split; try assumption.
      apply existsb_exists. exists (category r). split; [assumption|].
      apply String.eqb_refl.
Qed.

End MatchingFacts.

(** C4 fails on the code: the radius of the query is the constant 1000
    (kilometres), not 5.  Pat's skills include the category of Alice's
    pending, unexpired request; whatever the geometry, if it puts the request
    10 km from Pat, Pat's query returns it. *)
Theorem provider_10km_away_sees_request (centralAngle : Point -> Point -> Q) :
  (distanceKm centralAngle Scenario.patPoint (location Scenario.pendingTap) == 10)%Q ->
  fst (runHandler (getActiveRequests centralAngle 1000 Scenario.asPat)
         (mkDB [Scenario.pendingTap] Scenario.people))
  = mkResponse 200 (Documents [Scenario.pendingTap]).
Proof.
  intros Hd.
  assert (geoWithinCenterSphere centralAngle Scenario.patPoint
            (radius / earthRadiusKm) (location Scenario.pendingTap) = true) as Hw.
  { apply geoWithin_radius. rewrite Hd. discriminate. }
  unfold runHandler, getActiveRequests, bind, returnIf, deref, ret, respond,
    User_findById, ServiceRequest_find.
  cbn -[activeFilter].
  unfold activeFilter. fold Scenario.patPoint. rewrite Hw. reflexivity.
Qed.

Lemma provider_10km_away_sees_request_witness :
  (distanceKm Scenario.meridianAngle Scenario.patPoint
     (location Scenario.pendingTap) == 10)%Q /\
  fst (runHandler (getActiveRequests Scenario.meridianAngle 1000 Scenario.asPat)
         (mkDB [Scenario.pendingTap] Scenario.people))
  = mkResponse 200 (Documents [Scenario.pendingTap]).
Proof.
  split.
  - vm_compute. reflexivity.
  - apply (provider_10km_away_sees_request Scenario.meridianAngle).
    vm_compute. reflexivity.
Defined.

(** ** The location throttle (C9) *)

Module TrackingFacts.
Import Tracking.
Local Open Scope R_scope.

Lemma gtb_true (x y : R) : gtb x y = true <-> x > y.
Proof. unfold gtb. destruct (Rgt_dec x y); split; auto; discriminate. Qed.

Lemma gtb_false (x y : R) : gtb x y = false <-> ~ x > y.
Proof. unfold gtb. destruct (Rgt_dec x y); split; auto; try discriminate; contradiction. Qed.

(** The haversine distance of a point to itself is zero. *)
Lemma _calculateDistance_same (lat lon : R) : _calculateDistance lat lon lat lon = 0.
Proof.
  unfold _calculateDistance.
  replace ((lat - lat) * PI / 180 / 2) with 0 by Lra.lra.
  replace ((lon - lon) * PI / 180 / 2) with 0 by Lra.lra.
  rewrite sin_0.
  replace (0 * 0 + cos (lat * PI / 180) * cos (lat * PI / 180) * 0 * 0) with 0 by Lra.lra.
  rewrite Rminus_0_r, sqrt_0, sqrt_1.
  unfold atan2. destruct (Rlt_dec 0 1) as [_|H]; [|exfalso; Lra.lra].
  replace (0 / 1) with 0 by Lra.lra. rewrite atan_0. Lra.lra.
Qed.

Lemma _shouldUpdatePosition_true (this : Service) (position last : Position) :
  lastPosition this = Some last ->
  _shouldUpdatePosition this position = true ->
  movedDistance last position > distanceFilter (trackingOptions this)
  \/ (timeThreshold < timeDiff last position)%Z.
Proof.
  intros Hlast. unfold _shouldUpdatePosition. rewrite Hlast.
  destruct (batteryFriendly this && gtb (accuracy (coords position)) (minAccuracy this));
    [discriminate|].
  rewrite orb_true_iff, gtb_true, Z.ltb_lt. tauto.
Qed.

End TrackingFacts.

(** C9. Once a position has been propagated, a new reading is propagated
    only when its haversine distance from the last propagated position
    exceeds the minimum movement (10 metres) or the time elapsed since that
    position exceeds 60 seconds (60000 ms); otherwise the reading is
    suppressed: no listener is notified, nothing is sent or stored, and the
    service is unchanged. *)
Theorem location_updates_are_throttled
    (socketProvider : bool) (this : Tracking.Service)
    (position last : Tracking.Position) :
  Tracking.lastPosition this = Some last ->
  Tracking.distanceFilter (Tracking.trackingOptions this) = 10%R ->
  (snd (Tracking._handlePositionUpdate socketProvider this position) <> [] ->
     (Tracking.movedDistance last position > 10)%R
     \/ 60000 < Tracking.timeDiff last position) /\
  (~ ((Tracking.movedDistance last position > 10)%R
      \/ 60000 < Tracking.timeDiff last position) ->
     Tracking._handlePositionUpdate socketProvider this position = (this, [])).
Proof.
  intros Hlast Hfilter.
  pose proof (TrackingFacts._shouldUpdatePosition_true this position last Hlast) as H.
  rewrite Hfilter in H. unfold Tracking.timeThreshold in H.
  unfold Tracking._handlePositionUpdate.
  destruct (Tracking._shouldUpdatePosition this position).
  - split; [intros _; now apply H | intros Hn; exfalso; apply Hn; now apply H].
  - split; [intros Hne; now contradiction Hne | reflexivity].
Qed.

(** A reading at the place of the last propagated position, five seconds
    later, is suppressed. *)
Lemma location_updates_are_throttled_witness :
  Tracking._handlePositionUpdate true
    (Tracking.mkService
       (Some (Tracking.mkPosition (Tracking.mkCoords (1297 / 100) (7759 / 100) 10) 0))
       (Tracking.trackingOptions Tracking.constructor) true 50)
    (Tracking.mkPosition (Tracking.mkCoords (1297 / 100) (7759 / 100) 10) 5000)
  = (Tracking.mkService
       (Some (Tracking.mkPosition (Tracking.mkCoords (1297 / 100) (7759 / 100) 10) 0))
       (Tracking.trackingOptions Tracking.constructor) true 50, []).
Proof.
  apply (proj2 (location_updates_are_throttled true
    (Tracking.mkService
       (Some (Tracking.mkPosition (Tracking.mkCoords (1297 / 100) (7759 / 100) 10) 0))
       (Tracking.trackingOptions Tracking.constructor) true 50)
    (Tracking.mkPosition (Tracking.mkCoords (1297 / 100) (7759 / 100) 10) 5000)
    (Tracking.mkPosition (Tracking.mkCoords (1297 / 100) (7759 / 100) 10) 0)
    eq_refl eq_refl)).
  unfold Tracking.movedDistance, Tracking.timeDiff. simpl.
  rewrite TrackingFacts._calculateDistance_same.
  intros [H|H]; [Lra.lra | lia].
Defined.

(* ================================================================== *)
(** * Further properties of the handlers *)

(** ** Runs of the handlers on their success paths *)

Lemma accept_run
    (now : Z) (u : Q) (user0 : ReqUser) (requestId : ObjectId) (db : DB)
    (user : User) (r : Request) :
  role user0 = provider_role ->
  lookupUser (id user0) (users db) = Some user ->
  u_status user <> busy ->
  lookupRequest requestId (sweepOne now (requests db)) = Some r ->
  status r = pending ->
  runHandler (acceptRequest now u user0 requestId) db
  = (mkResponse 200 (MessageAndRequest "Request accepted"
       (saveLoaded now r
          (set_generatedPin (Some (Js.toDecimalString (generatePin u)))
             (set_provider (Some (id user0)) (set_status in_progress r))))),
     mkDB (replaceRequest
             (saveLoaded now r
                (set_generatedPin (Some (Js.toDecimalString (generatePin u)))
                   (set_provider (Some (id user0)) (set_status in_progress r))))
             (sweepOne now (requests db)))
          (replaceUser (set_u_status busy user) (users db))).
Proof.
  intros Hrole Huser Hbusy Hreq Hst.
  run_handler. rewrite Hrole, Huser. cbn [Role_eqb negb].
  apply UserStatus_eqb_neq in Hbusy. rewrite Hbusy, Hreq, Hst. reflexivity.
Qed.

Lemma complete_run
    (now : Z) (user0 : ReqUser) (requestId : ObjectId) (pin : Js.Value)
    (db : DB) (user : User) (r : Request) :
  lookupRequest requestId (sweepOne now (requests db)) = Some r ->
  Js.strictEquals (pinValue r) pin = true ->
  lookupUser (id user0) (users db) = Some user ->
  runHandler (completeRequest now user0 requestId pin) db
  = (mkResponse 200 (MessageAndRequest "Request completed successfully"
       (saveLoaded now r (set_status completed r))),
     mkDB (replaceRequest (saveLoaded now r (set_status completed r))
             (sweepOne now (requests db)))
          (replaceUser (set_u_status online user) (users db))).
Proof.
  intros Hreq Hpin Huser. run_handler. rewrite Hreq.
  unfold Js.strictNotEquals. rewrite Hpin. cbn [negb fst snd requests users].
  rewrite Huser. reflexivity.
Qed.

(** A document the filter of the sweep does not match is read as it is. *)
Lemma lookupRequest_sweepOne_fresh now id0 rs r :
  lookupRequest id0 rs = Some r ->
  sweepFilter now r = false ->
  lookupRequest id0 (sweepOne now rs) = Some r.
Proof.
  induction rs as [|x rs IH]; [discriminate|].
  unfold lookupRequest in *. cbn [sweepOne find].
  destruct (sweepFilter now x) eqn:F; cbn [find].
  - rewrite markExpired_id.
    destruct (N.eqb (_id x) id0) eqn:E.
    + intros H Hf. inversion H; subst. congruence.
    + intros H _. exact H.
  - destruct (N.eqb (_id x) id0) eqn:E.
    + intros H _. exact H.
    + exact IH.
Qed.

Lemma sweepFilter_not_stale now r :
  now <= expirationTime r -> sweepFilter now r = false.
Proof.
  intros H. unfold sweepFilter.
  destruct (expirationTime r <? now) eqn:E; [|reflexivity].
  apply Z.ltb_lt in E. lia.
Qed.

(** ** createRequest *)

(** X1. A seeker's create call with every required field present stores a
    new request at the end of the collection and answers 201 with it: status
    pending, no provider, no code, an empty history, the caller as seeker,
    and [expirationTime] the time of the call plus the duration in minutes,
    whatever the duration is.  The requests already stored and the users are
    untouched. *)
Theorem createRequest_stores_pending_request
    (newId : ObjectId) (now : Z) (user : ReqUser) (b : CreateBody) (db : DB)
    (c d n : string) (m : Z) :
  role user = seeker_role ->
  b_category b = Some c -> b_description b = Some d ->
  b_contactNumber b = Some n -> b_duration b = Some m ->
  c <> "" -> d <> "" -> n <> "" ->
  runHandler (createRequest newId now user b) db
  = (mkResponse 201 (Document
       (mkRequest newId (id user) c d n (b_location b) m (b_additionalDetails b)
          None pending None None [] now now (now + m * 60 * 1000))),
     mkDB (requests db ++
           [mkRequest newId (id user) c d n (b_location b) m (b_additionalDetails b)
              None pending None None [] now now (now + m * 60 * 1000)])
          (users db)).
Proof.
  intros Hrole Hc Hd Hn Hm Hc0 Hd0 Hn0.
  unfold runHandler, createRequest, bind, returnIf, deref, ret, respond,
    ServiceRequest_saveNew, newServiceRequest.
  rewrite Hrole, Hc, Hd, Hn, Hm. cbn [Role_eqb negb].
  apply String.eqb_neq in Hc0, Hd0, Hn0. rewrite Hc0, Hd0, Hn0.
  reflexivity.
Qed.

Lemma createRequest_stores_pending_request_witness :
  runHandler (createRequest 100%N 0 Scenario.asAlice Scenario.tapBody)
    (mkDB [] Scenario.people)
  = (mkResponse 201 (Document Scenario.pendingTap),
     mkDB [Scenario.pendingTap] Scenario.people).
Proof.
  apply (createRequest_stores_pending_request 100%N 0 Scenario.asAlice
           Scenario.tapBody (mkDB [] Scenario.people)
           "plumbing" "Leaking tap" "9876543210" 30);
    try reflexivity; discriminate.
Defined.

(** X2. A create call stores nothing when it is refused: a caller who is
    not a seeker is answered 403, and a seeker whose body lacks the
    category, the description, the contact number or the duration, or
    gives one of the three strings empty, is answered 500; in both cases
    the database is left as it was.  For a body whose fields have the types
    of their schema paths, a seeker's call is answered 500 for no other
    reason. *)
Theorem createRequest_refusals_store_nothing
    (newId : ObjectId) (now : Z) (user : ReqUser) (b : CreateBody) (db : DB) :
  (role user <> seeker_role ->
     runHandler (createRequest newId now user b) db
     = (reply 403 "Only seekers can create service requests", db)) /\
  (role user = seeker_role ->
     (b_category b = None \/ b_category b = Some "" \/
      b_description b = None \/ b_description b = Some "" \/
      b_contactNumber b = None \/ b_contactNumber b = Some "" \/
      b_duration b = None
      <-> runHandler (createRequest newId now user b) db = (ServerError, db)) /\
     (statusCode (fst (runHandler (createRequest newId now user b) db)) = 500 ->
      snd (runHandler (createRequest newId now user b) db) = db)).
Proof.
  unfold runHandler, createRequest, bind, returnIf, deref, ret, respond, throw,
    ServiceRequest_saveNew, newServiceRequest.
  split.
  - intros Hr. destruct (role user); [contradiction|reflexivity].
  - intros Hr. rewrite Hr. cbn [Role_eqb negb].
    destruct (b_category b) as [c|], (b_description b) as [d|],
      (b_contactNumber b) as [n|], (b_duration b) as [m|];
      cbn [fst snd statusCode];
      try (split; [split; [reflexivity|tauto]|reflexivity]).
    destruct (String.eqb c "") eqn:Ec; [apply String.eqb_eq in Ec; subst c|];
      cbn [orb fst snd statusCode].
    { split; [split; [reflexivity|tauto]|reflexivity]. }
    destruct (String.eqb d "") eqn:Ed; [apply String.eqb_eq in Ed; subst d|];
      cbn [orb fst snd statusCode].
    { split; [split; [reflexivity|tauto]|reflexivity]. }
    destruct (String.eqb n "") eqn:En; [apply String.eqb_eq in En; subst n|];
      cbn [orb fst snd statusCode].
    { split; [split; [reflexivity|tauto]|reflexivity]. }
    apply String.eqb_neq in Ec, Ed, En.
    split; [|discriminate].
    split; [|discriminate].
    intros [H|[H|[H|[H|[H|[H|H]]]]]]; try discriminate;
      inversion H; congruence.
Qed.

Lemma createRequest_refusals_store_nothing_witness :
  runHandler
    (createRequest 100%N 0 Scenario.asAlice
       (mkCreateBody (Some "plumbing") (Some "Leaking tap") (Some "9876543210")
          (7759 # 100, 1297 # 100)%Q None None))
    (mkDB [] Scenario.people)
  = (ServerError, mkDB [] Scenario.people).
Proof.
  apply (proj1 (proj2 (createRequest_refusals_store_nothing 100%N 0 Scenario.asAlice
                  (mkCreateBody (Some "plumbing") (Some "Leaking tap")
                     (Some "9876543210") (7759 # 100, 1297 # 100)%Q None None)
                  (mkDB [] Scenario.people)) eq_refl)).
  simpl. tauto.
Defined.

(** ** getRequestPin *)

(** X3. The code is disclosed only to the seeker of the request and only
    while the request, as the lookup finds it, is in progress: the call
    answers 200 exactly then, with the stored code; and the call writes
    nothing to the database beyond the sweep of its lookup. *)
Theorem getRequestPin_discloses_only_to_seeker
    (now : Z) (user0 : ReqUser) (requestId : ObjectId) (db : DB) :
  snd (runHandler (getRequestPin now user0 requestId) db)
  = mkDB (sweepOne now (requests db)) (users db) /\
  (statusCode (fst (runHandler (getRequestPin now user0 requestId) db)) = 200 <->
   exists r, lookupRequest requestId (sweepOne now (requests db)) = Some r /\
             seeker r = id user0 /\ status r = in_progress) /\
  (forall r, lookupRequest requestId (sweepOne now (requests db)) = Some r ->
             seeker r = id user0 -> status r = in_progress ->
             fst (runHandler (getRequestPin now user0 requestId) db)
             = mkResponse 200 (Pin requestId (generatedPin r))).
Proof.
  run_handler.
  destruct (lookupRequest requestId (sweepOne now (requests db))) as [r|] eqn:Hreq.
  - destruct (lookupRequest_Some _ _ _ Hreq) as [_ Hid].
    destruct (N.eqb (seeker r) (id user0)) eqn:Es; cbn [negb].
    + apply N.eqb_eq in Es.
      destruct (Status_eqb (status r) in_progress) eqn:Et; cbn [negb fst snd].
      * apply Status_eqb_eq in Et. split; [reflexivity|]. split.
        -- split; [intros _; exists r; auto | reflexivity].
        -- intros r' Hr' _ _. inversion Hr'; subst. reflexivity.
      * apply Status_eqb_neq in Et. split; [reflexivity|]. split.
        -- split; [discriminate|].
           intros [r' [Hr' [_ Hst]]]. inversion Hr'; subst. contradiction.
        -- intros r' Hr' _ Hst. inversion Hr'; subst. contradiction.
    + apply N.eqb_neq in Es. cbn [fst snd]. split; [reflexivity|]. split.
      * split; [discriminate|].
        intros [r' [Hr' [Hs _]]]. inversion Hr'; subst. contradiction.
      * intros r' Hr' Hs _. inversion Hr'; subst. contradiction.
  - cbn [fst snd]. split; [reflexivity|]. split.
    + split; [discriminate|]. intros [r' [Hr' _]]. discriminate.
    + intros r' Hr'. discriminate.
Qed.

Lemma getRequestPin_pin_run
    (now : Z) (user0 : ReqUser) (requestId : ObjectId) (db : DB) (r : Request) :
  lookupRequest requestId (sweepOne now (requests db)) = Some r ->
  seeker r = id user0 ->
  status r = in_progress ->
  fst (runHandler (getRequestPin now user0 requestId) db)
  = mkResponse 200 (Pin requestId (generatedPin r)) /\
  snd (runHandler (getRequestPin now user0 requestId) db)
  = mkDB (sweepOne now (requests db)) (users db).
Proof.
  intros Hreq Hs Hst. run_handler. rewrite Hreq, Hs, Hst, N.eqb_refl.
  cbn [negb Status_eqb fst snd].
  destruct (lookupRequest_Some _ _ _ Hreq) as [_ Hid]. now rewrite Hid.
Qed.

(** ** completeRequest *)

Lemma saveLoaded_completed_fields now r :
  let saved := saveLoaded now r (set_status completed r) in
  _id saved = _id r /\ status saved = completed /\
  provider saved = provider r /\ generatedPin saved = generatedPin r /\
  pinGeneratedAt saved = pinGeneratedAt r /\
  expirationTime saved = now + duration r * 60 * 1000 /\
  history saved
  = (history r ++
     (if Status_eqb (status r) completed then []
      else [mkHistory (provider r) h_completed now]))%list.
Proof.
  unfold saveLoaded, preSave_history, preSave_expiration.
  cbn [status set_status set_expirationTime].
  destruct (status r); cbn; repeat split; now rewrite ?app_nil_r.
Qed.

(** X4. A completion call whose code is strictly equal to the stored one,
    by a caller with a user record, answers 200 and stores the request as
    completed, with provider and code as before; the history gains one
    entry 'completed', credited to the assigned provider and stamped with
    the time of the save, unless the request was already completed, in
    which case the history is left as it was; and the status of the caller
    becomes online. *)
Theorem complete_success
    (now : Z) (user0 : ReqUser) (requestId : ObjectId) (pin : Js.Value)
    (db : DB) (user : User) (r : Request) :
  lookupRequest requestId (sweepOne now (requests db)) = Some r ->
  Js.strictEquals (pinValue r) pin = true ->
  lookupUser (id user0) (users db) = Some user ->
  exists saved,
    fst (runHandler (completeRequest now user0 requestId pin) db)
    = mkResponse 200 (MessageAndRequest "Request completed successfully" saved) /\
    lookupRequest requestId
      (requests (snd (runHandler (completeRequest now user0 requestId pin) db)))
    = Some saved /\
    status saved = completed /\
    provider saved = provider r /\
    generatedPin saved = generatedPin r /\
    history saved
    = (history r ++
       (if Status_eqb (status r) completed then []
        else [mkHistory (provider r) h_completed now]))%list /\
    lookupUser (id user0)
      (users (snd (runHandler (completeRequest now user0 requestId pin) db)))
    = Some (set_u_status online user).
Proof.
  intros Hreq Hpin Huser.
  rewrite (complete_run now user0 requestId pin db user r Hreq Hpin Huser).
  cbn [fst snd requests users].
  destruct (lookupRequest_Some _ _ _ Hreq) as [_ Hid].
  destruct (saveLoaded_completed_fields now r) as (F1 & F2 & F3 & F4 & _ & _ & F7).
  eexists. split; [reflexivity|].
  split; [eapply lookupRequest_replace; [exact Hreq | now rewrite F1]|].
  split; [exact F2|]. split; [exact F3|]. split; [exact F4|].
  split; [exact F7|].
  eapply lookupUser_replace; [exact Huser|]. cbn.
  now apply lookupUser_Some in Huser.
Qed.

Lemma complete_success_witness :
  exists saved,
    fst (runHandler (completeRequest 900000 Scenario.asPat 100%N (Js.Str "550000"))
           Scenario.dbAccepted)
    = mkResponse 200 (MessageAndRequest "Request completed successfully" saved) /\
    status saved = completed.
Proof.
  destruct (complete_success 900000 Scenario.asPat 100%N (Js.Str "550000")
              Scenario.dbAccepted (set_u_status busy Scenario.pat)
              (mkRequest 100%N 1%N "plumbing" "Leaking tap" "9876543210"
                 (7759 # 100, 1297 # 100)%Q 30 None (Some 10%N) in_progress
                 (Some "550000") None [mkHistory (Some 10%N) h_accepted 600000]
                 0 600000 2400000))
    as (saved & H1 & _ & H3 & _).
  - vm_compute. reflexivity.
  - vm_compute. reflexivity.
  - vm_compute. reflexivity.
  - exists saved. split; assumption.
Defined.

(** ** The handshake *)

(** X5. The code handshake composes: after a provider's successful accept,
    the seeker of the request, asking no later than the new
    [expirationTime], is given the code that accept generated; and a
    completion call of that provider with this code as a string, at any
    later time, answers 200, stores the request as completed and sets the
    provider's status to online. *)
Theorem pin_handshake
    (t1 t2 t3 : Z) (u : Q) (provider0 seeker0 : ReqUser) (requestId : ObjectId)
    (db : DB) (user : User) (r : Request) :
  role provider0 = provider_role ->
  lookupUser (id provider0) (users db) = Some user ->
  u_status user <> busy ->
  lookupRequest requestId (sweepOne t1 (requests db)) = Some r ->
  status r = pending ->
  seeker r = id seeker0 ->
  t2 <= t1 + duration r * 60 * 1000 ->
  let db1 := snd (runHandler (acceptRequest t1 u provider0 requestId) db) in
  let out2 := runHandler (getRequestPin t2 seeker0 requestId) db1 in
  let code := Js.toDecimalString (generatePin u) in
  let out3 := runHandler (completeRequest t3 provider0 requestId (Js.Str code))
                (snd out2) in
  fst out2 = mkResponse 200 (Pin requestId (Some code)) /\
  statusCode (fst out3) = 200 /\
  option_map status (lookupRequest requestId (requests (snd out3))) = Some completed /\
  option_map u_status (lookupUser (id provider0) (users (snd out3))) = Some online.
Proof.
  intros Hrole Huser Hbusy Hreq Hst Hseek Ht2 db1 out2 code out3.
  subst db1 out2 out3 code.
  rewrite (accept_run t1 u provider0 requestId db user r Hrole Huser Hbusy Hreq Hst).
  cbn [snd].
  set (code := Js.toDecimalString (generatePin u)).
  set (saved := saveLoaded t1 r
                  (set_generatedPin (Some code)
                     (set_provider (Some (id provider0)) (set_status in_progress r)))).
  destruct (lookupRequest_Some _ _ _ Hreq) as [_ Hid].
  assert (Hsid : _id saved = requestId).
  { unfold saved. rewrite saveLoaded_id. exact Hid. }
  assert (Hs1 : lookupRequest requestId
                  (replaceRequest saved (sweepOne t1 (requests db))) = Some saved).
  { eapply lookupRequest_replace; [exact Hreq | exact Hsid]. }
  assert (Hexp : expirationTime saved = t1 + duration r * 60 * 1000).
  { unfold saved. now rewrite saveLoaded_expirationTime. }
  assert (Hfields : status saved = in_progress /\ seeker saved = seeker r /\
                    generatedPin saved = Some code).
  { unfold saved, saveLoaded. rewrite Hst. cbn. repeat split. }
  destruct Hfields as (Hss & Hsk & Hsp).
  assert (Hs2 : lookupRequest requestId
                  (sweepOne t2 (replaceRequest saved (sweepOne t1 (requests db))))
                = Some saved).
  { apply lookupRequest_sweepOne_fresh; [exact Hs1|].
    apply sweepFilter_not_stale. lia. }
  destruct (getRequestPin_pin_run t2 seeker0 requestId
              (mkDB (replaceRequest saved (sweepOne t1 (requests db)))
                    (replaceUser (set_u_status busy user) (users db)))
              saved Hs2) as [Hout2 Hdb2].
  { now rewrite Hsk. }
  { exact Hss. }
  cbn [requests users] in Hdb2.
  rewrite Hout2, Hdb2, Hsp.
  split; [reflexivity|].
  assert (Hu1 : lookupUser (id provider0)
                  (replaceUser (set_u_status busy user) (users db))
                = Some (set_u_status busy user)).
  { eapply lookupUser_replace; [exact Huser|]. cbn.
    now apply lookupUser_Some in Huser. }
  set (db2 := mkDB (sweepOne t2 (replaceRequest saved (sweepOne t1 (requests db))))
                   (replaceUser (set_u_status busy user) (users db))).
  assert (Hdone : forall r3,
            lookupRequest requestId (sweepOne t3 (requests db2)) = Some r3 ->
            generatedPin r3 = Some code ->
            statusCode (fst (runHandler
              (completeRequest t3 provider0 requestId (Js.Str code)) db2)) = 200 /\
            option_map status (lookupRequest requestId (requests (snd (runHandler
              (completeRequest t3 provider0 requestId (Js.Str code)) db2))))
            = Some completed /\
            option_map u_status (lookupUser (id provider0) (users (snd (runHandler
              (completeRequest t3 provider0 requestId (Js.Str code)) db2))))
            = Some online).
  { intros r3 E Hp.
    assert (Hpin : Js.strictEquals (pinValue r3) (Js.Str code) = true).
    { unfold pinValue. rewrite Hp. cbn. apply String.eqb_refl. }
    rewrite (complete_run t3 provider0 requestId (Js.Str code) db2
               (set_u_status busy user) r3 E Hpin Hu1).
    cbn [fst snd statusCode requests users].
    destruct (saveLoaded_completed_fields t3 r3) as (F1 & F2 & _).
    destruct (lookupRequest_Some _ _ _ E) as [_ Hid3].
    split; [reflexivity|]. split.
    - erewrite lookupRequest_replace; [|exact E|now rewrite F1].
      cbn [option_map]. now rewrite F2.
    - erewrite lookupUser_replace; [reflexivity|exact Hu1|].
      cbn. now apply lookupUser_Some in Huser. }
  destruct (lookupRequest_sweepOne t3 _ _ _ Hs2) as [E|E].
  - apply (Hdone saved E Hsp).
  - apply (Hdone (markExpired t3 saved) E). exact Hsp.
Qed.

Lemma pin_handshake_witness :
  fst (runHandler (getRequestPin 700000 Scenario.asAlice 100%N) Scenario.dbAccepted)
  = mkResponse 200 (Pin 100%N (Some "550000")).
Proof.
  refine (proj1 (pin_handshake 600000 700000 900000 (1 # 2)
                   Scenario.asPat Scenario.asAlice 100%N Scenario.dbCreated
                   Scenario.pat Scenario.pendingTap _ _ _ _ _ _ _)).
  - reflexivity.
  - reflexivity.
  - simpl. discriminate.
  - reflexivity.
  - reflexivity.
  - reflexivity.
  - simpl. lia.
Defined.

(** ** cancelRequest, acceptRequest and the listings: the general forms *)

Lemma cancel_paths_witness :
  fst (runHandler (cancelRequest 1000 Scenario.asAlice 100%N) Scenario.dbCreated)
  = reply 200 "Request cancelled successfully" /\
  option_map status
    (lookupRequest 100%N
       (requests (snd (runHandler (cancelRequest 1000 Scenario.asAlice 100%N)
                         Scenario.dbCreated))))
  = Some cancelled.
Proof.
  refine (proj2 (proj2 (cancel_paths 1000 Scenario.asAlice 100%N Scenario.dbCreated
                          Scenario.pendingTap _)) _ _).
  - reflexivity.
  - reflexivity.
  - reflexivity.
Defined.

Lemma accept_recomputes_expirationTime_witness :
  option_map expirationTime
    (lookupRequest 100%N
       (requests (snd (runHandler (acceptRequest 600000 (1 # 2) Scenario.asPat 100%N)
                         Scenario.dbCreated))))
  = Some (600000 + duration Scenario.pendingTap * 60 * 1000).
Proof.
  refine (accept_recomputes_expirationTime 600000 (1 # 2) Scenario.asPat 100%N
            Scenario.dbCreated Scenario.pat Scenario.pendingTap _ _ _ _ _).
  - reflexivity.
  - reflexivity.
  - simpl. discriminate.
  - reflexivity.
  - reflexivity.
Defined.

Lemma listing_read_observes_expired_witness :
  In (swept 3000000 Scenario.completedTap)
     (requests (snd (ServiceRequest_find 3000000 (fun _ => true)
                       (mkDB [Scenario.completedTap] Scenario.people)))).
Proof.
  refine (proj1 (proj2 (proj2 (proj2
    (listing_read_observes_expired 3000000 (fun _ => true)
       (mkDB [Scenario.completedTap] Scenario.people) Scenario.completedTap _ _))))).
  - simpl. left. reflexivity.
  - simpl. lia.
Defined.

Lemma getActiveRequests_radius_witness :
  exists found,
    fst (runHandler (getActiveRequests Scenario.meridianAngle 1000 Scenario.asPat)
           Scenario.dbCreated)
    = mkResponse 200 (Documents found) /\
    (In Scenario.pendingTap found <->
     (distanceKm Scenario.meridianAngle (7759 # 100, 1306 # 100)
        (location Scenario.pendingTap) <= 1000)%Q).
Proof.
  refine (getActiveRequests_radius Scenario.meridianAngle 1000 Scenario.asPat
            Scenario.dbCreated Scenario.pat (7759 # 100) (1306 # 100)
            Scenario.pendingTap _ _ _ _ _ _ _ _).
  - reflexivity.
  - reflexivity.
  - simpl. discriminate.
  - reflexivity.
  - vm_compute. left. reflexivity.
  - simpl. left. reflexivity.
  - reflexivity.
  - simpl. lia.
Defined.

(** ** The active listing is sound *)

Import Lifecycle.

(** X6. Whatever the active listing returns is eligible: when the call
    answers with documents, the caller is a provider with a user record, not
    busy, with two coordinates on file, and every document returned is a
    stored request (as the sweep leaves it) that is pending, not past its
    [expirationTime], of a category among the provider's skills and within
    1000 km of the provider. *)
Theorem getActiveRequests_sound
    (centralAngle : Point -> Point -> Q) (now : Z) (user0 : ReqUser) (db : DB)
    (found : list Request) :
  fst (runHandler (getActiveRequests centralAngle now user0) db)
  = mkResponse 200 (Documents found) ->
  exists user c0 c1,
    role user0 = provider_role /\
    lookupUser (id user0) (users db) = Some user /\
    u_status user <> busy /\
    u_coordinates user = [c0; c1] /\
    forall r, In r found ->
      In r (sweepExpired now (requests db)) /\
      status r = pending /\
      now <= expirationTime r /\
      In (category r) (skills user) /\
      (distanceKm centralAngle (c0, c1) (location r) <= 1000)%Q.
Proof.
  unfold runHandler, getActiveRequests, bind, returnIf, deref, ret, respond, throw,
    User_findById, ServiceRequest_find.
  destruct (role user0) eqn:Hrole; cbn [Role_eqb negb fst snd users];
    [discriminate|].
  destruct (lookupUser (id user0) (users db)) as [user|] eqn:Huser;
    [|discriminate].
  destruct (UserStatus_eqb (u_status user) busy) eqn:Hbusy; [discriminate|].
  destruct (u_coordinates user) as [|c0 [|c1 [|c2 cs]]] eqn:Hc; try discriminate.
  cbn [fst snd]. intros H. inversion H; subst found; clear H.
  exists user, c0, c1.
  split; [reflexivity|]. split; [reflexivity|].
  split; [now apply UserStatus_eqb_neq|]. split; [exact Hc|].
  intros r Hr. apply filter_In in Hr. destruct Hr as [Hin Hf].
  unfold activeFilter in Hf.
  rewrite !andb_true_iff, geoWithin_radius, Z.leb_le, Status_eqb_eq in Hf.
  destruct Hf as [[[Hcat Hd] Hexp] Hst].
  repeat split; try assumption.
  apply existsb_exists in Hcat. destruct Hcat as [x [Hx He]].
  apply String.eqb_eq in He. now subst x.
Qed.

Lemma getActiveRequests_sound_witness :
  exists user c0 c1,
    role Scenario.asPat = provider_role /\
    lookupUser (id Scenario.asPat) (users Scenario.dbCreated) = Some user /\
    u_status user <> busy /\
    u_coordinates user = [c0; c1] /\
    forall r, In r [Scenario.pendingTap] ->
      In r (sweepExpired 1000 (requests Scenario.dbCreated)) /\
      status r = pending /\
      1000 <= expirationTime r /\
      In (category r) (skills user) /\
      (distanceKm Scenario.meridianAngle (c0, c1) (location r) <= 1000)%Q.
Proof.
  apply (getActiveRequests_sound Scenario.meridianAngle 1000 Scenario.asPat
           Scenario.dbCreated [Scenario.pendingTap]).
  vm_compute. reflexivity.
Defined.

(** ** The two sweeps *)

Lemma sweepOne_fixpoint now rs :
  sweepOne now (sweepExpired now rs) = sweepExpired now rs.
Proof.
  induction rs as [|r rs IH]; [reflexivity|].
  cbn [sweepExpired map sweepOne].
  assert (sweepFilter now (swept now r) = false) as E.
  { unfold swept. destruct (sweepFilter now r) eqn:F;
      [apply sweepFilter_markExpired | exact F]. }
  rewrite E. f_equal. exact IH.
Qed.

Lemma iter_sweepOne_cons_clean now n r rs :
  sweepFilter now r = false ->
  Nat.iter n (sweepOne now) (r :: rs) = r :: Nat.iter n (sweepOne now) rs.
Proof.
  intros F. induction n as [|n IH]; [reflexivity|].
  rewrite !Nat.iter_succ, IH. cbn [sweepOne]. now rewrite F.
Qed.

(** X7. The sweep of the fetches catches up with the sweep of the listings:
    as many fetches as there are stored requests (or more), at one instant,
    leave the collection exactly as one listing read at that instant does;
    each single fetch expires at most the first stale request. *)
Theorem fetch_sweeps_add_up_to_listing_sweep (now : Z) (rs : list Request) (n : nat) :
  (List.length rs <= n)%nat ->
  Nat.iter n (sweepOne now) rs = sweepExpired now rs.
Proof.
  revert n. induction rs as [|r rs IH]; intros n Hn.
  - clear Hn. induction n as [|n IHn]; [reflexivity|].
    rewrite Nat.iter_succ. now rewrite IHn.
  - cbn [sweepExpired map]. unfold swept.
    destruct (sweepFilter now r) eqn:F.
    + destruct n as [|n]; [cbn in Hn; lia|].
      rewrite Nat.iter_succ_r. cbn [sweepOne]. rewrite F.
      rewrite iter_sweepOne_cons_clean by apply sweepFilter_markExpired.
      f_equal. apply IH. cbn in Hn. lia.
    + rewrite iter_sweepOne_cons_clean by exact F.
      f_equal. apply IH. cbn in Hn. lia.
Qed.

Lemma fetch_sweeps_add_up_to_listing_sweep_witness :
  Nat.iter 2 (sweepOne 2000000) [Scenario.pendingTap; Scenario.secondTap]
  = sweepExpired 2000000 [Scenario.pendingTap; Scenario.secondTap].
Proof.
  apply (fetch_sweeps_add_up_to_listing_sweep 2000000
           [Scenario.pendingTap; Scenario.secondTap] 2).
  simpl. lia.
Defined.

(** X8. Neither sweep deletes, adds or reorders a request, and neither
    writes any path but [status] and [updatedAt]: provider, code, history
    and [expirationTime] are as before (in particular expiry leaves no
    history entry). *)
Theorem sweeps_write_status_only (now : Z) (rs : list Request) :
  map unswept (sweepExpired now rs) = map unswept rs /\
  map unswept (sweepOne now rs) = map unswept rs.
Proof.
  split.
  - rewrite sweepExpired_map, map_map. apply map_ext.
    intros r. unfold swept. now destruct (sweepFilter now r).
  - induction rs as [|r rs IH]; [reflexivity|].
    cbn [sweepOne]. destruct (sweepFilter now r); cbn [map].
    + reflexivity.
    + now rewrite IH.
Qed.

Lemma sweepFilter_markExpired_later t1 t2 r :
  sweepFilter t2 (markExpired t1 r) = false.
Proof. unfold sweepFilter. cbn. apply andb_false_r. Qed.

(** X9. Statuses only move forward in time under the listing sweep: a sweep
    at a later instant after a sweep at an earlier one leaves the same
    statuses as the later sweep alone. *)
Theorem later_sweep_subsumes_earlier (t1 t2 : Z) (rs : list Request) :
  t1 <= t2 ->
  map status (sweepExpired t2 (sweepExpired t1 rs)) = map status (sweepExpired t2 rs).
Proof.
  intros Hle. rewrite !sweepExpired_map, !map_map. apply map_ext. intros r.
  unfold swept at 2. destruct (sweepFilter t1 r) eqn:F1.
  - apply sweepFilter_spec in F1. destruct F1 as [Hlt _].
    unfold swept. rewrite sweepFilter_markExpired_later.
    destruct (sweepFilter t2 r) eqn:F2; [reflexivity|].
    cbn [status markExpired set_updatedAt set_status].
    destruct (Status_eqb (status r) expired) eqn:S.
    + apply Status_eqb_eq in S. now rewrite S.
    + exfalso. apply Status_eqb_neq in S.
      assert (sweepFilter t2 r = true) by (apply sweepFilter_spec; split; [lia|auto]).
      congruence.
  - reflexivity.
Qed.

(** ** What a call can do to the collection of requests *)

Lemma perform_Change
    (centralAngle : Point -> Point -> Q) (now : Z) (c : Call) (db : DB) :
  Change now c (requests db) (requests (snd (perform centralAngle now c db))).
Proof.
  unfold perform. destruct c as [newId user b|user|u user rid|user rid pin|user
                                 |user rid|user rid]; cbn [handlerOf].
  - (* create *)
    unfold runHandler, createRequest, bind, returnIf, deref, ret, respond, throw,
      ServiceRequest_saveNew.
    destruct (Role_eqb (role user) seeker_role); cbn [negb fst snd];
      [|apply change_none].
    destruct (newServiceRequest newId now (id user) b) as [doc|] eqn:Hdoc;
      cbn [fst snd requests]; [|apply change_none].
    unfold newServiceRequest in Hdoc.
    destruct (b_category b), (b_description b), (b_contactNumber b),
      (b_duration b); try discriminate.
    destruct (_ || _ || _)%bool; [discriminate|]. inversion Hdoc; subst doc.
    eapply change_create; reflexivity.
  - (* active listing *)
    unfold runHandler, getActiveRequests, bind, returnIf, deref, ret, respond, throw,
      User_findById, ServiceRequest_find.
    destruct (Role_eqb (role user) provider_role); cbn [negb fst snd users];
      [|apply change_none].
    destruct (lookupUser (id user) (users db)) as [w|]; cbn [fst snd];
      [|apply change_none].
    destruct (UserStatus_eqb (u_status w) busy); [apply change_none|].
    destruct (u_coordinates w) as [|c0 [|c1 [|c2 cs]]]; cbn [fst snd requests];
      try apply change_none. apply change_listing.
  - (* accept *)
    run_handler.
    destruct (Role_eqb (role user) provider_role); cbn [negb fst snd];
      [|destruct (lookupUser (id user) (users db)); apply change_none].
    destruct (lookupUser (id user) (users db)) as [w|]; cbn [fst snd];
      [|apply change_none].
    destruct (UserStatus_eqb (u_status w) busy); [apply change_none|].
    destruct (lookupRequest rid (sweepOne now (requests db))) as [r|] eqn:Hr;
      cbn [fst snd requests]; [|apply change_fetch].
    destruct (Status_eqb (status r) pending) eqn:Hst; cbn [negb fst snd requests];
      [|apply change_fetch].
    apply Status_eqb_eq in Hst. eapply change_accept; eassumption.
  - (* complete *)
    run_handler.
    destruct (lookupRequest rid (sweepOne now (requests db))) as [r|] eqn:Hr;
      cbn [fst snd requests]; [|apply change_fetch].
    destruct (Js.strictNotEquals (pinValue r) pin); cbn [fst snd requests users];
      [apply change_fetch|].
    destruct (lookupUser (id user) (users db)); cbn [fst snd requests users];
      eapply change_complete; eassumption.
  - (* history *)
    unfold runHandler, getRequestHistory, bind, respond, ServiceRequest_find.
    destruct (role user); cbn [fst snd requests]; apply change_listing.
  - (* pin *)
    run_handler.
    destruct (lookupRequest rid (sweepOne now (requests db))) as [r|];
      cbn [fst snd requests]; [|apply change_fetch].
    destruct (N.eqb (seeker r) (id user)); cbn [negb fst snd requests];
      [|apply change_fetch].
    destruct (Status_eqb (status r) in_progress); cbn [negb fst snd requests];
      apply change_fetch.
  - (* cancel *)
    run_handler.
    destruct (Role_eqb (role user) seeker_role); cbn [negb fst snd requests];
      [|apply change_none].
    destruct (lookupRequest rid (sweepOne now (requests db))) as [r|] eqn:Hr;
      cbn [fst snd requests]; [|apply change_fetch].
    destruct (Status_eqb (status r) pending) eqn:Hst; cbn [negb fst snd requests];
      [|apply change_fetch].
    apply Status_eqb_eq in Hst. eapply change_cancel; eassumption.
Qed.

(** ** Invariants of the request collection *)

Lemma consistent_markExpired now r :
  consistent r = true -> consistent (markExpired now r) = true.
Proof.
  unfold consistent. cbn [status provider generatedPin history markExpired
                          set_updatedAt set_status Status_eqb negb orb].
  rewrite !andb_true_iff. intros [[[_ H2] H3] _]. now rewrite H2, H3.
Qed.

Lemma consistent_sweepOne now rs :
  forallb consistent rs = true -> forallb consistent (sweepOne now rs) = true.
Proof.
  induction rs as [|r rs IH]; [reflexivity|].
  cbn [forallb sweepOne]. rewrite andb_true_iff. intros [Hr Hrs].
  destruct (sweepFilter now r); cbn [forallb]; rewrite andb_true_iff; split; auto.
  now apply consistent_markExpired.
Qed.

Lemma consistent_sweepExpired now rs :
  forallb consistent rs = true -> forallb consistent (sweepExpired now rs) = true.
Proof.
  induction rs as [|r rs IH]; [reflexivity|].
  cbn [forallb sweepExpired map]. rewrite !andb_true_iff. intros [Hr Hrs].
  split; [|now apply IH].
  unfold swept. destruct (sweepFilter now r); [now apply consistent_markExpired|auto].
Qed.

Lemma consistent_replace doc rs :
  consistent doc = true ->
  forallb consistent rs = true ->
  forallb consistent (replaceRequest doc rs) = true.
Proof.
  intros Hd. induction rs as [|r rs IH]; [reflexivity|].
  cbn [forallb replaceRequest map]. rewrite !andb_true_iff. intros [Hr Hrs].
  split; [|now apply IH]. now destruct (N.eqb (_id r) (_id doc)).
Qed.

Lemma existsb_isAccepted_app l h :
  existsb isAccepted (l ++ [h]) = existsb isAccepted l || isAccepted h.
Proof. rewrite existsb_app. cbn. now rewrite orb_false_r. Qed.

Lemma consistent_accepted now r caller code :
  status r = pending ->
  consistent
    (saveLoaded now r
       (set_generatedPin (Some code)
          (set_provider (Some caller) (set_status in_progress r)))) = true.
Proof.
  intros Hst.
  unfold saveLoaded, preSave_history, preSave_expiration, consistent.
  rewrite Hst. cbn.
  rewrite existsb_isAccepted_app. cbn. now rewrite orb_true_r.
Qed.

Lemma consistent_completed now r :
  consistent r = true ->
  consistent (saveLoaded now r (set_status completed r)) = true.
Proof.
  unfold consistent. rewrite !andb_true_iff. intros [[[_ H2] H3] _].
  destruct (saveLoaded_completed_fields now r) as (_ & F2 & F3 & F4 & _ & _ & F7).
  rewrite F2, F3, F4, F7. cbn [Status_eqb negb orb].
  rewrite H2. repeat split.
  destruct (Status_eqb (status r) completed).
  - now rewrite app_nil_r.
  - rewrite existsb_isAccepted_app. cbn. now rewrite orb_false_r.
Qed.

Lemma consistent_cancelled now r :
  consistent r = true ->
  status r = pending ->
  consistent (saveLoaded now r (set_status cancelled r)) = true.
Proof.
  intros H Hst.
  unfold consistent, saveLoaded, preSave_history, preSave_expiration in *.
  cbn [status set_status set_expirationTime] in *. rewrite Hst in *.
  cbn in *. rewrite !andb_true_iff in *. tauto.
Qed.

Lemma consistent_lookup id0 rs r :
  forallb consistent rs = true -> lookupRequest id0 rs = Some r -> consistent r = true.
Proof.
  intros H Hr. apply lookupRequest_Some in Hr. destruct Hr as [Hin _].
  rewrite forallb_forall in H. now apply H.
Qed.

Lemma Change_consistent now c rs rs' :
  Change now c rs rs' ->
  forallb consistent rs = true -> forallb consistent rs' = true.
Proof.
  intros Hc H. destruct Hc.
  - exact H.
  - now apply consistent_sweepOne.
  - now apply consistent_sweepExpired.
  - apply consistent_replace; [now apply consistent_accepted|now apply consistent_sweepOne].
  - apply consistent_replace; [|now apply consistent_sweepOne].
    apply consistent_completed. eapply consistent_lookup; [|eassumption].
    now apply consistent_sweepOne.
  - apply consistent_replace; [|now apply consistent_sweepOne].
    apply consistent_cancelled; [|assumption].
    eapply consistent_lookup; [|eassumption]. now apply consistent_sweepOne.
  - rewrite forallb_app, H. cbn [forallb]. unfold consistent.
    rewrite H2, H3, H4, H5. reflexivity.
Qed.

(** X10. Consistency is an invariant of the service-request routes: if every
    stored request is consistent (a pending request has no history, a
    provider is assigned exactly when a code is stored, a code is stored
    exactly when the history has an 'accepted' entry, a request in progress
    has a code), then so is every stored request after any sequence of
    create, listing, accept, complete, history, pin and cancel calls, by any
    callers at any times; in particular from an empty collection. *)
Theorem calls_keep_requests_consistent
    (centralAngle : Point -> Point -> Q) (cs : list (Z * Call)) (db : DB) :
  forallb consistent (requests db) = true ->
  forallb consistent (requests (run centralAngle cs db)) = true.
Proof.
  revert db. induction cs as [|[now c] cs IH]; intros db H; [exact H|].
  cbn [run]. apply IH.
  eapply Change_consistent; [apply perform_Change | exact H].
Qed.

Lemma calls_keep_requests_consistent_witness :
  forallb consistent
    (requests (run Scenario.meridianAngle
                 [(0, Create 100%N Scenario.asAlice Scenario.tapBody);
                  (600000, Accept (1 # 2) Scenario.asPat 100%N);
                  (900000, Complete Scenario.asPat 100%N (Js.Str "550000"))]
                 (mkDB [] Scenario.people))) = true.
Proof.
  apply (calls_keep_requests_consistent Scenario.meridianAngle
           [(0, Create 100%N Scenario.asAlice Scenario.tapBody);
            (600000, Accept (1 # 2) Scenario.asPat 100%N);
            (900000, Complete Scenario.asPat 100%N (Js.Str "550000"))]
           (mkDB [] Scenario.people)).
  reflexivity.
Defined.

(** *** A claimed request stays claimed *)

Lemma lookupRequest_replace_other id0 doc rs :
  _id doc <> id0 ->
  lookupRequest id0 (replaceRequest doc rs) = lookupRequest id0 rs.
Proof.
  intros Hne. unfold lookupRequest, replaceRequest.
  induction rs as [|x rs IH]; [reflexivity|].
  cbn [map find].
  destruct (N.eqb (_id x) (_id doc)) eqn:E.
  - apply N.eqb_eq in E.
    assert (N.eqb (_id doc) id0 = false) as E1 by now apply N.eqb_neq.
    assert (N.eqb (_id x) id0 = false) as E2 by (apply N.eqb_neq; congruence).
    now rewrite E1, E2.
  - destruct (N.eqb (_id x) id0); [reflexivity|exact IH].
Qed.

Lemma lookupRequest_app id0 rs tail r :
  lookupRequest id0 rs = Some r -> lookupRequest id0 (rs ++ tail) = Some r.
Proof.
  unfold lookupRequest. induction rs as [|x rs IH]; [discriminate|].
  cbn [app find]. destruct (N.eqb (_id x) id0); auto.
Qed.

Lemma claimed_sweepOne now id0 rs :
  claimed id0 rs -> claimed id0 (sweepOne now rs).
Proof.
  intros [r [Hr Hst]].
  destruct (lookupRequest_sweepOne now _ _ _ Hr) as [E|E].
  - exists r. auto.
  - exists (markExpired now r). split; [exact E|discriminate].
Qed.

Lemma claimed_sweepExpired now id0 rs :
  claimed id0 rs -> claimed id0 (sweepExpired now rs).
Proof.
  intros [r [Hr Hst]]. exists (swept now r). split.
  - rewrite lookupRequest_sweepExpired, Hr. reflexivity.
  - unfold swept. destruct (sweepFilter now r); [discriminate|exact Hst].
Qed.

Lemma claimed_replace id0 doc rs :
  status doc <> pending ->
  claimed id0 rs -> claimed id0 (replaceRequest doc rs).
Proof.
  intros Hd [r [Hr Hst]].
  destruct (N.eq_dec (_id doc) id0) as [E|E].
  - exists doc. split; [|exact Hd]. eapply lookupRequest_replace; eassumption.
  - exists r. split; [|exact Hst]. now rewrite lookupRequest_replace_other.
Qed.

Lemma saveLoaded_status now loaded doc :
  status (saveLoaded now loaded doc) = status doc.
Proof.
  unfold saveLoaded. cbn [status set_updatedAt].
  now rewrite (proj1 (proj2 (preSave_history_fields now _ (preSave_expiration now doc)))).
Qed.

Lemma Change_claimed now c id0 rs rs' :
  Change now c rs rs' -> claimed id0 rs -> claimed id0 rs'.
Proof.
  intros Hc H. destruct Hc.
  - exact H.
  - now apply claimed_sweepOne.
  - now apply claimed_sweepExpired.
  - apply claimed_replace; [|now apply claimed_sweepOne].
    rewrite saveLoaded_status. discriminate.
  - apply claimed_replace; [|now apply claimed_sweepOne].
    rewrite saveLoaded_status. discriminate.
  - apply claimed_replace; [|now apply claimed_sweepOne].
    rewrite saveLoaded_status. discriminate.
  - destruct H as [r [Hr Hst]]. exists r. split; [|exact Hst].
    now apply lookupRequest_app.
Qed.

Lemma run_claimed centralAngle cs id0 db :
  claimed id0 (requests db) -> claimed id0 (requests (run centralAngle cs db)).
Proof.
  revert db. induction cs as [|[now c] cs IH]; intros db H; [exact H|].
  cbn [run]. apply IH. eapply Change_claimed; [apply perform_Change|exact H].
Qed.

(** An accept call that answers 200 found the request pending. *)
Lemma accept_200_found_pending now u user0 requestId db :
  statusCode (fst (runHandler (acceptRequest now u user0 requestId) db)) = 200 ->
  exists r, lookupRequest requestId (sweepOne now (requests db)) = Some r /\
            status r = pending.
Proof.
  run_handler.
  destruct (Role_eqb (role user0) provider_role); cbn [negb fst snd];
    [|destruct (lookupUser (id user0) (users db)); discriminate].
  destruct (lookupUser (id user0) (users db)) as [w|]; cbn [fst snd];
    [|discriminate].
  destruct (UserStatus_eqb (u_status w) busy); [discriminate|].
  destruct (lookupRequest requestId (sweepOne now (requests db))) as [r|] eqn:Hr;
    cbn [fst snd]; [|discriminate].
  destruct (Status_eqb (status r) pending) eqn:Hst; cbn [negb fst snd];
    [|discriminate].
  intros _. exists r. split; [reflexivity|now apply Status_eqb_eq].
Qed.

(** Served one at a time, a request is accepted at most once: when each
    call runs to its answer before the next begins, once a stored request
    is no longer pending (accepted, completed, cancelled or expired), no
    accept call for it answers 200, by whatever provider and at whatever
    time.  Two accepts in flight together escape this
    ([overlapping_accepts_both_succeed]); what holds of them is
    [late_accept_is_refused]. *)
Theorem claimed_request_is_never_accepted_again
    (centralAngle : Point -> Point -> Q) (cs : list (Z * Call)) (db : DB)
    (requestId : ObjectId) (r : Request) (now : Z) (u : Q) (user0 : ReqUser) :
  lookupRequest requestId (requests db) = Some r ->
  status r <> pending ->
  statusCode (fst (perform centralAngle now (Accept u user0 requestId)
                     (run centralAngle cs db))) <> 200.
Proof.
  intros Hr Hst H200.
  assert (claimed requestId (requests (run centralAngle cs db))) as Hc.
  { apply run_claimed. exists r. auto. }
  apply (claimed_sweepOne now) in Hc. destruct Hc as [r' [Hr' Hst']].
  apply accept_200_found_pending in H200. destruct H200 as [r'' [Hr'' Hp]].
  rewrite Hr' in Hr''. inversion Hr''; subst. contradiction.
Qed.

Lemma claimed_request_is_never_accepted_again_witness :
  statusCode
    (fst (perform Scenario.meridianAngle 800000
            (Accept (1 # 3) Scenario.asPat 100%N)
            (run Scenario.meridianAngle
               [(700000, GetPin Scenario.asAlice 100%N);
                (750000, Active Scenario.asPat)]
               Scenario.dbAccepted))) <> 200.
Proof.
  apply (claimed_request_is_never_accepted_again Scenario.meridianAngle
           [(700000, GetPin Scenario.asAlice 100%N);
            (750000, Active Scenario.asPat)]
           Scenario.dbAccepted 100%N
           (mkRequest 100%N 1%N "plumbing" "Leaking tap" "9876543210"
              (7759 # 100, 1297 # 100)%Q 30 None (Some 10%N) in_progress
              (Some "550000") None [mkHistory (Some 10%N) h_accepted 600000]
              0 600000 2400000)
           800000 (1 # 3) Scenario.asPat).
  - vm_compute. reflexivity.
  - simpl. discriminate.
Defined.

(** *** Stored requests only evolve *)

Lemma evolves_refl r : evolves r r.
Proof.
  unfold evolves. repeat split; auto. exists []. now rewrite app_nil_r.
Qed.

Lemma evolves_trans r1 r2 r3 : evolves r1 r2 -> evolves r2 r3 -> evolves r1 r3.
Proof.
  intros (F1 & S1 & [a1 H1] & P1 & G1) (F2 & S2 & [a2 H2] & P2 & G2).
  unfold evolves. repeat split.
  - congruence.
  - auto.
  - exists (a1 ++ a2)%list. now rewrite H2, H1, app_assoc.
  - intros Hp. rewrite P2; [now apply P1|]. now rewrite P1.
  - intros Hg. rewrite G2; [now apply G1|]. now rewrite G1.
Qed.

Lemma evolves_markExpired now r : evolves r (markExpired now r).
Proof.
  unfold evolves. repeat split; try discriminate; auto.
  exists []. cbn. now rewrite app_nil_r.
Qed.

Lemma Forall2_map_same {A} (R : A -> A -> Prop) (f : A -> A) (l : list A) :
  (forall x, In x l -> R x (f x)) -> Forall2 R l (map f l).
Proof.
  induction l as [|x l IH]; intros H; cbn [map]; constructor.
  - apply H. now left.
  - apply IH. intros y Hy. apply H. now right.
Qed.

Lemma Forall2_evolves_trans l1 l2 l3 :
  Forall2 evolves l1 l2 -> Forall2 evolves l2 l3 -> Forall2 evolves l1 l3.
Proof.
  intros H12. revert l3. induction H12 as [|x y l1 l2 Hxy _ IH]; intros l3 H23.
  - inversion H23. constructor.
  - inversion H23; subst. constructor; [eapply evolves_trans; eassumption|auto].
Qed.

Lemma Forall2_evolves_refl rs : Forall2 evolves rs rs.
Proof. induction rs; constructor; [apply evolves_refl|assumption]. Qed.

Lemma evolves_sweepExpired now rs : Forall2 evolves rs (sweepExpired now rs).
Proof.
  rewrite sweepExpired_map. apply Forall2_map_same. intros r _.
  unfold swept. destruct (sweepFilter now r);
    [apply evolves_markExpired|apply evolves_refl].
Qed.

Lemma evolves_sweepOne now rs : Forall2 evolves rs (sweepOne now rs).
Proof.
  induction rs as [|r rs IH]; [constructor|].
  cbn [sweepOne]. destruct (sweepFilter now r); constructor.
  - apply evolves_markExpired.
  - apply Forall2_evolves_refl.
  - apply evolves_refl.
  - exact IH.
Qed.

Lemma ids_sweepOne now rs : map _id (sweepOne now rs) = map _id rs.
Proof.
  induction rs as [|r rs IH]; [reflexivity|].
  cbn [sweepOne]. destruct (sweepFilter now r); cbn [map]; [reflexivity|].
  now rewrite IH.
Qed.

Lemma ids_replace doc rs : map _id (replaceRequest doc rs) = map _id rs.
Proof.
  unfold replaceRequest. rewrite map_map. apply map_ext. intros r.
  destruct (N.eqb (_id r) (_id doc)) eqn:E; [|reflexivity].
  apply N.eqb_eq in E. congruence.
Qed.

Lemma ids_sweepExpired now rs : map _id (sweepExpired now rs) = map _id rs.
Proof.
  rewrite sweepExpired_map, map_map. apply map_ext. intros r. apply swept_id.
Qed.

Lemma unique_by_id rs x y :
  NoDup (map _id rs) -> In x rs -> In y rs -> _id x = _id y -> x = y.
Proof.
  induction rs as [|r rs IH]; intros Hnd Hx Hy E; [destruct Hx|].
  cbn [map] in Hnd. inversion Hnd as [|? ? Hnotin Hnd']; subst.
  destruct Hx as [Hx|Hx], Hy as [Hy|Hy]; subst.
  - reflexivity.
  - exfalso. apply Hnotin. rewrite E. now apply in_map.
  - exfalso. apply Hnotin. rewrite <- E. now apply in_map.
  - now apply IH.
Qed.

Lemma evolves_replace rs requestId r doc :
  NoDup (map _id rs) ->
  lookupRequest requestId rs = Some r ->
  _id doc = _id r ->
  evolves r doc ->
  Forall2 evolves rs (replaceRequest doc rs).
Proof.
  intros Hnd Hr Hid He. apply Forall2_map_same. intros x Hx.
  destruct (N.eqb (_id x) (_id doc)) eqn:E; [|apply evolves_refl].
  apply N.eqb_eq in E. apply lookupRequest_Some in Hr. destruct Hr as [Hin _].
  assert (x = r) by (eapply unique_by_id; eauto; congruence).
  now subst x.
Qed.

Lemma consistent_pending_unassigned r :
  consistent r = true -> status r = pending ->
  provider r = None /\ generatedPin r = None.
Proof.
  unfold consistent. intros H Hst. rewrite Hst in H. cbn in H.
  rewrite !andb_true_iff in H. destruct H as [[[H1 H2] H3] _].
  destruct (history r); [|discriminate]. cbn in H3.
  destruct (generatedPin r); [discriminate|].
  destruct (provider r); [discriminate|]. auto.
Qed.

Lemma evolves_accepted now r caller code :
  consistent r = true -> status r = pending ->
  evolves r (saveLoaded now r
               (set_generatedPin (Some code)
                  (set_provider (Some caller) (set_status in_progress r)))).
Proof.
  intros Hc Hst. destruct (consistent_pending_unassigned r Hc Hst) as [Hp Hg].
  unfold evolves, saveLoaded, preSave_history, preSave_expiration.
  rewrite Hst. cbn. repeat split; try discriminate; try congruence.
  eexists. reflexivity.
Qed.

Lemma evolves_completed now r :
  evolves r (saveLoaded now r (set_status completed r)).
Proof.
  destruct (saveLoaded_completed_fields now r) as (F1 & F2 & F3 & F4 & _ & _ & F7).
  unfold evolves. split; [|split; [|split; [|split]]].
  - unfold fixedPaths, saveLoaded, preSave_history, preSave_expiration.
    destruct (status r); reflexivity.
  - intros _. rewrite F2. discriminate.
  - eexists. exact F7.
  - intros _. exact F3.
  - intros _. exact F4.
Qed.

Lemma evolves_cancelled now r :
  evolves r (saveLoaded now r (set_status cancelled r)).
Proof.
  unfold evolves, saveLoaded, preSave_history, preSave_expiration.
  destruct (status r); cbn; repeat split; try discriminate; auto;
    exists []; now rewrite app_nil_r.
Qed.

Lemma Change_evolves now c rs rs' :
  Change now c rs rs' ->
  NoDup (map _id rs) ->
  forallb consistent rs = true ->
  (forall newId user b, c = Create newId user b -> ~ In newId (map _id rs)) ->
  NoDup (map _id rs') /\
  exists front added, rs' = (front ++ added)%list /\ Forall2 evolves rs front.
Proof.
  intros Hc Hnd Hcons Hfresh.
  assert (Hnd1 : NoDup (map _id (sweepOne now rs))) by now rewrite ids_sweepOne.
  assert (Hsave : forall requestId r doc,
            lookupRequest requestId (sweepOne now rs) = Some r ->
            _id doc = _id r -> evolves r doc ->
            NoDup (map _id (replaceRequest doc (sweepOne now rs))) /\
            exists front added,
              replaceRequest doc (sweepOne now rs) = (front ++ added)%list /\
              Forall2 evolves rs front).
  { intros requestId r doc Hr Hid He. split.
    - now rewrite ids_replace.
    - exists (replaceRequest doc (sweepOne now rs)), []. split;
        [now rewrite app_nil_r|].
      eapply Forall2_evolves_trans; [apply evolves_sweepOne|].
      eapply evolves_replace; eassumption. }
  destruct Hc.
  - split; [exact Hnd|]. exists rs, []. split; [now rewrite app_nil_r|].
    apply Forall2_evolves_refl.
  - split; [exact Hnd1|]. exists (sweepOne now rs), [].
    split; [now rewrite app_nil_r|apply evolves_sweepOne].
  - split; [now rewrite ids_sweepExpired|]. exists (sweepExpired now rs), [].
    split; [now rewrite app_nil_r|apply evolves_sweepExpired].
  - eapply Hsave; [eassumption|rewrite saveLoaded_id; reflexivity|].
    apply evolves_accepted; [|assumption].
    eapply consistent_lookup; [|eassumption]. now apply consistent_sweepOne.
  - eapply Hsave; [eassumption|rewrite saveLoaded_id; reflexivity|apply evolves_completed].
  - eapply Hsave; [eassumption|rewrite saveLoaded_id; reflexivity|apply evolves_cancelled].
  - split.
    + rewrite map_app. cbn [map]. apply NoDup_app; [exact Hnd| |].
      * constructor; [intros []|constructor].
      * intros a Ha [Hb|[]]. subst a. rewrite H0 in Ha.
        eapply Hfresh; eassumption.
    + exists rs, [doc]. split; [reflexivity|apply Forall2_evolves_refl].
Qed.

(** Served one at a time, stored requests only evolve, and keep their
    provider and code.  From a database whose request identifiers are
    distinct and whose requests are consistent, after any sequence of calls
    of the service-request routes, each run to its answer before the next
    begins, whose create calls bring fresh identifiers, the requests stored
    at the start are all still stored,
    in the same order and before any new one, and each has kept its
    identifier, seeker, category, description, contact number, location,
    duration, details and creation time; a request that was no longer
    pending is not pending again; its history has only grown at the end; and
    an assigned provider and a stored code are still the same. *)
Theorem stored_requests_only_evolve
    (centralAngle : Point -> Point -> Q) (cs : list (Z * Call)) (db : DB) :
  NoDup (map _id (requests db)) ->
  forallb consistent (requests db) = true ->
  allFresh centralAngle cs db ->
  exists front added,
    requests (run centralAngle cs db) = (front ++ added)%list /\
    Forall2 evolves (requests db) front.
Proof.
  revert db. induction cs as [|[now c] cs IH]; intros db Hnd Hcons Hfresh.
  - exists (requests db), []. split; [now rewrite app_nil_r|].
    apply Forall2_evolves_refl.
  - cbn [run]. cbn [allFresh] in Hfresh. destruct Hfresh as [Hf Hrest].
    pose proof (perform_Change centralAngle now c db) as Hc.
    destruct (Change_evolves _ _ _ _ Hc Hnd Hcons) as [Hnd' [front1 [added1 [E1 H1]]]].
    { intros newId user b Ec. subst c. exact Hf. }
    pose proof (Change_consistent _ _ _ _ Hc Hcons) as Hcons'.
    destruct (IH _ Hnd' Hcons' Hrest) as [front2 [added2 [E2 H2]]].
    rewrite E1 in H2. apply Forall2_app_inv_l in H2.
    destruct H2 as [fa [fb [Ha [Hb Efb]]]].
    exists fa, (fb ++ added2)%list. split.
    + now rewrite E2, Efb, app_assoc.
    + eapply Forall2_evolves_trans; eassumption.
Qed.

Lemma stored_requests_only_evolve_witness :
  exists front added,
    requests (run Scenario.meridianAngle
                [(600000, Accept (1 # 2) Scenario.asPat 100%N);
                 (700000, Create 101%N Scenario.asAlice Scenario.tapBody);
                 (900000, Complete Scenario.asPat 100%N (Js.Str "550000"))]
                Scenario.dbCreated)
    = (front ++ added)%list /\
    Forall2 evolves (requests Scenario.dbCreated) front.
Proof.
  apply (stored_requests_only_evolve Scenario.meridianAngle
           [(600000, Accept (1 # 2) Scenario.asPat 100%N);
            (700000, Create 101%N Scenario.asAlice Scenario.tapBody);
            (900000, Complete Scenario.asPat 100%N (Js.Str "550000"))]
           Scenario.dbCreated).
  - vm_compute. constructor; [intros []|constructor].
  - reflexivity.
  - vm_compute. repeat split. intros [H|[]]. discriminate.
Defined.

Lemma later_sweep_subsumes_earlier_witness :
  map status (sweepExpired 2000000 (sweepExpired 1000 [Scenario.pendingTap]))
  = map status (sweepExpired 2000000 [Scenario.pendingTap]).
Proof.
  apply (later_sweep_subsumes_earlier 1000 2000000 [Scenario.pendingTap]). lia.
Defined.

(** ** login, logout and the busy guard *)

Section AuthFacts.

Variable emailOf : User -> string.
Variable passwordOf : User -> string.
Variable bcryptCompare : string -> string -> bool.
Variable jwtSign : ObjectId -> Role -> string.

(** A login that fails tells nothing and changes nothing: an unknown
    email and a wrong password get the same answer, 400 'Invalid
    credentials', and the database is left as it was. *)
Lemma login_failures_are_alike (email password : string) (db : DB) :
  (AuthController.findByEmail emailOf email (users db) = None \/
   exists user, AuthController.findByEmail emailOf email (users db) = Some user /\
                bcryptCompare password (passwordOf user) = false) ->
  AuthController.login emailOf passwordOf bcryptCompare jwtSign email password db = (AuthController.Message 400 "Invalid credentials", db).
Proof.
  unfold AuthController.login. intros [H|[user [H Hc]]]; rewrite H; [reflexivity|].
  now rewrite Hc.
Qed.

(** X13. The session calls drive the status of a provider: a successful
    login stores 'online' whatever the status was (in progress included)
    and answers with it, a logout then stores 'offline'; both leave the
    requests untouched. *)
Theorem session_calls_drive_provider_status
    (email password : string) (db : DB) (user : User) :
  AuthController.findByEmail emailOf email (users db) = Some user ->
  bcryptCompare password (passwordOf user) = true ->
  u_role user = provider_role ->
  lookupUser (u_id user) (users db) = Some user ->
  let out := AuthController.login emailOf passwordOf bcryptCompare jwtSign email password db in
  let out' := AuthController.logout (mkReqUser (u_id user) provider_role) (snd out) in
  fst out = AuthController.Session (jwtSign (u_id user) provider_role) (u_id user)
              (userName user) provider_role online /\
  lookupUser (u_id user) (users (snd out)) = Some (set_u_status online user) /\
  requests (snd out) = requests db /\
  lookupUser (u_id user) (users (snd out')) = Some (set_u_status offline user) /\
  requests (snd out') = requests db.
Proof.
  intros Hfind Hcmp Hrole Hid out out'. subst out out'.
  unfold AuthController.login. rewrite Hfind, Hcmp, Hrole. cbn [negb Role_eqb].
  cbn [fst snd u_id u_role userName u_status set_u_status requests users].
  assert (H1 : lookupUser (u_id user) (replaceUser (set_u_status online user) (users db))
               = Some (set_u_status online user)).
  { eapply lookupUser_replace; [exact Hid|reflexivity]. }
  split; [now rewrite Hrole|]. split; [exact H1|]. split; [reflexivity|].
  unfold AuthController.logout. cbn [id users requests]. rewrite H1.
  cbn [u_role set_u_status]. rewrite Hrole. cbn [Role_eqb snd users requests].
  split; [|reflexivity].
  eapply lookupUser_replace; [exact H1|reflexivity].
Qed.

(** X14. Login lifts the busy guard.  The guard of accept reads only the
    status path of the provider, and login rewrites that path: after a
    successful login of a provider, whatever the status was before (in
    progress included), an accept call of that provider for a request found
    pending answers 200. *)
Theorem login_lifts_busy_guard
    (email password : string) (db : DB) (user : User)
    (now : Z) (u : Q) (requestId : ObjectId) (r : Request) :
  AuthController.findByEmail emailOf email (users db) = Some user ->
  bcryptCompare password (passwordOf user) = true ->
  u_role user = provider_role ->
  lookupUser (u_id user) (users db) = Some user ->
  lookupRequest requestId (sweepOne now (requests db)) = Some r ->
  status r = pending ->
  statusCode
    (fst (runHandler
            (acceptRequest now u (mkReqUser (u_id user) provider_role) requestId)
            (snd (AuthController.login emailOf passwordOf bcryptCompare jwtSign email password db)))) = 200.
Proof.
  intros Hfind Hcmp Hrole Hid Hr Hst.
  unfold AuthController.login. rewrite Hfind, Hcmp, Hrole. cbn [negb Role_eqb snd].
  erewrite accept_run with (user := set_u_status online user) (r := r).
  - reflexivity.
  - reflexivity.
  - cbn [id users]. eapply lookupUser_replace; [exact Hid|reflexivity].
  - cbn. discriminate.
  - exact Hr.
  - exact Hst.
Qed.

End AuthFacts.

Lemma session_calls_drive_provider_status_witness :
  lookupUser 10%N
    (users (snd (AuthController.login
                   (fun u => userName u) (fun u => userName u) String.eqb
                   (fun _ _ => "token") "pat" "pat"
                   (mkDB [] [Scenario.alice; set_u_status busy Scenario.pat]))))
  = Some Scenario.pat.
Proof.
  refine (proj1 (proj2
    (session_calls_drive_provider_status
       (fun u => userName u) (fun u => userName u) String.eqb (fun _ _ => "token")
       "pat" "pat" (mkDB [] [Scenario.alice; set_u_status busy Scenario.pat])
       (set_u_status busy Scenario.pat) _ _ _ _))).
  - reflexivity.
  - reflexivity.
  - reflexivity.
  - reflexivity.
Defined.

Lemma login_lifts_busy_guard_witness :
  statusCode
    (fst (runHandler
            (acceptRequest 1000 (1 # 2) (mkReqUser 10%N provider_role) 101%N)
            (snd (AuthController.login
                    (fun u => userName u) (fun u => userName u) String.eqb
                    (fun _ _ => "token") "pat" "pat"
                    (mkDB [Scenario.secondTap]
                          [Scenario.alice; set_u_status busy Scenario.pat])))))
  = 200.
Proof.
  refine (login_lifts_busy_guard
            (fun u => userName u) (fun u => userName u) String.eqb (fun _ _ => "token")
            "pat" "pat"
            (mkDB [Scenario.secondTap] [Scenario.alice; set_u_status busy Scenario.pat])
            (set_u_status busy Scenario.pat) 1000 (1 # 2) 101%N Scenario.secondTap
            _ _ _ _ _ _).
  - reflexivity.
  - reflexivity.
  - reflexivity.
  - reflexivity.
  - reflexivity.
  - reflexivity.
Defined.

(** ** The change-stream listener of the events route *)

(** X15. A change reaches only the two parties of a request.  On an update
    of a stored request, the listener of a connection writes one
    'requestUpdated' event, carrying the request as its lookup finds it,
    exactly when the user of the connection is the seeker of the request or
    its assigned provider, and the lookup leaves the database as the sweep of
    a fetch does; on any other kind of change (an insert of a new request
    included), or once the stream has ended, it writes nothing and leaves
    the database as it was. *)
Theorem change_reaches_parties_only
    (now : Z) (writableEnded : bool) (userId : ObjectId)
    (op : Events.OperationType) (documentKey : ObjectId) (db : DB) :
  (forall e, In e (fst (Events.onChange now writableEnded userId op documentKey db)) ->
     writableEnded = false /\ op = Events.op_update /\
     exists r, e = Events.RequestUpdated r /\
       lookupRequest documentKey (sweepOne now (requests db)) = Some r /\
       (seeker r = userId \/ provider r = Some userId)) /\
  (forall r, lookupRequest documentKey (sweepOne now (requests db)) = Some r ->
     seeker r = userId \/ provider r = Some userId ->
     Events.onChange now false userId Events.op_update documentKey db
     = ([Events.RequestUpdated r], mkDB (sweepOne now (requests db)) (users db))) /\
  (writableEnded = true \/ op <> Events.op_update ->
     Events.onChange now writableEnded userId op documentKey db = ([], db)).
Proof.
  unfold Events.onChange, ServiceRequest_findById, Events.relevantTo.
  split; [|split].
  - intros e He. destruct writableEnded; [destruct He|].
    destruct op; try destruct He.
    destruct (lookupRequest documentKey (sweepOne now (requests db))) as [r|] eqn:Hr;
      [|destruct He].
    destruct (N.eqb (seeker r) userId) eqn:Es; cbn [orb] in He.
    + destruct He as [<-|[]]. apply N.eqb_eq in Es. repeat split.
      exists r. auto.
    + destruct (provider r) as [p|] eqn:Hp; [|destruct He].
      destruct (N.eqb p userId) eqn:Ep; [|destruct He].
      destruct He as [<-|[]]. apply N.eqb_eq in Ep. subst p. repeat split.
      exists r. rewrite Hp. auto.
  - intros r Hr Hparty. rewrite Hr.
    destruct Hparty as [Hs|Hp].
    + rewrite Hs, N.eqb_refl. reflexivity.
    + rewrite Hp, N.eqb_refl, orb_true_r. reflexivity.
  - intros [->|Hop]; [reflexivity|].
    destruct writableEnded; [reflexivity|]. destruct op; try reflexivity.
    now contradiction Hop.
Qed.

(** ** The haversine distance *)

Module GeoFacts.
Import Tracking Geo.
Local Open Scope R_scope.

Lemma half_angle_sin (x : R) : sin (x / 2) * sin (x / 2) = (1 - cos x) / 2.
Proof.
  pose proof (cos_2a_sin (x / 2)) as H.
  replace (2 * (x / 2)) with x in H by Lra.lra. Lra.lra.
Qed.

Lemma cos_central_bound (s1 c1 s2 c2 k : R) :
  s1 * s1 + c1 * c1 = 1 -> s2 * s2 + c2 * c2 = 1 -> -1 <= k <= 1 ->
  -1 <= s1 * s2 + c1 * c2 * k <= 1.
Proof.
  intros H1 H2 [Hk1 Hk2].
  assert (Hk : 0 <= c2 * c2 * (1 - k * k)).
  { apply Rmult_le_pos; [apply Rle_0_sqr|]. nra. }
  split.
  - assert (E : (s1 + s2) * (s1 + s2) + (c1 + c2 * k) * (c1 + c2 * k)
                + c2 * c2 * (1 - k * k)
                = (s1 * s1 + c1 * c1) + (s2 * s2 + c2 * c2)
                  + 2 * (s1 * s2 + c1 * c2 * k)) by ring.
    pose proof (Rle_0_sqr (s1 + s2)) as A. pose proof (Rle_0_sqr (c1 + c2 * k)) as B.
    unfold Rsqr in A, B. rewrite H1, H2 in E. Lra.lra.
  - assert (E : (s1 - s2) * (s1 - s2) + (c1 - c2 * k) * (c1 - c2 * k)
                + c2 * c2 * (1 - k * k)
                = (s1 * s1 + c1 * c1) + (s2 * s2 + c2 * c2)
                  - 2 * (s1 * s2 + c1 * c2 * k)) by ring.
    pose proof (Rle_0_sqr (s1 - s2)) as A. pose proof (Rle_0_sqr (c1 - c2 * k)) as B.
    unfold Rsqr in A, B. rewrite H1, H2 in E. Lra.lra.
Qed.

Lemma sin_cos_one (x : R) : sin x * sin x + cos x * cos x = 1.
Proof. pose proof (sin2_cos2 x) as H. unfold Rsqr in H. exact H. Qed.

Lemma cosCentralAngle_bound lat1 lon1 lat2 lon2 :
  -1 <= cosCentralAngle lat1 lon1 lat2 lon2 <= 1.
Proof.
  unfold cosCentralAngle. apply cos_central_bound.
  - apply sin_cos_one.
  - apply sin_cos_one.
  - apply COS_bound.
Qed.

(** The haversine term is half of one minus the cosine of the central
    angle. *)
Lemma haversine_term lat1 lon1 lat2 lon2 :
  sin ((lat2 - lat1) * PI / 180 / 2) * sin ((lat2 - lat1) * PI / 180 / 2) +
  cos (lat1 * PI / 180) * cos (lat2 * PI / 180) *
  sin ((lon2 - lon1) * PI / 180 / 2) * sin ((lon2 - lon1) * PI / 180 / 2)
  = (1 - cosCentralAngle lat1 lon1 lat2 lon2) / 2.
Proof.
  unfold cosCentralAngle.
  rewrite half_angle_sin.
  replace (cos (lat1 * PI / 180) * cos (lat2 * PI / 180) *
           sin ((lon2 - lon1) * PI / 180 / 2) * sin ((lon2 - lon1) * PI / 180 / 2))
    with (cos (lat1 * PI / 180) * cos (lat2 * PI / 180) *
          (sin ((lon2 - lon1) * PI / 180 / 2) * sin ((lon2 - lon1) * PI / 180 / 2)))
    by ring.
  rewrite half_angle_sin.
  replace ((lat2 - lat1) * PI / 180) with (lat2 * PI / 180 - lat1 * PI / 180)
    by Lra.lra.
  rewrite cos_minus. Lra.lra.
Qed.

Lemma atan_nonneg (y : R) : 0 <= y -> 0 <= atan y.
Proof.
  intros [H|<-].
  - left. rewrite <- atan_0. now apply atan_increasing.
  - rewrite atan_0. Lra.lra.
Qed.

(** [2 * atan2(sqrt a, sqrt (1 - a))] is the angle whose cosine is
    [1 - 2 a]. *)
Lemma two_atan2_sqrt (a : R) :
  0 <= a <= 1 -> 2 * atan2 (sqrt a) (sqrt (1 - a)) = acos (1 - 2 * a).
Proof.
  intros [Ha0 Ha1]. unfold atan2.
  destruct (Rlt_dec 0 (sqrt (1 - a))) as [Hpos|Hnpos].
  - assert (Ha : a < 1).
    { destruct (Rle_lt_dec 1 a) as [H|H]; [|exact H].
      replace (1 - a) with 0 in Hpos by Lra.lra. rewrite sqrt_0 in Hpos. Lra.lra. }
    set (y := sqrt a / sqrt (1 - a)).
    assert (Hy0 : 0 <= y).
    { unfold y, Rdiv. apply Rmult_le_pos; [apply sqrt_pos|].
      left. now apply Rinv_0_lt_compat. }
    assert (Hyy : y * y = a / (1 - a)).
    { unfold y.
      replace (sqrt a / sqrt (1 - a) * (sqrt a / sqrt (1 - a)))
        with (sqrt a * sqrt a / (sqrt (1 - a) * sqrt (1 - a)))
        by (field; apply Rgt_not_eq; exact Hpos).
      rewrite !sqrt_sqrt by Lra.lra. reflexivity. }
    assert (Hsin : sin (atan y) * sin (atan y) = a).
    { rewrite sin_atan. unfold Rsqr.
      assert (Hs : 0 < 1 + y * y) by nra.
      replace (y / sqrt (1 + y * y) * (y / sqrt (1 + y * y)))
        with (y * y / (sqrt (1 + y * y) * sqrt (1 + y * y))).
      - rewrite sqrt_sqrt by Lra.lra. rewrite Hyy. field. Lra.lra.
      - field. apply Rgt_not_eq. now apply sqrt_lt_R0. }
    assert (Hcos : cos (2 * atan y) = 1 - 2 * a).
    { rewrite cos_2a_sin. rewrite Rmult_assoc, Hsin. reflexivity. }
    rewrite <- Hcos. symmetry. apply acos_cos.
    pose proof (atan_bound y). pose proof (atan_nonneg y Hy0). Lra.lra.
  - assert (Hz : sqrt (1 - a) = 0).
    { pose proof (sqrt_pos (1 - a)). Lra.lra. }
    assert (Ha : a = 1).
    { apply sqrt_eq_0 in Hz; Lra.lra. }
    subst a. rewrite sqrt_1.
    destruct (Rlt_dec (sqrt (1 - 1)) 0) as [H|_];
      [pose proof (sqrt_pos (1 - 1)); Lra.lra|].
    destruct (Rlt_dec 0 1) as [_|H]; [|Lra.lra].
    replace (1 - 2 * 1) with (cos PI) by (rewrite cos_PI; Lra.lra).
    rewrite acos_cos; [Lra.lra|]. pose proof PI_RGT_0. Lra.lra.
Qed.

Lemma haversine_angle lat1 lon1 lat2 lon2 :
  2 * atan2
        (sqrt (sin ((lat2 - lat1) * PI / 180 / 2) * sin ((lat2 - lat1) * PI / 180 / 2) +
               cos (lat1 * PI / 180) * cos (lat2 * PI / 180) *
               sin ((lon2 - lon1) * PI / 180 / 2) * sin ((lon2 - lon1) * PI / 180 / 2)))
        (sqrt (1 - (sin ((lat2 - lat1) * PI / 180 / 2) * sin ((lat2 - lat1) * PI / 180 / 2) +
                    cos (lat1 * PI / 180) * cos (lat2 * PI / 180) *
                    sin ((lon2 - lon1) * PI / 180 / 2) * sin ((lon2 - lon1) * PI / 180 / 2))))
  = acos (cosCentralAngle lat1 lon1 lat2 lon2).
Proof.
  rewrite haversine_term.
  pose proof (cosCentralAngle_bound lat1 lon1 lat2 lon2) as [Hl Hu].
  rewrite two_atan2_sqrt by Lra.lra.
  f_equal. Lra.lra.
Qed.

Lemma cosCentralAngle_sym lat1 lon1 lat2 lon2 :
  cosCentralAngle lat2 lon2 lat1 lon1 = cosCentralAngle lat1 lon1 lat2 lon2.
Proof.
  unfold cosCentralAngle.
  replace ((lon1 - lon2) * PI / 180) with (- ((lon2 - lon1) * PI / 180)) by Lra.lra.
  rewrite cos_neg. ring.
Qed.

End GeoFacts.

(** X16. The haversine formula of the tracking service computes the
    great-circle distance: for all coordinates, in degrees,
    [_calculateDistance] is the Earth radius, 6371000 metres, times the
    central angle between the two points, the angle whose cosine the
    spherical law of cosines gives; in particular the term under the square
    roots lies between 0 and 1. *)
Theorem _calculateDistance_is_great_circle (lat1 lon1 lat2 lon2 : R) :
  Tracking._calculateDistance lat1 lon1 lat2 lon2
  = Geo.greatCircleDistance lat1 lon1 lat2 lon2.
Proof.
  unfold Tracking._calculateDistance, Geo.greatCircleDistance. cbv zeta.
  now rewrite GeoFacts.haversine_angle.
Qed.

(** X17. The distance of the tracking service is symmetric, never negative
    and never more than half the circumference of the sphere,
    [PI * 6371000] metres. *)
Theorem _calculateDistance_symmetric_and_bounded (lat1 lon1 lat2 lon2 : R) :
  Tracking._calculateDistance lat2 lon2 lat1 lon1
  = Tracking._calculateDistance lat1 lon1 lat2 lon2 /\
  (0 <= Tracking._calculateDistance lat1 lon1 lat2 lon2 <= PI * 6371000)%R.
Proof.
  unfold Tracking._calculateDistance. cbv zeta.
  rewrite !GeoFacts.haversine_angle, GeoFacts.cosCentralAngle_sym.
  split; [reflexivity|].
  pose proof (acos_bound (Geo.cosCentralAngle lat1 lon1 lat2 lon2)) as [H0 H1].
  split; [apply Rmult_le_pos; [Lra.lra|exact H0]|].
  rewrite Rmult_comm. apply Rmult_le_compat_r; [Lra.lra|exact H1].
Qed.

(** X18. The three distance functions of the client agree: the distance of
    the map and the distance of the location service, both in kilometres,
    are equal, and the distance of the tracking service, in metres, is 1000
    times that. *)
Theorem client_distances_agree (p1 p2 : Geo.LatLng) :
  Geo.calculateDistanceInKm p1 p2 = Geo._haversineDistance p1 p2 /\
  (Tracking._calculateDistance (Geo.lat p1) (Geo.lng p1) (Geo.lat p2) (Geo.lng p2)
   = 1000 * Geo._haversineDistance p1 p2)%R.
Proof.
  unfold Geo.calculateDistanceInKm, Geo._haversineDistance, Geo.deg2rad,
    Tracking._calculateDistance. cbv zeta.
  split.
  - replace ((Geo.lat p2 - Geo.lat p1) * (PI / 180))%R
      with ((Geo.lat p2 - Geo.lat p1) * PI / 180)%R by Lra.lra.
    replace ((Geo.lng p2 - Geo.lng p1) * (PI / 180))%R
      with ((Geo.lng p2 - Geo.lng p1) * PI / 180)%R by Lra.lra.
    replace (Geo.lat p1 * (PI / 180))%R with (Geo.lat p1 * PI / 180)%R by Lra.lra.
    replace (Geo.lat p2 * (PI / 180))%R with (Geo.lat p2 * PI / 180)%R by Lra.lra.
    reflexivity.
  - Lra.lra.
Qed.

(** ** Readings in sequence *)

Lemma handle_keeps_settings (socketProvider : bool) (this : Tracking.Service)
    (position : Tracking.Position) :
  Tracking.trackingOptions (fst (Tracking._handlePositionUpdate socketProvider this position))
  = Tracking.trackingOptions this /\
  Tracking.batteryFriendly (fst (Tracking._handlePositionUpdate socketProvider this position))
  = Tracking.batteryFriendly this /\
  Tracking.minAccuracy (fst (Tracking._handlePositionUpdate socketProvider this position))
  = Tracking.minAccuracy this.
Proof.
  unfold Tracking._handlePositionUpdate.
  destruct (Tracking._shouldUpdatePosition this position); cbn; auto.
Qed.

(** X19. In battery-friendly mode a reading of poor accuracy is never
    propagated once a position has been: however many readings whose
    accuracy exceeds [minAccuracy] arrive, however far from the last
    position and however long after it, the service is left as it was and
    nothing is notified, stored or sent. *)
Theorem poor_readings_are_never_propagated
    (socketProvider : bool) (this : Tracking.Service) (last : Tracking.Position)
    (readings : list Tracking.Position) :
  Tracking.batteryFriendly this = true ->
  Tracking.lastPosition this = Some last ->
  Forall (fun p => (Tracking.accuracy (Tracking.coords p) > Tracking.minAccuracy this)%R)
         readings ->
  Geo.feed socketProvider this readings = (this, []).
Proof.
  intros Hb Hl Hall. induction Hall as [|p rest Hp _ IH]; [reflexivity|].
  cbn [Geo.feed].
  assert (E : Tracking._handlePositionUpdate socketProvider this p = (this, [])).
  { unfold Tracking._handlePositionUpdate, Tracking._shouldUpdatePosition.
    rewrite Hl, Hb. apply TrackingFacts.gtb_true in Hp. now rewrite Hp. }
  rewrite E, IH. reflexivity.
Qed.

Lemma poor_readings_are_never_propagated_witness :
  Geo.feed true
    (Tracking.mkService
       (Some (Tracking.mkPosition (Tracking.mkCoords (1297 / 100) (7759 / 100) 10) 0))
       (Tracking.trackingOptions Tracking.constructor) true 50)
    [Tracking.mkPosition (Tracking.mkCoords (1397 / 100) (7759 / 100) 80) 500000]
  = (Tracking.mkService
       (Some (Tracking.mkPosition (Tracking.mkCoords (1297 / 100) (7759 / 100) 10) 0))
       (Tracking.trackingOptions Tracking.constructor) true 50, []).
Proof.
  apply (poor_readings_are_never_propagated true
    (Tracking.mkService
       (Some (Tracking.mkPosition (Tracking.mkCoords (1297 / 100) (7759 / 100) 10) 0))
       (Tracking.trackingOptions Tracking.constructor) true 50)
    (Tracking.mkPosition (Tracking.mkCoords (1297 / 100) (7759 / 100) 10) 0)
    [Tracking.mkPosition (Tracking.mkCoords (1397 / 100) (7759 / 100) 80) 500000]).
  - reflexivity.
  - reflexivity.
  - constructor; [simpl; Lra.lra|constructor].
Defined.

(** X20. The last position the service holds is the reading its listeners
    were given last: after any sequence of readings, [lastPosition] is the
    last reading notified to the listeners, or what it was before if none
    was notified; and the settings of the service (tracking options,
    battery-friendly mode, minimum accuracy) are as before. *)
Theorem last_position_is_last_notified
    (socketProvider : bool) (readings : list Tracking.Position)
    (this : Tracking.Service) :
  Tracking.lastPosition (fst (Geo.feed socketProvider this readings))
  = match Geo.lastNotified (snd (Geo.feed socketProvider this readings)) with
    | Some p => Some p
    | None => Tracking.lastPosition this
    end /\
  Tracking.trackingOptions (fst (Geo.feed socketProvider this readings))
  = Tracking.trackingOptions this /\
  Tracking.batteryFriendly (fst (Geo.feed socketProvider this readings))
  = Tracking.batteryFriendly this /\
  Tracking.minAccuracy (fst (Geo.feed socketProvider this readings))
  = Tracking.minAccuracy this.
Proof.
  revert this. induction readings as [|p rest IH]; intros this; [cbn; auto|].
  cbn [Geo.feed].
  destruct (handle_keeps_settings socketProvider this p) as (S1 & S2 & S3).
  destruct (Tracking._handlePositionUpdate socketProvider this p) as [this1 e1] eqn:E1.
  specialize (IH this1).
  destruct (Geo.feed socketProvider this1 rest) as [this2 e2] eqn:E2.
  cbn [fst snd] in *. destruct IH as (I0 & I1 & I2 & I3).
  split; [|repeat split; congruence].
  rewrite I0. unfold Tracking._handlePositionUpdate in E1.
  destruct (Tracking._shouldUpdatePosition this p); inversion E1; subst; clear E1.
  - cbn [app Geo.lastNotified Tracking.lastPosition].
    destruct socketProvider; cbn [app Geo.lastNotified];
      destruct (Geo.lastNotified e2); reflexivity.
  - reflexivity.
Qed.

(** ** The socket service: queue and reconnection *)

Module SocketFacts.
Import SocketService.

Section Facts.

Context {Data : Type} {Callback : Type}.
Variable emitThrows : @Message Data Callback -> bool.
Variable hasErrorHandler : bool.

Lemma socket_run_app (this : @State Data Callback) (es1 es2 : list Event) :
  run emitThrows hasErrorHandler this (es1 ++ es2)
  = let (this1, out1) := run emitThrows hasErrorHandler this es1 in
    let (this2, out2) := run emitThrows hasErrorHandler this1 es2 in
    (this2, (out1 ++ out2)%list).
Proof.
  revert this. induction es1 as [|e es1 IH]; intros this.
  - cbn. now destruct (run emitThrows hasErrorHandler this es2).
  - cbn [app run].
    destruct (step emitThrows hasErrorHandler this e) as [this1 out1].
    rewrite IH.
    destruct (run emitThrows hasErrorHandler this1 es1) as [this2 out2].
    destruct (run emitThrows hasErrorHandler this2 es2) as [this3 out3].
    now rewrite app_assoc.
Qed.

Lemma socket_emitted_app (o1 o2 : list (@Output Data Callback)) :
  emitted (o1 ++ o2) = (emitted o1 ++ emitted o2)%list.
Proof.
  induction o1 as [|o o1 IH]; [reflexivity|].
  destruct o; cbn; now rewrite ?IH.
Qed.

(** While the service is not connected, calls to emit only lengthen the
    queue. *)
Lemma socket_queue_offline (ms : list (@Message Data Callback)) (this : State) :
  connected this = false ->
  run emitThrows hasErrorHandler this (map CallEmit ms)
  = (mkState (socket this) false (reconnecting this) (reconnectAttempts this)
       (currentReconnectDelay this) (reconnectTimerId this)
       (pendingMessages this ++ ms) (connectionErrorShown this), []).
Proof.
  revert this. induction ms as [|m ms IH]; intros this Hc.
  - cbn. rewrite app_nil_r. destruct this; cbn in *. now subst.
  - cbn [map run step]. unfold emitWithErrorHandling. rewrite Hc.
    rewrite orb_true_r. rewrite IH by reflexivity.
    cbn. now rewrite <- app_assoc.
Qed.

(** While the service is connected, each message is given to the socket
    unless [emit] throws on it, and the state does not change. *)
Lemma socket_emitAll_online (ms : list (@Message Data Callback)) (this : State) :
  socket this = true ->
  connected this = true ->
  emitAll emitThrows ms this
  = (this, map Emit (filter (fun m => negb (emitThrows m)) ms)).
Proof.
  intros Hs Hc. induction ms as [|m ms IH]; [reflexivity|].
  cbn [emitAll]. unfold emitWithErrorHandling.
  rewrite Hs, Hc. cbn [negb orb filter].
  destruct (emitThrows m); cbn [negb]; rewrite IH; reflexivity.
Qed.

Lemma socket_emitted_map (ms : list (@Message Data Callback)) :
  emitted (map Emit ms) = ms.
Proof. induction ms as [|m ms IH]; [reflexivity|]. cbn. now rewrite IH. Qed.

Lemma socket_timersSet_app (o1 o2 : list (@Output Data Callback)) :
  timersSet (o1 ++ o2) = (timersSet o1 + timersSet o2)%nat.
Proof.
  induction o1 as [|o o1 IH]; [reflexivity|].
  destruct o; cbn; now rewrite ?IH.
Qed.

Lemma socket_gaveUp_app (o1 o2 : list (@Output Data Callback)) :
  gaveUp (o1 ++ o2) = gaveUp o1 || gaveUp o2.
Proof. apply existsb_app. Qed.

(** What a handler may do to the reconnection state, given what it was. *)
Lemma socket_emitAll_quiet (ms : list (@Message Data Callback)) (this : State) :
  reconnecting (fst (emitAll emitThrows ms this)) = reconnecting this /\
  reconnectAttempts (fst (emitAll emitThrows ms this)) = reconnectAttempts this /\
  timersSet (snd (emitAll emitThrows ms this)) = 0%nat /\
  gaveUp (snd (emitAll emitThrows ms this)) = false.
Proof.
  revert this. induction ms as [|m ms IH]; intros this; [cbn; auto|].
  cbn [emitAll]. unfold emitWithErrorHandling.
  destruct (negb (socket this) || negb (connected this));
    [|destruct (emitThrows m)].
  - specialize (IH (mkState (socket this) (connected this) (reconnecting this)
                      (reconnectAttempts this) (currentReconnectDelay this)
                      (reconnectTimerId this) (pendingMessages this ++ [m])
                      (connectionErrorShown this))).
    destruct (emitAll emitThrows ms _) as [s2 o2]. exact IH.
  - specialize (IH this). destruct (emitAll emitThrows ms this) as [s2 o2]. exact IH.
  - specialize (IH this). destruct (emitAll emitThrows ms this) as [s2 o2].
    cbn [fst snd app timersSet gaveUp existsb orb] in *. exact IH.
Qed.

Lemma socket_scheduleReconnect_step (u : Q) (this : @State Data Callback) :
  coupled this ->
  coupled (fst (scheduleReconnect u this)) /\
  (timersSet (snd (scheduleReconnect u this)) + budget (fst (scheduleReconnect u this))
   <= budget this)%nat /\
  gaveUp (snd (scheduleReconnect u this)) = false.
Proof.
  unfold coupled, budget, scheduleReconnect.
  intros Hc. destruct (reconnecting this) eqn:Hr.
  - cbn. rewrite Hr. auto.
  - rewrite Hc. cbn. auto.
Qed.

Lemma socket_handleConnectionError_step (u : Q) (this : @State Data Callback) :
  coupled this ->
  coupled (fst (handleConnectionError u this)) /\
  (timersSet (snd (handleConnectionError u this))
   + budget (fst (handleConnectionError u this)) <= budget this)%nat /\
  gaveUp (snd (handleConnectionError u this)) = false.
Proof.
  intros Hc. unfold handleConnectionError.
  set (this1 := mkState _ false _ _ _ _ _ true).
  assert (H1 : coupled this1) by exact Hc.
  destruct (socket_scheduleReconnect_step u this1 H1) as (A & B & C).
  destruct (scheduleReconnect u this1) as [this2 out2].
  cbn [fst snd] in *.
  rewrite socket_timersSet_app, socket_gaveUp_app, C.
  change (budget this) with (budget this1).
  destruct (connectionErrorShown this); cbn; auto.
Qed.

Lemma socket_connect_step (ioThrows : bool) (u : Q) (this : @State Data Callback) :
  coupled this ->
  coupled (fst (connect ioThrows u this)) /\
  (timersSet (snd (connect ioThrows u this))
   + budget (fst (connect ioThrows u this)) <= budget this)%nat /\
  gaveUp (snd (connect ioThrows u this)) = false.
Proof.
  intros Hc. unfold connect.
  set (this1 := mkState _ _ _ _ _ false _ _).
  destruct ioThrows.
  - assert (H1 : coupled this1) by exact Hc.
    destruct (socket_handleConnectionError_step u this1 H1) as (A & B & C).
    destruct (handleConnectionError u this1) as [this2 out2].
    cbn [fst snd] in *.
    rewrite socket_timersSet_app, socket_gaveUp_app, C.
    change (budget this) with (budget this1).
    destruct (reconnectTimerId this); cbn; auto.
  - cbn [fst snd]. split; [exact Hc|].
    change (budget (mkState true (connected this1) (reconnecting this1)
                      (reconnectAttempts this1) (currentReconnectDelay this1) false
                      (pendingMessages this1) (connectionErrorShown this1)))
      with (budget this).
    destruct (reconnectTimerId this); cbn; auto.
Qed.

(** One event: the flag and the counter stay coupled, a timer is set only
    out of the budget, which only a connection refills, and the service
    does not give up. *)
Lemma socket_step_invariant (this : @State Data Callback) (e : Event) :
  coupled this ->
  coupled (fst (step emitThrows hasErrorHandler this e)) /\
  (timersSet (snd (step emitThrows hasErrorHandler this e))
   + budget (fst (step emitThrows hasErrorHandler this e))
   <= budget this + connections [e])%nat /\
  gaveUp (snd (step emitThrows hasErrorHandler this e)) = false.
Proof.
  intros Hc. destruct e as [|reason u|u|isAuth message|ioThrows u|ioThrows u| |m];
    cbn [step connections].
  - (* connect *)
    unfold handleSuccessfulConnection, sendPendingMessages.
    cbn [pendingMessages].
    destruct (pendingMessages this) as [|m ms].
    + cbn. repeat split; try reflexivity. destruct (budget this); lia.
    + match goal with |- context [emitAll _ _ ?s] => set (this1 := s) end.
      destruct (socket_emitAll_quiet (m :: ms) this1) as (A & B & C & D).
      destruct (emitAll emitThrows (m :: ms) this1) as [s2 o2].
      cbn [fst snd] in *. unfold coupled, budget in *.
      rewrite A, B, C, D. cbn. repeat split; try reflexivity.
      destruct (reconnecting this); lia.
  - (* disconnect *)
    unfold handleDisconnection.
    set (this1 := mkState _ false _ _ _ _ _ _).
    destruct (existsb (String.eqb reason) intentionalDisconnects).
    + cbn [fst snd]. split; [exact Hc|]. split; [|reflexivity].
      change (budget this1) with (budget this). cbn. lia.
    + assert (H1 : coupled this1) by exact Hc.
      destruct (socket_scheduleReconnect_step u this1 H1) as (A & B & C).
      change (budget this1) with (budget this) in B.
      repeat split; try assumption. lia.
  - (* connect_error *)
    destruct (socket_handleConnectionError_step u this Hc) as (A & B & C).
    repeat split; try assumption. lia.
  - (* error *)
    destruct isAuth.
    + unfold handleAuthError.
      destruct (reconnectTimerId this), hasErrorHandler; cbn [fst snd];
        (split; [exact Hc|]); (split; [|reflexivity]);
        unfold budget; cbn; lia.
    + cbn [fst snd]. split; [exact Hc|]. split; [|reflexivity].
      cbn. lia.
  - (* the timer *)
    set (this1 := mkState _ _ _ _ _ false _ _).
    assert (H1 : coupled this1) by exact Hc.
    destruct (socket_connect_step ioThrows u this1 H1) as (A & B & C).
    change (budget this1) with (budget this) in B.
    repeat split; try assumption. lia.
  - destruct (socket_connect_step ioThrows u this Hc) as (A & B & C).
    repeat split; try assumption. lia.
  - unfold disconnect. cbn [fst snd]. split; [exact Hc|]. split.
    + unfold budget. cbn [reconnecting].
      rewrite socket_timersSet_app.
      destruct (socket this), (reconnectTimerId this); cbn; lia.
    + rewrite socket_gaveUp_app.
      destruct (socket this), (reconnectTimerId this); reflexivity.
  - unfold emitWithErrorHandling.
    destruct (negb (socket this) || negb (connected this));
      [|destruct (emitThrows m)]; cbn [fst snd];
      (split; [exact Hc|]); (split; [|reflexivity]);
      unfold budget; cbn; lia.
Qed.

Lemma socket_connections_app (es1 es2 : list (@Event Data Callback)) :
  connections (es1 ++ es2) = (connections es1 + connections es2)%nat.
Proof.
  induction es1 as [|e es1 IH]; [reflexivity|].
  destruct e; cbn; now rewrite ?IH.
Qed.

Lemma socket_run_invariant (es : list Event) (this : @State Data Callback) :
  coupled this ->
  coupled (fst (run emitThrows hasErrorHandler this es)) /\
  (timersSet (snd (run emitThrows hasErrorHandler this es))
   + budget (fst (run emitThrows hasErrorHandler this es))
   <= budget this + connections es)%nat /\
  gaveUp (snd (run emitThrows hasErrorHandler this es)) = false.
Proof.
  revert this. induction es as [|e es IH]; intros this Hc.
  - cbn. repeat split; try assumption. lia.
  - change (e :: es) with ([e] ++ es)%list at 4.
    rewrite socket_connections_app. cbn [run].
    destruct (socket_step_invariant this e Hc) as (A & B & C).
    destruct (step emitThrows hasErrorHandler this e) as [this1 out1].
    cbn [fst snd] in *.
    destruct (IH this1 A) as (A2 & B2 & C2).
    destruct (run emitThrows hasErrorHandler this1 es) as [this2 out2].
    cbn [fst snd] in *.
    rewrite socket_timersSet_app, socket_gaveUp_app, C, C2.
    repeat split; try assumption. lia.
Qed.

End Facts.

End SocketFacts.

(** X21. Messages emitted while the service is offline are queued, and the next
    connection gives the whole queue to the socket in the order of the
    calls, older messages first; a message on which [emit] throws is lost.
    Afterwards the queue is empty. *)
Theorem queued_messages_are_delivered_in_order
    (Data Callback : Type)
    (emitThrows : @SocketService.Message Data Callback -> bool)
    (hasErrorHandler : bool)
    (this : @SocketService.State Data Callback)
    (ms : list (@SocketService.Message Data Callback)) :
  SocketService.socket this = true ->
  SocketService.connected this = false ->
  let offline :=
    SocketService.run emitThrows hasErrorHandler this
      (map SocketService.CallEmit ms) in
  let online :=
    SocketService.run emitThrows hasErrorHandler this
      (map SocketService.CallEmit ms ++ [SocketService.OnConnect]) in
  snd offline = [] /\
  SocketService.pendingMessages (fst offline)
  = (SocketService.pendingMessages this ++ ms)%list /\
  SocketService.emitted (snd online)
  = filter (fun m => negb (emitThrows m))
      (SocketService.pendingMessages this ++ ms) /\
  SocketService.pendingMessages (fst online) = [] /\
  SocketService.connected (fst online) = true.
Proof.
  intros Hs Hc offline online. subst offline online.
  rewrite SocketFacts.socket_run_app.
  rewrite (SocketFacts.socket_queue_offline emitThrows hasErrorHandler ms this Hc).
  cbn [fst snd]. split; [reflexivity|]. split; [reflexivity|].
  cbn [SocketService.run SocketService.step].
  unfold SocketService.handleSuccessfulConnection, SocketService.sendPendingMessages.
  cbn [SocketService.pendingMessages SocketService.socket
       SocketService.connected SocketService.reconnectTimerId].
  destruct (SocketService.pendingMessages this ++ ms)%list as [|m q] eqn:Hq.
  - cbn. auto.
  - rewrite SocketFacts.socket_emitAll_online by (cbn; auto).
    cbn [fst snd app]. rewrite app_nil_r, SocketFacts.socket_emitted_map.
    auto.
Qed.

Lemma queued_messages_are_delivered_in_order_witness :
  let this :=
    SocketService.mkState true false false 0 1000 false
      [SocketService.mkMessage "updateLocation" 1 (@None unit)] false in
  let ms :=
    [SocketService.mkMessage "findNearbyProviders" 2 None;
     SocketService.mkMessage "requestStatusUpdate" 3 None] in
  SocketService.emitted
    (snd (SocketService.run (fun m => SocketService.data m =? 2) false this
            (map SocketService.CallEmit ms ++ [SocketService.OnConnect])))
  = [SocketService.mkMessage "updateLocation" 1 None;
     SocketService.mkMessage "requestStatusUpdate" 3 None].
Proof.
  intros this ms.
  refine (proj1 (proj2 (proj2
    (queued_messages_are_delivered_in_order Z unit
       (fun m => SocketService.data m =? 2) false this ms _ _)))).
  - reflexivity.
  - reflexivity.
Defined.

(** X22. Whatever happens to a new service, it sets at most one reconnection
    timer per successful connection, plus one: [reconnecting] is cleared only
    by a connection, so after a failed attempt nothing is scheduled again.
    The attempt counter never passes 1 and the service never announces that
    it gives up after 10 attempts. *)
Theorem reconnection_is_tried_once_per_connection
    (Data Callback : Type)
    (emitThrows : @SocketService.Message Data Callback -> bool)
    (hasErrorHandler : bool)
    (es : list (@SocketService.Event Data Callback)) :
  let after :=
    SocketService.run emitThrows hasErrorHandler SocketService.constructor es in
  (SocketService.timersSet (snd after) <= 1 + SocketService.connections es)%nat /\
  0 <= SocketService.reconnectAttempts (fst after) <= 1 /\
  SocketService.gaveUp (snd after) = false.
Proof.
  intros after. subst after.
  assert (H0 : SocketService.coupled (@SocketService.constructor Data Callback))
    by reflexivity.
  destruct (SocketFacts.socket_run_invariant emitThrows hasErrorHandler es _ H0)
    as (A & B & C).
  destruct (SocketService.run emitThrows hasErrorHandler
              SocketService.constructor es) as [this out].
  cbn [fst snd] in *. unfold SocketService.coupled, SocketService.budget in *.
  cbn [SocketService.reconnecting SocketService.constructor] in B.
  split; [lia|]. split; [|exact C].
  rewrite A. destruct (SocketService.reconnecting this); lia.
Qed.

(** ** The event service: bounded back-off *)

Module EventFacts.
Import EventService.

Section Facts.

Variable hasErrorHandler : bool.

Lemma event_delays_app (o1 o2 : list Output) :
  delays (o1 ++ o2) = (delays o1 ++ delays o2)%list.
Proof.
  induction o1 as [|o o1 IH]; [reflexivity|].
  destruct o; cbn; now rewrite ?IH.
Qed.

Lemma event_delays_showAlert (title message kind : string) :
  delays (showAlert hasErrorHandler title message kind) = [].
Proof. unfold showAlert. now destruct hasErrorHandler. Qed.

Lemma event_opens_app (es1 es2 : list Event) :
  opens (es1 ++ es2) = (opens es1 + opens es2)%nat.
Proof.
  induction es1 as [|e es1 IH]; [reflexivity|].
  destruct e; cbn; now rewrite ?IH.
Qed.

Lemma event_min_spec (a b : Q) :
  (SocketService.min a b <= b)%Q /\
  (SocketService.min a b <= a)%Q /\
  (SocketService.min a b == a \/ SocketService.min a b == b)%Q.
Proof.
  unfold SocketService.min. destruct (Qle_bool a b) eqn:E.
  - apply Qle_bool_iff in E. repeat split; try assumption; try apply Qle_refl.
    left. reflexivity.
  - assert (H : (b < a)%Q).
    { apply Qnot_le_lt. intros H. apply Qle_bool_iff in H. congruence. }
    repeat split; try apply Qle_refl; [now apply Qlt_le_weak|].
    right. reflexivity.
Qed.

Lemma event_backoff_bound (cur u : Q) :
  (5000 <= cur)%Q -> (0 <= u)%Q ->
  (6375 <= SocketService.min (cur * (3 # 2) * SocketService.jitterOf u) 60000)%Q /\
  (SocketService.min (cur * (3 # 2) * SocketService.jitterOf u) 60000 <= 60000)%Q.
Proof.
  intros Hc Hu.
  destruct (event_min_spec (cur * (3 # 2) * SocketService.jitterOf u) 60000)
    as (A & B & C).
  split; [|exact A].
  assert (H : (6375 <= cur * (3 # 2) * SocketService.jitterOf u)%Q).
  { unfold SocketService.jitterOf.
    assert (H1 : (0 <= (cur - 5000) * u)%Q).
    { apply Qmult_le_0_compat; [|exact Hu]. Lqa.lra. }
    Lqa.lra. }
  destruct C as [C|C]; rewrite C; [exact H|Lqa.lra].
Qed.

Lemma event_scheduleReconnect_step (u : Q) (this : State) :
  (List.length (delays (snd (scheduleReconnect hasErrorHandler u this)))
   + budget (fst (scheduleReconnect hasErrorHandler u this)) <= budget this)%nat /\
  ((0 <= u)%Q -> bounded this ->
   bounded (fst (scheduleReconnect hasErrorHandler u this)) /\
   Forall delayOk (delays (snd (scheduleReconnect hasErrorHandler u this)))).
Proof.
  unfold scheduleReconnect, budget, maxReconnectAttempts.
  cbn [Z.eqb negb andb].
  destruct (10 <? reconnectAttempts this + 1) eqn:E.
  - cbn [fst snd reconnectAttempts currentReconnectTimeout].
    apply Z.ltb_lt in E.
    rewrite event_delays_showAlert. cbn [List.length]. split; [lia|].
    intros _ Hb. split; [exact Hb|constructor].
  - apply Z.ltb_ge in E.
    cbn [fst snd reconnectAttempts currentReconnectTimeout delays List.length].
    split; [lia|].
    intros Hu [Hb _]. unfold bounded, delayOk, reconnectTimeout, maxReconnectTimeout in *.
    destruct (event_backoff_bound (currentReconnectTimeout this) u Hb Hu) as [A B].
    split.
    + split; cbn [currentReconnectTimeout]; [Lqa.lra|exact B].
    + constructor; [split; assumption|constructor].
Qed.

Lemma event_disconnect_step (this : State) :
  delays (snd (disconnect this)) = [] /\
  currentReconnectTimeout (fst (disconnect this)) = currentReconnectTimeout this /\
  reconnectAttempts (fst (disconnect this)) = reconnectAttempts this.
Proof. unfold disconnect. destruct (eventSource this); cbn; auto. Qed.

(** [budget] and [bounded] look at the counter and the timeout only. *)
Lemma event_budget_ext (this1 this2 : State) :
  reconnectAttempts this1 = reconnectAttempts this2 ->
  budget this1 = budget this2.
Proof. unfold budget. now intros ->. Qed.

Lemma event_bounded_ext (this1 this2 : State) :
  currentReconnectTimeout this1 = currentReconnectTimeout this2 ->
  bounded this1 -> bounded this2.
Proof. unfold bounded. now intros ->. Qed.

Lemma event_connect_step (throws : bool) (u : Q) (this : State) :
  (List.length (delays (snd (connect hasErrorHandler throws u this)))
   + budget (fst (connect hasErrorHandler throws u this)) <= budget this)%nat /\
  ((0 <= u)%Q -> bounded this ->
   bounded (fst (connect hasErrorHandler throws u this)) /\
   Forall delayOk (delays (snd (connect hasErrorHandler throws u this)))).
Proof.
  unfold connect.
  destruct (event_disconnect_step this) as (D1 & D2 & D3).
  destruct (disconnect this) as [this1 out1]. cbn [fst snd] in *.
  destruct throws.
  - set (this2 := mkState _ _ _ false true).
    destruct (event_scheduleReconnect_step u this2) as [A B].
    destruct (scheduleReconnect hasErrorHandler u this2) as [this3 out3].
    cbn [fst snd] in *.
    rewrite !event_delays_app, D1.
    assert (E : delays (if connectionErrorShown this1 then []
                        else showAlert hasErrorHandler "Connection Error"
                               "Failed to establish real-time connection. Some features may be limited. Retrying..."
                               "warning") = []).
    { destruct (connectionErrorShown this1);
        [reflexivity|apply event_delays_showAlert]. }
    rewrite E. cbn [app].
    rewrite (event_budget_ext this2 this D3) in A.
    split; [exact A|].
    intros Hu Hb. apply B; [exact Hu|].
    apply (event_bounded_ext this this2); [symmetry; exact D2|exact Hb].
  - cbn [fst snd]. rewrite event_delays_app, D1. cbn [delays app List.length].
    split.
    + unfold budget in *. cbn [reconnectAttempts]. rewrite D3. lia.
    + intros _ Hb. split; [|constructor].
      unfold bounded in *. cbn [currentReconnectTimeout]. rewrite D2. exact Hb.
Qed.

Lemma event_handleConnectionError_step (u : Q) (this : State) :
  (List.length (delays (snd (handleConnectionError hasErrorHandler u this)))
   + budget (fst (handleConnectionError hasErrorHandler u this)) <= budget this)%nat /\
  ((0 <= u)%Q -> bounded this ->
   bounded (fst (handleConnectionError hasErrorHandler u this)) /\
   Forall delayOk (delays (snd (handleConnectionError hasErrorHandler u this)))).
Proof.
  unfold handleConnectionError.
  set (this1 := mkState _ _ _ false _).
  destruct (event_scheduleReconnect_step u this1) as [A B].
  destruct (scheduleReconnect hasErrorHandler u this1) as [this2 out2].
  cbn [fst snd] in *.
  rewrite !event_delays_app.
  assert (E1 : delays (if eventSource this then [Close] else []) = [])
    by now destruct (eventSource this).
  assert (E3 : delays (if connectionErrorShown this2 then []
                       else showAlert hasErrorHandler "Connection Error"
                              "Lost connection to the server. Attempting to reconnect..."
                              "warning") = []).
  { destruct (connectionErrorShown this2);
      [reflexivity|apply event_delays_showAlert]. }
  rewrite E1, E3, app_nil_r. cbn [app].
  split; [exact A|].
  intros Hu Hb. destruct (B Hu Hb) as [B1 B2]. split; assumption.
Qed.

Lemma event_reconnect_step (throws : bool) (u : Q) (this : State) :
  (List.length (delays (snd (reconnect hasErrorHandler throws u this)))
   + budget (fst (reconnect hasErrorHandler throws u this)) <= budget this)%nat /\
  ((0 <= u)%Q -> bounded this ->
   bounded (fst (reconnect hasErrorHandler throws u this)) /\
   Forall delayOk (delays (snd (reconnect hasErrorHandler throws u this)))).
Proof.
  unfold reconnect.
  destruct (event_disconnect_step this) as (D1 & D2 & D3).
  destruct (disconnect this) as [this1 out1]. cbn [fst snd] in *.
  destruct (event_connect_step throws u this1) as [A B].
  destruct (connect hasErrorHandler throws u this1) as [this2 out2].
  cbn [fst snd] in *.
  rewrite event_delays_app, D1. cbn [app].
  rewrite (event_budget_ext this1 this D3) in A.
  split; [exact A|].
  intros Hu Hb. apply B; [exact Hu|].
  apply (event_bounded_ext this this1); [symmetry; exact D2|exact Hb].
Qed.

(** One event: a timer is set only out of the budget, which only [onopen]
    refills, and the timeout and the delays stay in their bounds. *)
Lemma event_step_invariant (this : State) (e : Event) :
  (List.length (delays (snd (step hasErrorHandler this e)))
   + budget (fst (step hasErrorHandler this e))
   <= budget this + 10 * opens [e])%nat /\
  (validRandom e -> bounded this ->
   bounded (fst (step hasErrorHandler this e)) /\
   Forall delayOk (delays (snd (step hasErrorHandler this e)))).
Proof.
  destruct e as [|u|parses|throws u| |throws u]; cbn [step opens].
  - cbn. split; [lia|]. intros _ _. split; [|constructor].
    unfold bounded. cbn. split; discriminate.
  - destruct (event_handleConnectionError_step u this) as [A B].
    split; [lia|]. intros [Hu _]. now apply B.
  - destruct parses; cbn [fst snd delays List.length].
    + split; [unfold budget; cbn; lia|]. intros _ Hb. split; [exact Hb|constructor].
    + split; [lia|]. intros _ Hb. split; [exact Hb|constructor].
  - destruct (event_connect_step throws u this) as [A B].
    split; [lia|]. intros [Hu _]. now apply B.
  - destruct (event_disconnect_step this) as (D1 & D2 & D3).
    rewrite D1. cbn [List.length]. split.
    + rewrite (event_budget_ext _ this D3). lia.
    + intros _ Hb. split; [|constructor].
      apply (event_bounded_ext this); [symmetry; exact D2|exact Hb].
  - destruct (event_reconnect_step throws u this) as [A B].
    split; [lia|]. intros [Hu _]. now apply B.
Qed.

Lemma event_run_invariant (es : list Event) (this : State) :
  (List.length (delays (snd (run hasErrorHandler this es)))
   + budget (fst (run hasErrorHandler this es))
   <= budget this + 10 * opens es)%nat /\
  (Forall validRandom es -> bounded this ->
   bounded (fst (run hasErrorHandler this es)) /\
   Forall delayOk (delays (snd (run hasErrorHandler this es)))).
Proof.
  revert this. induction es as [|e es IH]; intros this.
  - cbn. split; [lia|]. intros _ Hb. split; [exact Hb|constructor].
  - change (e :: es) with ([e] ++ es)%list at 3.
    rewrite event_opens_app. cbn [run].
    destruct (event_step_invariant this e) as [A B].
    destruct (step hasErrorHandler this e) as [this1 out1].
    cbn [fst snd] in *.
    destruct (IH this1) as [A2 B2].
    destruct (run hasErrorHandler this1 es) as [this2 out2].
    cbn [fst snd] in *.
    rewrite event_delays_app, length_app.
    split; [lia|].
    intros Hv Hb. inversion Hv as [|? ? Hv1 Hv2]; subst.
    destruct (B Hv1 Hb) as [B1 B3].
    destruct (B2 Hv2 B1) as [B4 B5].
    split; [exact B4|]. apply Forall_app. split; assumption.
Qed.

End Facts.

End EventFacts.

(** X23. A new event service sets at most 10 reconnection timers per opening of
    the stream, plus 10: after 10 attempts without an opening it gives up. *)
Theorem event_service_gives_up_after_ten_attempts
    (hasErrorHandler : bool) (es : list EventService.Event) :
  (List.length
     (EventService.delays
        (snd (EventService.run hasErrorHandler EventService.constructor es)))
   <= 10 * (1 + EventService.opens es))%nat.
Proof.
  destruct (EventFacts.event_run_invariant hasErrorHandler es
              EventService.constructor) as [A _].
  change (EventService.budget EventService.constructor) with 10%nat in A.
  lia.
Qed.

(** X24. With every value of [Math.random()] in [0, 1), the reconnection timeout
    of a new event service stays between 5000 and 60000 ms, and every
    reconnection timer is set to a delay between 6375 and 60000 ms. *)
Theorem event_service_backoff_is_bounded
    (hasErrorHandler : bool) (es : list EventService.Event) :
  Forall EventService.validRandom es ->
  let after := EventService.run hasErrorHandler EventService.constructor es in
  (5000 <= EventService.currentReconnectTimeout (fst after))%Q /\
  (EventService.currentReconnectTimeout (fst after) <= 60000)%Q /\
  Forall (fun d => (6375 <= d)%Q /\ (d <= 60000)%Q)
    (EventService.delays (snd after)).
Proof.
  intros Hv after. subst after.
  destruct (EventFacts.event_run_invariant hasErrorHandler es
              EventService.constructor) as [_ B].
  assert (H0 : EventService.bounded EventService.constructor).
  { unfold EventService.bounded. cbn. split; discriminate. }
  destruct (B Hv H0) as [[B1 B2] B3].
  split; [exact B1|]. split; [exact B2|exact B3].
Qed.

Lemma event_service_backoff_is_bounded_witness :
  let es :=
    [EventService.CallConnect false 0; EventService.OnError (1 # 2);
     EventService.CallConnect true (9 # 10); EventService.OnOpen;
     EventService.OnError 0] in
  let after := EventService.run true EventService.constructor es in
  Forall EventService.validRandom es /\
  (5000 <= EventService.currentReconnectTimeout (fst after))%Q /\
  (EventService.currentReconnectTimeout (fst after) <= 60000)%Q /\
  Forall (fun d => (6375 <= d)%Q /\ (d <= 60000)%Q)
    (EventService.delays (snd after)).
Proof.
  intros es after.
  assert (Hv : Forall EventService.validRandom es).
  { repeat constructor; discriminate. }
  split; [exact Hv|].
  exact (event_service_backoff_is_bounded true es Hv).
Defined.

(** ** Calls in flight *)

Module ConcurrentFacts.
Import Concurrent.
Local Open Scope prog_scope.
Lemma cc_evolves_refl r : Concurrent.evolves r r.
Proof. repeat split; auto. exists []. now rewrite app_nil_r. Qed.

Lemma cc_evolves_trans r1 r2 r3 :
  Concurrent.evolves r1 r2 -> Concurrent.evolves r2 r3 -> Concurrent.evolves r1 r3.
Proof.
  intros (F1 & S1 & [a1 H1]) (F2 & S2 & [a2 H2]). repeat split.
  - congruence.
  - auto.
  - exists (a1 ++ a2)%list. rewrite H2, H1. now rewrite app_assoc.
Qed.

Lemma cc_Forall2_refl rs : Forall2 Concurrent.evolves rs rs.
Proof. induction rs; constructor; auto using cc_evolves_refl. Qed.

Lemma cc_Forall2_trans l1 l2 l3 :
  Forall2 Concurrent.evolves l1 l2 -> Forall2 Concurrent.evolves l2 l3 ->
  Forall2 Concurrent.evolves l1 l3.
Proof.
  intros H. revert l3. induction H; intros l3 H3; inversion H3; subst; constructor.
  - eapply cc_evolves_trans; eassumption.
  - auto.
Qed.

Lemma cc_Forall2_map (f : Request -> Request) rs :
  (forall r, Concurrent.evolves r (f r)) -> Forall2 Concurrent.evolves rs (map f rs).
Proof. intros H. induction rs; cbn; constructor; auto. Qed.

Lemma cc_advances_refl rs : advances rs rs.
Proof. exists rs, []. split; [now rewrite app_nil_r|apply cc_Forall2_refl]. Qed.

Lemma cc_advances_same rs rs' : Forall2 Concurrent.evolves rs rs' -> advances rs rs'.
Proof. intros H. exists rs', []. split; [now rewrite app_nil_r|exact H]. Qed.

Lemma cc_advances_trans rs1 rs2 rs3 :
  advances rs1 rs2 -> advances rs2 rs3 -> advances rs1 rs3.
Proof.
  intros (f1 & a1 & -> & H1) (f2 & a2 & -> & H2).
  apply Forall2_app_inv_l in H2. destruct H2 as (g1 & g2 & G1 & G2 & ->).
  exists g1, (g2 ++ a2)%list. split; [now rewrite app_assoc|].
  eapply cc_Forall2_trans; eassumption.
Qed.

Lemma cc_evolves_markExpired now r : Concurrent.evolves r (markExpired now r).
Proof.
  repeat split.
  - intros _. cbn. discriminate.
  - exists []. cbn. now rewrite app_nil_r.
Qed.

Lemma cc_evolves_swept now r : Concurrent.evolves r (swept now r).
Proof.
  unfold swept. destruct (sweepFilter now r);
    [apply cc_evolves_markExpired|apply cc_evolves_refl].
Qed.

Lemma cc_advances_sweepExpired now rs : advances rs (sweepExpired now rs).
Proof.
  apply cc_advances_same. unfold sweepExpired.
  apply cc_Forall2_map. intros r. apply cc_evolves_swept.
Qed.

Lemma cc_advances_sweepOne now rs : advances rs (sweepOne now rs).
Proof.
  apply cc_advances_same. induction rs as [|r rs IH]; cbn; [constructor|].
  destruct (sweepFilter now r); constructor;
    auto using cc_evolves_markExpired, cc_evolves_refl, cc_Forall2_refl.
Qed.

Lemma cc_advances_insert rs doc : advances rs (rs ++ [doc]).
Proof. exists rs, [doc]. split; [reflexivity|apply cc_Forall2_refl]. Qed.

(** The update of a save leaves the fixed paths alone, writes a status only
    if the handler assigned one, and appends to the history. *)
Lemma cc_evolves_writeBack loaded saved stored :
  status saved <> pending ->
  Concurrent.evolves stored (writeBack loaded saved stored).
Proof.
  intros Hs. repeat split.
  - intros Hst. cbn. destruct (Status_eqb (status saved) (status loaded)); assumption.
  - eexists. cbn. reflexivity.
Qed.

Lemma cc_advances_save loaded saved rs :
  status saved <> pending ->
  advances rs
    (map (fun r => if N.eqb (_id r) (_id saved)
                   then writeBack loaded saved r else r) rs).
Proof.
  intros Hs. apply cc_advances_same. apply cc_Forall2_map. intros r.
  destruct (N.eqb (_id r) (_id saved));
    [now apply cc_evolves_writeBack|apply cc_evolves_refl].
Qed.

Lemma cc_respects_bind {A B} (m : Prog A) (h : A -> Prog B) :
  respects m -> (forall a, respects (h a)) -> respects (bind m h).
Proof.
  induction m as [a|r| |f k IH]; cbn; intros Hm Hh; auto.
  intros db. destruct (Hm db) as [H1 H2]. split; [exact H1|]. apply IH; assumption.
Qed.

Lemma cc_respects_query {A} (read : DB -> A) : respects (query read).
Proof. intros db. split; [apply cc_advances_refl|exact I]. Qed.

Lemma cc_respects_update (write : DB -> DB) :
  (forall db, advances (requests db) (requests (write db))) -> respects (update write).
Proof. intros H db. split; [apply H|exact I]. Qed.

Lemma cc_respects_returnIf c r : respects (returnIf c r).
Proof. unfold returnIf. now destruct c. Qed.

Lemma cc_respects_deref {A} (o : option A) : respects (deref o).
Proof. now destruct o. Qed.

Lemma cc_respects_User_findById id0 : respects (User_findById id0).
Proof. apply cc_respects_query. Qed.

Lemma cc_respects_User_save loaded doc : respects (User_save loaded doc).
Proof. apply cc_respects_update. intros db. apply cc_advances_refl. Qed.

Lemma cc_respects_findById now id0 : respects (ServiceRequest_findById now id0).
Proof.
  unfold ServiceRequest_findById. apply cc_respects_bind.
  - apply cc_respects_update. intros db. apply cc_advances_sweepOne.
  - intros _. apply cc_respects_query.
Qed.

Lemma cc_respects_find now filter : respects (ServiceRequest_find now filter).
Proof.
  unfold ServiceRequest_find. apply cc_respects_bind.
  - apply cc_respects_update. intros db. apply cc_advances_sweepExpired.
  - intros _. apply cc_respects_query.
Qed.

Lemma cc_respects_save now loaded doc :
  status doc <> pending -> respects (ServiceRequest_save now loaded doc).
Proof.
  intros Hs. unfold ServiceRequest_save. apply cc_respects_bind.
  - apply cc_respects_update. intros db. apply cc_advances_save.
    now rewrite saveLoaded_status.
  - intros _. exact I.
Qed.

Lemma cc_respects_saveNew now doc : respects (ServiceRequest_saveNew now doc).
Proof.
  unfold ServiceRequest_saveNew. apply cc_respects_bind.
  - apply cc_respects_update. intros db. apply cc_advances_insert.
  - intros _. exact I.
Qed.

Ltac respects_step :=
  lazymatch goal with
  | |- respects (bind _ _) => apply cc_respects_bind; [|intros ?]
  | |- respects (returnIf _ _) => apply cc_respects_returnIf
  | |- respects (deref _) => apply cc_respects_deref
  | |- respects (User_findById _) => apply cc_respects_User_findById
  | |- respects (User_save _ _) => apply cc_respects_User_save
  | |- respects (ServiceRequest_findById _ _) => apply cc_respects_findById
  | |- respects (ServiceRequest_find _ _) => apply cc_respects_find
  | |- respects (ServiceRequest_saveNew _ _) => apply cc_respects_saveNew
  | |- respects (ServiceRequest_save _ _ _) =>
      apply cc_respects_save; cbn; discriminate
  | |- respects (Answer _) => exact I
  | |- respects (match ?x with _ => _ end) => destruct x
  end.

(** Every handler respects the stored requests, at each of its operations. *)
Lemma cc_respects_handler centralAngle now c :
  respects (handlerOf centralAngle now c).
Proof.
  destruct c; cbn [handlerOf];
    unfold createRequest, getActiveRequests, acceptRequest, completeRequest,
      getRequestHistory, getRequestPin, cancelRequest;
    cbv zeta; repeat respects_step.
Qed.

Lemma cc_Forall_setNth {A} (P : A -> Prop) (i : nat) (a : A) (l : list A) :
  Forall P l -> P a -> Forall P (setNth i a l).
Proof.
  intros Hl Ha. revert i. induction Hl as [|x l Hx Hl IH]; intros i;
    destruct i; cbn; constructor; auto.
Qed.

Lemma cc_Forall_nth {A} (P : A -> Prop) (i : nat) (a : A) (l : list A) :
  Forall P l -> nth_error l i = Some a -> P a.
Proof.
  intros Hl Hn. apply nth_error_In in Hn. rewrite Forall_forall in Hl. auto.
Qed.

Lemma cc_nth_setNth_same {A} (i : nat) (a x : A) (l : list A) :
  nth_error l i = Some x -> nth_error (setNth i a l) i = Some a.
Proof.
  revert i. induction l as [|y l IH]; intros [|i]; cbn; try discriminate; auto.
Qed.

Lemma cc_nth_setNth_other {A} (i j : nat) (a : A) (l : list A) :
  i <> j -> nth_error (setNth j a l) i = nth_error l i.
Proof.
  revert i j. induction l as [|y l IH]; intros [|i] [|j] H; cbn; auto;
    try congruence.
Qed.

(** One turn: the programs still respect the requests, which advance. *)
Lemma cc_turn_respects (st : State) (i : nat) :
  Forall respects (fst st) ->
  Forall respects (fst (turn st i)) /\
  advances (requests (snd st)) (requests (snd (turn st i))).
Proof.
  intros Hall. unfold turn.
  destruct (nth_error (fst st) i) as [[a|r| |f k]|] eqn:E;
    try (split; [exact Hall|apply cc_advances_refl]).
  pose proof (cc_Forall_nth _ _ _ _ Hall E) as Hp. cbn in Hp.
  destruct (Hp (snd st)) as [H1 H2]. cbn [fst snd]. split; [|exact H1].
  apply cc_Forall_setNth; assumption.
Qed.

Lemma cc_exec_respects (schedule : list nat) (st : State) :
  Forall respects (fst st) ->
  Forall respects (fst (exec schedule st)) /\
  advances (requests (snd st)) (requests (snd (exec schedule st))).
Proof.
  revert st. induction schedule as [|i rest IH]; intros st Hall.
  - split; [exact Hall|apply cc_advances_refl].
  - cbn [exec fold_left].
    destruct (cc_turn_respects st i Hall) as [H1 H2].
    destruct (IH (turn st i) H1) as [H3 H4].
    split; [exact H3|]. eapply cc_advances_trans; eassumption.
Qed.

Lemma cc_pool_respects centralAngle (calls : list (Z * Lifecycle.Call)) :
  Forall respects
    (map (fun c => handlerOf centralAngle (fst c) (snd c)) calls).
Proof.
  apply Forall_forall. intros p Hp. apply in_map_iff in Hp.
  destruct Hp as [c [<- _]]. apply cc_respects_handler.
Qed.

(** A request that is stored and no longer pending stays so when the
    requests advance. *)
Lemma cc_claimed_advances id0 rs rs' :
  advances rs rs' -> Lifecycle.claimed id0 rs -> Lifecycle.claimed id0 rs'.
Proof.
  intros (front & added & -> & H) (r & Hr & Hs).
  assert (exists r', lookupRequest id0 front = Some r' /\ status r' <> pending)
    as (r' & Hr' & Hs').
  { clear added. revert Hr. induction H as [|x y l l' Hxy H IH]; [discriminate|].
    unfold lookupRequest in *. cbn [find].
    destruct Hxy as (F & S & _).
    assert (_id y = _id x) as -> by (unfold Lifecycle.fixedPaths in F; congruence).
    destruct (N.eqb (_id x) id0).
    - intros E. inversion E; subst. exists y. auto.
    - auto. }
  exists r'. split; [|exact Hs']. now apply lookupRequest_app.
Qed.

(** The accept of a request that is stored and no longer pending: it does
    not get beyond the test of the status. *)
Lemma cc_accept_refusing now u user0 requestId :
  refusing (fun db => Lifecycle.claimed requestId (requests db))
    (acceptRequest now u user0 requestId).
Proof.
  unfold acceptRequest, User_findById, ServiceRequest_findById, query, update.
  cbn [bind refusing]. intros db Hdb. split; [exact Hdb|].
  destruct (Role_eqb (role user0) provider_role); cbn [negb returnIf bind refusing];
    [|cbn; discriminate].
  destruct (lookupUser (id user0) (users db)) as [user|]; cbn [deref bind refusing];
    [|exact I].
  destruct (UserStatus_eqb (u_status user) busy); cbn [returnIf bind refusing];
    [cbn; discriminate|].
  intros db1 H1. split.
  { cbn [requests]. eapply cc_claimed_advances; [apply cc_advances_sweepOne|exact H1]. }
  intros db2 H2. split; [exact H2|].
  destruct H2 as (r & Hr & Hs). rewrite Hr.
  apply Status_eqb_neq in Hs. rewrite Hs.
  cbn. discriminate.
Qed.

Lemma cc_turn_refusing (P : DB -> Prop) (st : State) (i j : nat) (p : Prog Empty_set) :
  (forall rs rs', advances rs rs' ->
     forall us us', P (mkDB rs us) -> P (mkDB rs' us')) ->
  Forall respects (fst st) ->
  P (snd st) ->
  nth_error (fst st) i = Some p -> refusing P p ->
  P (snd (turn st j)) /\
  exists p', nth_error (fst (turn st j)) i = Some p' /\ refusing P p'.
Proof.
  intros HP Hall Hdb Hi Hp. unfold turn.
  destruct (nth_error (fst st) j) as [[a|r| |f k]|] eqn:E;
    try (split; [exact Hdb|exists p; split; assumption]).
  cbn [fst snd].
  destruct (Nat.eq_dec i j) as [->|Hne].
  - rewrite E in Hi. inversion Hi; subst p. cbn in Hp.
    destruct (Hp (snd st) Hdb) as [H1 H2]. split; [exact H1|].
    exists (k (f (snd st))). split; [|exact H2].
    eapply cc_nth_setNth_same; eassumption.
  - pose proof (cc_Forall_nth _ _ _ _ Hall E) as Hq. cbn in Hq.
    destruct (Hq (snd st)) as [H1 _]. split.
    + destruct (snd st) as [rs us]. destruct (f (mkDB rs us)) as [rs' us'] eqn:Ef.
      cbn [requests] in H1. eapply HP; eassumption.
    + exists p. split; [|exact Hp]. rewrite cc_nth_setNth_other; assumption.
Qed.

Lemma cc_exec_refusing (P : DB -> Prop) (schedule : list nat) (st : State)
    (i : nat) (p : Prog Empty_set) :
  (forall rs rs', advances rs rs' ->
     forall us us', P (mkDB rs us) -> P (mkDB rs' us')) ->
  Forall respects (fst st) ->
  P (snd st) ->
  nth_error (fst st) i = Some p -> refusing P p ->
  exists p', nth_error (fst (exec schedule st)) i = Some p' /\ refusing P p'.
Proof.
  intros HP. revert st p. induction schedule as [|j rest IH]; intros st p Hall Hdb Hi Hp.
  - exists p. split; assumption.
  - cbn [exec fold_left].
    destruct (cc_turn_refusing P st i j p HP Hall Hdb Hi Hp) as (H1 & p' & H2 & H3).
    destruct (cc_turn_respects st j Hall) as [H4 _].
    exact (IH (turn st j) p' H4 H1 H2 H3).
Qed.

(** A handler that takes no turn is where it was. *)
Lemma cc_exec_untouched (schedule : list nat) (st : State) (i : nat) :
  ~ In i schedule -> nth_error (fst (exec schedule st)) i = nth_error (fst st) i.
Proof.
  revert st. induction schedule as [|j rest IH]; intros st Hi; [reflexivity|].
  cbn [exec fold_left]. rewrite IH by (intros H; apply Hi; now right).
  unfold turn. destruct (nth_error (fst st) j) as [[a|r| |f k]|] eqn:E; try reflexivity.
  cbn [fst]. apply cc_nth_setNth_other. intros ->. apply Hi. now left.
Qed.

Lemma cc_option_eqb_N (a b : option N) : option_eqb N.eqb a b = true -> a = b.
Proof.
  destruct a, b; cbn; try discriminate; auto.
  intros H. apply N.eqb_eq in H. now subst.
Qed.

Lemma cc_option_eqb_string (a b : option string) :
  option_eqb String.eqb a b = true -> a = b.
Proof.
  destruct a, b; cbn; try discriminate; auto.
  intros H. apply String.eqb_eq in H. now subst.
Qed.

(** When nothing has been stored since the load, the update of a save
    leaves the document as it is in memory. *)
Lemma cc_writeBack_self loaded saved :
  Lifecycle.fixedPaths saved = Lifecycle.fixedPaths loaded ->
  pinGeneratedAt saved = pinGeneratedAt loaded ->
  (exists ext, history saved = (history loaded ++ ext)%list) ->
  writeBack loaded saved loaded = saved.
Proof.
  destruct loaded, saved. unfold Lifecycle.fixedPaths, writeBack. cbn.
  intros H Hp [ext He]. inversion H; subst.
  rewrite skipn_app, skipn_all, Nat.sub_diag. cbn [skipn app].
  f_equal.
  - destruct (option_eqb N.eqb _ _) eqn:E; [|reflexivity].
    symmetry. now apply cc_option_eqb_N.
  - destruct (Status_eqb _ _) eqn:E; [|reflexivity].
    symmetry. now apply Status_eqb_eq.
  - destruct (option_eqb String.eqb _ _) eqn:E; [|reflexivity].
    symmetry. now apply cc_option_eqb_string.
  - destruct (_ =? _) eqn:E; [|reflexivity].
    symmetry. now apply Z.eqb_eq.
Qed.

Lemma cc_saveLoaded_paths now loaded doc :
  Lifecycle.fixedPaths (saveLoaded now loaded doc) = Lifecycle.fixedPaths doc /\
  pinGeneratedAt (saveLoaded now loaded doc) = pinGeneratedAt doc /\
  exists ext, history (saveLoaded now loaded doc) = (history doc ++ ext)%list.
Proof.
  unfold saveLoaded, preSave_history, preSave_expiration.
  destruct doc as [i0 s0 c0 d0 n0 l0 m0 a0 p0 st g0 pg h0 ca ua ex].
  destruct (negb (Status_eqb _ _)); [destruct st|]; cbn;
    repeat split;
    first [ exists []; now rewrite app_nil_r | eexists; reflexivity ].
Qed.

Lemma cc_unique_user us x y :
  NoDup (map u_id us) -> In x us -> In y us -> u_id x = u_id y -> x = y.
Proof.
  induction us as [|w us IH]; intros Hnd Hx Hy E; [destruct Hx|].
  cbn [map] in Hnd. inversion Hnd as [|? ? Hnotin Hnd']; subst.
  destruct Hx as [Hx|Hx], Hy as [Hy|Hy]; subst.
  - reflexivity.
  - exfalso. apply Hnotin. rewrite E. now apply in_map.
  - exfalso. apply Hnotin. rewrite <- E. now apply in_map.
  - now apply IH.
Qed.

Lemma cc_save_alone_users us id0 loaded s :
  NoDup (map u_id us) -> lookupUser id0 us = Some loaded ->
  map (fun w => if N.eqb (u_id w) (u_id (set_u_status s loaded))
                then writeBackUser loaded (set_u_status s loaded) w else w) us
  = replaceUser (set_u_status s loaded) us.
Proof.
  intros Hnd Hl. apply find_some in Hl. destruct Hl as [Hin Hid].
  unfold replaceUser. apply map_ext_in. intros w Hw.
  destruct (N.eqb (u_id w) (u_id (set_u_status s loaded))) eqn:E; [|reflexivity].
  apply N.eqb_eq in E. cbn in E.
  rewrite (cc_unique_user us w loaded Hnd Hw Hin E).
  unfold writeBackUser. cbn [u_status set_u_status].
  destruct (UserStatus_eqb s (u_status loaded)) eqn:Es; [|reflexivity].
  apply UserStatus_eqb_eq in Es. subst s. now destruct loaded.
Qed.

Lemma cc_save_alone_requests now rs id0 loaded doc :
  NoDup (map _id rs) -> lookupRequest id0 rs = Some loaded ->
  Lifecycle.fixedPaths doc = Lifecycle.fixedPaths loaded ->
  pinGeneratedAt doc = pinGeneratedAt loaded ->
  history doc = history loaded ->
  map (fun r => if N.eqb (_id r) (_id (saveLoaded now loaded doc))
                then writeBack loaded (saveLoaded now loaded doc) r else r) rs
  = replaceRequest (saveLoaded now loaded doc) rs.
Proof.
  intros Hnd Hl Hf Hp Hh. apply lookupRequest_Some in Hl. destruct Hl as [Hin Hid].
  destruct (cc_saveLoaded_paths now loaded doc) as (F & G & ext & H).
  unfold replaceRequest. apply map_ext_in. intros r Hr.
  destruct (N.eqb (_id r) (_id (saveLoaded now loaded doc))) eqn:E; [|reflexivity].
  apply N.eqb_eq in E.
  assert (Hsame : _id (saveLoaded now loaded doc) = _id loaded).
  { rewrite saveLoaded_id. unfold Lifecycle.fixedPaths in Hf. congruence. }
  rewrite (unique_by_id rs r loaded Hnd Hr Hin (eq_trans E Hsame)).
  apply cc_writeBack_self.
  - congruence.
  - congruence.
  - exists ext. congruence.
Qed.

(** A handler that runs alone does what [Controller] says of it. *)
Lemma cc_alone_is_perform centralAngle now c db :
  NoDup (map _id (requests db)) -> NoDup (map u_id (users db)) ->
  alone (handlerOf centralAngle now c) db = Lifecycle.perform centralAngle now c db.
Proof.
  intros Hr Hu. unfold Lifecycle.perform.
  destruct c as [newId user b|user|u user requestId|user requestId pin|user
                |user requestId|user requestId];
    cbn [handlerOf Lifecycle.handlerOf].
  - unfold createRequest, Controller.createRequest, runHandler, Controller.bind,
      Controller.returnIf, Controller.deref, Controller.respond, Controller.ret,
      Controller.throw, Controller.ServiceRequest_saveNew, ServiceRequest_saveNew,
      returnIf, deref, update.
    destruct (Role_eqb (role user) seeker_role); cbn; [|reflexivity].
    destruct (newServiceRequest newId now (id user) b); reflexivity.
  - unfold getActiveRequests, Controller.getActiveRequests, runHandler, Controller.bind,
      Controller.returnIf, Controller.deref, Controller.respond, Controller.ret,
      Controller.throw, Controller.User_findById, Controller.ServiceRequest_find,
      User_findById, ServiceRequest_find, returnIf, deref, update, query.
    destruct (Role_eqb (role user) provider_role); cbn; [|reflexivity].
    destruct (lookupUser (id user) (users db)) as [w|]; cbn; [|reflexivity].
    destruct (UserStatus_eqb (u_status w) busy); cbn; [reflexivity|].
    destruct (u_coordinates w) as [|c0 [|c1 [|c2 cs]]]; reflexivity.
  - unfold acceptRequest, Controller.acceptRequest, runHandler, Controller.bind,
      Controller.returnIf, Controller.deref, Controller.respond, Controller.ret,
      Controller.throw, Controller.User_findById, Controller.ServiceRequest_findById,
      Controller.User_save, Controller.ServiceRequest_save,
      User_findById, ServiceRequest_findById, User_save, ServiceRequest_save,
      returnIf, deref, update, query.
    cbn [alone bind fst snd requests users].
    destruct (Role_eqb (role user) provider_role); cbn [negb alone bind];
      [|destruct (lookupUser (id user) (users db)); reflexivity].
    destruct (lookupUser (id user) (users db)) as [w|] eqn:Ew;
      cbn [alone bind]; [|reflexivity].
    destruct (UserStatus_eqb (u_status w) busy); cbn [alone bind]; [reflexivity|].
    cbn [requests users].
    destruct (lookupRequest requestId (sweepOne now (requests db))) as [r|] eqn:Er;
      cbn [alone bind]; [|reflexivity].
    destruct (Status_eqb (status r) pending); cbn [negb alone bind]; [|reflexivity].
    cbn [requests users]. f_equal. f_equal.
    + eapply cc_save_alone_requests; try reflexivity; [|exact Er].
      now rewrite ids_sweepOne.
    + eapply cc_save_alone_users; eassumption.
  - unfold completeRequest, Controller.completeRequest, runHandler, Controller.bind,
      Controller.returnIf, Controller.deref, Controller.respond, Controller.ret,
      Controller.throw, Controller.User_findById, Controller.ServiceRequest_findById,
      Controller.User_save, Controller.ServiceRequest_save,
      User_findById, ServiceRequest_findById, User_save, ServiceRequest_save,
      returnIf, deref, update, query.
    cbn [alone bind fst snd requests users].
    destruct (lookupRequest requestId (sweepOne now (requests db))) as [r|] eqn:Er;
      cbn [alone bind]; [|reflexivity].
    destruct (Js.strictNotEquals (pinValue r) pin); cbn [alone bind]; [reflexivity|].
    cbn [requests users].
    destruct (lookupUser (id user) (users db)) as [w|] eqn:Ew; cbn [alone bind].
    + cbn [requests users]. f_equal. f_equal.
      * eapply cc_save_alone_requests; try reflexivity; [|exact Er].
        now rewrite ids_sweepOne.
      * eapply cc_save_alone_users; eassumption.
    + f_equal. f_equal.
      eapply cc_save_alone_requests; try reflexivity; [|exact Er].
      now rewrite ids_sweepOne.
  - unfold getRequestHistory, Controller.getRequestHistory, runHandler, Controller.bind,
      Controller.respond, Controller.ServiceRequest_find, ServiceRequest_find,
      update, query.
    destruct (role user); reflexivity.
  - unfold getRequestPin, Controller.getRequestPin, runHandler, Controller.bind,
      Controller.returnIf, Controller.respond, Controller.ret,
      Controller.ServiceRequest_findById, ServiceRequest_findById,
      returnIf, update, query.
    cbn [alone bind fst snd requests users].
    destruct (lookupRequest requestId (sweepOne now (requests db))) as [r|];
      cbn [alone bind]; [|reflexivity].
    destruct (N.eqb (seeker r) (id user)); cbn [negb alone bind]; [|reflexivity].
    destruct (Status_eqb (status r) in_progress); reflexivity.
  - unfold cancelRequest, Controller.cancelRequest, runHandler, Controller.bind,
      Controller.returnIf, Controller.deref, Controller.respond, Controller.ret,
      Controller.throw, Controller.User_findById, Controller.ServiceRequest_findById,
      Controller.ServiceRequest_save,
      User_findById, ServiceRequest_findById, ServiceRequest_save,
      returnIf, deref, update, query.
    cbn [alone bind fst snd requests users].
    destruct (Role_eqb (role user) seeker_role); cbn [negb alone bind]; [|reflexivity].
    cbn [requests users].
    destruct (lookupRequest requestId (sweepOne now (requests db))) as [r|] eqn:Er;
      cbn [alone bind]; [|reflexivity].
    destruct (Status_eqb (status r) pending); cbn [negb alone bind]; [|reflexivity].
    cbn [requests users]. f_equal. f_equal.
    eapply cc_save_alone_requests; try reflexivity; [|exact Er].
    now rewrite ids_sweepOne.
Qed.

End ConcurrentFacts.

(** X12. Stored requests only evolve, whatever calls are in flight.  For any
    calls of the service-request routes, each at its time, and any schedule
    of their database operations, the requests stored at the start are all
    still stored, in the same order and before any new one, and each has
    kept its identifier, seeker, category, description, contact number,
    location, duration, details and creation time; a request that was no
    longer pending is not pending again; and its history has only grown at
    the end. *)
Theorem stored_requests_evolve_under_interleaving
    (centralAngle : Point -> Point -> Q) (calls : list (Z * Lifecycle.Call))
    (schedule : list nat) (db : DB) :
  let pool := map (fun c => Concurrent.handlerOf centralAngle (fst c) (snd c)) calls in
  exists front added,
    requests (snd (Concurrent.exec schedule (pool, db))) = (front ++ added)%list /\
    Forall2 Concurrent.evolves (requests db) front.
Proof.
  intros pool.
  destruct (ConcurrentFacts.cc_exec_respects schedule (pool, db)
              (ConcurrentFacts.cc_pool_respects centralAngle calls)) as [_ H].
  exact H.
Qed.

(** X11. An accept that comes late is refused, whatever calls are in
    flight.  Among any calls of the service-request routes, under any
    schedule of their database operations: if an accept call has sent no
    operation yet at a moment when its request is stored and no longer
    pending (accepted, completed, cancelled or expired), then it never
    answers 200. *)
Theorem late_accept_is_refused
    (centralAngle : Point -> Point -> Q) (calls : list (Z * Lifecycle.Call))
    (i : nat) (now : Z) (u : Q) (user0 : ReqUser) (requestId : ObjectId)
    (before after : list nat) (db : DB) (r : Request) (answer : Response) :
  nth_error calls i = Some (now, Lifecycle.Accept u user0 requestId) ->
  ~ In i before ->
  let pool := map (fun c => Concurrent.handlerOf centralAngle (fst c) (snd c)) calls in
  let st1 := Concurrent.exec before (pool, db) in
  lookupRequest requestId (requests (snd st1)) = Some r ->
  status r <> pending ->
  let st2 := Concurrent.exec after st1 in
  option_map Concurrent.answerOf (nth_error (fst st2) i) = Some (Some answer) ->
  statusCode answer <> 200.
Proof.
  intros Hcall Hbefore pool st1 Hr Hs st2 Hanswer.
  assert (Hpool : Forall Concurrent.respects (fst st1)).
  { apply (ConcurrentFacts.cc_exec_respects before (pool, db)).
    apply ConcurrentFacts.cc_pool_respects. }
  assert (Hi : nth_error (fst st1) i
               = Some (Concurrent.acceptRequest now u user0 requestId)).
  { unfold st1. rewrite ConcurrentFacts.cc_exec_untouched by exact Hbefore.
    cbn [fst]. unfold pool. rewrite nth_error_map, Hcall. reflexivity. }
  destruct (ConcurrentFacts.cc_exec_refusing
              (fun db => Lifecycle.claimed requestId (requests db))
              after st1 i _
              (fun rs rs' H _ _ => ConcurrentFacts.cc_claimed_advances requestId rs rs' H)
              Hpool (ex_intro _ r (conj Hr Hs)) Hi
              (ConcurrentFacts.cc_accept_refusing now u user0 requestId))
    as (p' & Hp' & Href).
  fold st2 in Hp'. rewrite Hp' in Hanswer. cbn in Hanswer.
  destruct p' as [a|resp| |f k]; cbn in Hanswer, Href.
  - destruct a.
  - inversion Hanswer; subst. exact Href.
  - inversion Hanswer; subst. cbn. discriminate.
  - discriminate.
Qed.

(** Pat's accept of request 100 has run to its end when Quinn's sends its
    first operation: Quinn is refused. *)
Lemma late_accept_is_refused_witness :
  option_map Concurrent.answerOf
    (nth_error
       (fst (Concurrent.exec [1; 1; 1]%nat
               (Concurrent.exec [0; 0; 0; 0; 0]%nat
                  (map (fun c => Concurrent.handlerOf Scenario.meridianAngle (fst c) (snd c))
                     [(600000, Lifecycle.Accept (1 # 2) Scenario.asPat 100%N);
                      (700000, Lifecycle.Accept (1 # 4) Scenario.asQuinn 100%N)],
                   mkDB [Scenario.pendingTap] (Scenario.people ++ [Scenario.quinn])))))
       1%nat)
  = Some (Some AlreadyClaimed) /\
  statusCode AlreadyClaimed <> 200.
Proof.
  split; [vm_compute; reflexivity|].
  refine (late_accept_is_refused Scenario.meridianAngle
            [(600000, Lifecycle.Accept (1 # 2) Scenario.asPat 100%N);
             (700000, Lifecycle.Accept (1 # 4) Scenario.asQuinn 100%N)]
            1%nat 700000 (1 # 4) Scenario.asQuinn 100%N
            [0; 0; 0; 0; 0]%nat [1; 1; 1]%nat
            (mkDB [Scenario.pendingTap] (Scenario.people ++ [Scenario.quinn]))
            (saveLoaded 600000 Scenario.pendingTap
               (set_generatedPin (Some "550000")
                  (set_provider (Some 10%N) (set_status in_progress Scenario.pendingTap))))
            AlreadyClaimed _ _ _ _ _).
  - reflexivity.
  - simpl. intros [H|[H|[H|[H|[H|H]]]]]; try discriminate; exact H.
  - vm_compute. reflexivity.
  - vm_compute. discriminate.
  - vm_compute. reflexivity.
Defined.

(** Two accepts that overlap both succeed: Pat and Quinn both read request
    100 as pending before either saves.  Both are answered 200, each with
    its own code; the stored request ends with Quinn as provider and
    Quinn's code, and its history holds both acceptances. *)
Lemma overlapping_accepts_both_succeed :
  let st :=
    Concurrent.exec [0; 1; 0; 1; 0; 1; 0; 0; 1; 1]%nat
      (map (fun c => Concurrent.handlerOf Scenario.meridianAngle (fst c) (snd c))
         [(600000, Lifecycle.Accept (1 # 2) Scenario.asPat 100%N);
          (600000, Lifecycle.Accept (1 # 4) Scenario.asQuinn 100%N)],
       mkDB [Scenario.pendingTap] (Scenario.people ++ [Scenario.quinn])) in
  map (fun p => option_map statusCode (Concurrent.answerOf p)) (fst st)
  = [Some 200; Some 200] /\
  map (fun r => (status r, provider r, generatedPin r, map h_provider (history r)))
    (requests (snd st))
  = [(in_progress, Some 11%N, Some "325000", [Some 10%N; Some 11%N])].
Proof. vm_compute. split; reflexivity. Qed.

(** ** Consistency with calls in flight *)

Module InFlightFacts.
Import Concurrent.
Local Open Scope prog_scope.

Lemma fl_yields_bind {A B} (Inv : DB -> Prop) (Q : A -> Prop) (R : B -> Prop)
    (m : Prog A) (h : A -> Prog B) :
  yields Inv Q m -> (forall a, Q a -> yields Inv R (h a)) -> yields Inv R (bind m h).
Proof.
  induction m as [a|r| |f k IH]; cbn; intros Hm Hh; auto.
  intros db Hdb. destruct (Hm db Hdb) as [H1 H2]. split; [exact H1|].
  apply IH; assumption.
Qed.

Lemma fl_yields_query {A} (Inv : DB -> Prop) (Q : A -> Prop) (read : DB -> A) :
  (forall db, Inv db -> Q (read db)) -> yields Inv Q (query read).
Proof. intros H db Hdb. split; [exact Hdb|]. cbn. auto. Qed.

Lemma fl_yields_update (Inv : DB -> Prop) (write : DB -> DB) :
  (forall db, Inv db -> Inv (write db)) -> yields Inv (fun _ => True) (update write).
Proof. intros H db Hdb. split; [auto|exact I]. Qed.

Lemma fl_yields_returnIf (Inv : DB -> Prop) c r :
  yields Inv (fun _ => True) (returnIf c r).
Proof. unfold returnIf. now destruct c. Qed.

Lemma fl_yields_deref {A} (Inv : DB -> Prop) (Q : A -> Prop) (o : option A) :
  (forall a, o = Some a -> Q a) -> yields Inv Q (deref o).
Proof. destruct o; cbn; auto. Qed.

Lemma fl_yields_findById now id0 :
  yields allConsistent (fun o => forall r, o = Some r -> consistent r = true)
    (ServiceRequest_findById now id0).
Proof.
  unfold ServiceRequest_findById.
  apply fl_yields_bind with (Q := fun _ => True).
  - apply fl_yields_update. intros db H. now apply consistent_sweepOne.
  - intros _ _. apply fl_yields_query. intros db H r Hr.
    eapply consistent_lookup; eassumption.
Qed.

Lemma fl_yields_find now filter :
  yields allConsistent (fun _ => True) (ServiceRequest_find now filter).
Proof.
  unfold ServiceRequest_find.
  apply fl_yields_bind with (Q := fun _ => True).
  - apply fl_yields_update. intros db H. now apply consistent_sweepExpired.
  - intros _ _. now apply fl_yields_query.
Qed.

Lemma fl_yields_User_findById id0 :
  yields allConsistent (fun _ => True) (User_findById id0).
Proof. now apply fl_yields_query. Qed.

Lemma fl_yields_User_save loaded doc :
  yields allConsistent (fun _ => True) (User_save loaded doc).
Proof. apply fl_yields_update. intros db H. exact H. Qed.

Lemma fl_yields_save now loaded doc :
  (forall stored, consistent stored = true ->
     consistent (writeBack loaded (saveLoaded now loaded doc) stored) = true) ->
  yields allConsistent (fun _ => True) (ServiceRequest_save now loaded doc).
Proof.
  intros Hw. unfold ServiceRequest_save.
  apply fl_yields_bind with (Q := fun _ => True); [|intros _ _; exact I].
  apply fl_yields_update. intros db H. unfold allConsistent in *. cbn [requests].
  rewrite forallb_forall in *. intros x Hx. apply in_map_iff in Hx.
  destruct Hx as [r [<- Hr]].
  destruct (N.eqb (_id r) _); auto.
Qed.

Lemma fl_yields_saveNew now doc :
  consistent (saveNew now doc) = true ->
  yields allConsistent (fun _ => True) (ServiceRequest_saveNew now doc).
Proof.
  intros Hd. unfold ServiceRequest_saveNew.
  apply fl_yields_bind with (Q := fun _ => True); [|intros _ _; exact I].
  apply fl_yields_update. intros db H. unfold allConsistent in *. cbn [requests].
  rewrite forallb_app, H. cbn. now rewrite Hd.
Qed.

Lemma fl_option_eqb_N_refl (a : option N) : option_eqb N.eqb a a = true.
Proof. destruct a; cbn; [apply N.eqb_refl|reflexivity]. Qed.

Lemma fl_option_eqb_string_refl (a : option string) : option_eqb String.eqb a a = true.
Proof. destruct a; cbn; [apply String.eqb_refl|reflexivity]. Qed.

(** A pending request that is consistent has no provider and no code. *)
Lemma fl_pending_unassigned r :
  consistent r = true -> status r = pending ->
  history r = [] /\ provider r = None /\ generatedPin r = None.
Proof.
  unfold consistent. rewrite !andb_true_iff. intros [[[H1 H2] H3] _] Hs.
  rewrite Hs in H1. cbn in H1.
  destruct (history r) as [|h t] eqn:Eh; [|discriminate].
  cbn in H3. destruct (generatedPin r); [discriminate|].
  destruct (provider r); [discriminate|]. auto.
Qed.

(** The update of an accept, whatever has been stored since the load. *)
Lemma fl_consistent_accept now loaded caller code stored :
  consistent loaded = true -> status loaded = pending ->
  consistent stored = true ->
  consistent
    (writeBack loaded
       (saveLoaded now loaded
          (set_generatedPin (Some code)
             (set_provider (Some caller) (set_status in_progress loaded))))
       stored) = true.
Proof.
  intros Hl Hs Hst.
  destruct (fl_pending_unassigned loaded Hl Hs) as (Hh & Hp & Hg).
  unfold writeBack, saveLoaded, preSave_history, preSave_expiration, consistent.
  cbn [status provider generatedPin history set_status set_provider
         set_generatedPin set_expirationTime set_updatedAt set_history].
  rewrite Hs, Hp, Hg, Hh. cbn.
  rewrite existsb_isAccepted_app. cbn. now rewrite orb_true_r.
Qed.

(** The update of a completion. *)
Lemma fl_consistent_complete now loaded stored :
  consistent stored = true ->
  consistent
    (writeBack loaded (saveLoaded now loaded (set_status completed loaded)) stored)
  = true.
Proof.
  intros Hst.
  destruct (saveLoaded_completed_fields now loaded) as (_ & F2 & F3 & F4 & _ & _ & F7).
  unfold writeBack, consistent in *.
  cbn [status provider generatedPin history].
  rewrite F2, F3, F4, F7.
  rewrite fl_option_eqb_N_refl, fl_option_eqb_string_refl.
  rewrite !andb_true_iff in *. destruct Hst as [[[H1 H2] H3] H4].
  destruct (Status_eqb completed (status loaded)) eqn:E.
  - apply Status_eqb_eq in E. rewrite <- E. cbn [Status_eqb].
    rewrite skipn_app, skipn_all, Nat.sub_diag. cbn [skipn app].
    rewrite app_nil_r. auto.
  - assert (E' : Status_eqb (status loaded) completed = false).
    { destruct (status loaded); cbn in *; congruence. }
    rewrite E'. rewrite skipn_app, skipn_all, Nat.sub_diag. cbn [skipn app].
    rewrite existsb_isAccepted_app. cbn. rewrite orb_false_r.
    repeat split; auto.
Qed.

(** The update of a cancellation. *)
Lemma fl_consistent_cancel now loaded stored :
  status loaded = pending ->
  consistent stored = true ->
  consistent
    (writeBack loaded (saveLoaded now loaded (set_status cancelled loaded)) stored)
  = true.
Proof.
  intros Hs Hst.
  unfold writeBack, saveLoaded, preSave_history, preSave_expiration, consistent in *.
  cbn [status provider generatedPin history set_status set_provider
         set_generatedPin set_expirationTime set_updatedAt set_history] in *.
  rewrite Hs. cbn [Status_eqb negb].
  cbn [status provider generatedPin history set_status set_provider
         set_generatedPin set_expirationTime set_updatedAt set_history].
  rewrite fl_option_eqb_N_refl, fl_option_eqb_string_refl.
  rewrite skipn_all. rewrite app_nil_r.
  rewrite !andb_true_iff in *. destruct Hst as [[[H1 H2] H3] H4].
  cbn. auto.
Qed.

Lemma fl_yields_returnIf_not (Inv : DB -> Prop) c r :
  yields Inv (fun _ => c = false) (returnIf c r).
Proof. unfold returnIf. destruct c; cbn; auto. Qed.

Lemma fl_consistent_new newId now userId b doc :
  newServiceRequest newId now userId b = Some doc ->
  consistent (saveNew now doc) = true.
Proof.
  unfold newServiceRequest.
  destruct (b_category b), (b_description b), (b_contactNumber b), (b_duration b);
    try discriminate.
  destruct (_ || _ || _)%bool; [discriminate|].
  intros H. inversion H; subst doc. reflexivity.
Qed.

Ltac keeps_step :=
  lazymatch goal with
  | |- yields _ _ (bind (returnIf _ _) _) =>
      apply fl_yields_bind with (Q := fun _ => True);
      [apply fl_yields_returnIf|intros _ _]
  | |- yields _ _ (bind (User_findById _) _) =>
      apply fl_yields_bind with (Q := fun _ => True);
      [apply fl_yields_User_findById|intros ? _]
  | |- yields _ _ (bind (deref _) _) =>
      apply fl_yields_bind with (Q := fun _ => True);
      [now apply fl_yields_deref|intros ? _]
  | |- yields _ _ (bind (User_save _ _) _) =>
      apply fl_yields_bind with (Q := fun _ => True);
      [apply fl_yields_User_save|intros _ _]
  | |- yields _ _ (bind (ServiceRequest_find _ _) _) =>
      apply fl_yields_bind with (Q := fun _ => True);
      [apply fl_yields_find|intros ? _]
  | |- yields _ _ (Answer _) => exact I
  | |- yields _ _ (match ?x with _ => _ end) => destruct x
  end.

(** Every handler keeps the stored requests consistent, at each of its
    operations. *)
Lemma fl_handler_keeps centralAngle now c :
  yields allConsistent (fun _ => True) (handlerOf centralAngle now c).
Proof.
  destruct c as [newId user b|user|u user requestId|user requestId pin|user
                |user requestId|user requestId]; cbn [handlerOf].
  - unfold createRequest. keeps_step.
    apply fl_yields_bind
      with (Q := fun d => newServiceRequest newId now (id user) b = Some d);
      [now apply fl_yields_deref|intros d Hd].
    apply fl_yields_bind with (Q := fun _ => True); [|intros ? _; exact I].
    apply fl_yields_saveNew. eapply fl_consistent_new; eassumption.
  - unfold getActiveRequests. repeat keeps_step.
  - unfold acceptRequest. do 4 keeps_step.
    eapply fl_yields_bind; [apply fl_yields_findById|]. cbv beta.
    intros [request|] Hq; [|exact I]. specialize (Hq request eq_refl).
    apply fl_yields_bind
      with (Q := fun _ => negb (Status_eqb (status request) pending) = false);
      [apply fl_yields_returnIf_not|intros _ Hp].
    apply negb_false_iff, Status_eqb_eq in Hp.
    cbv zeta. keeps_step.
    apply fl_yields_bind with (Q := fun _ => True); [|intros ? _; exact I].
    apply fl_yields_save. intros stored Hst.
    now apply fl_consistent_accept.
  - unfold completeRequest.
    eapply fl_yields_bind; [apply fl_yields_findById|]. cbv beta.
    intros [request|] Hq; [|exact I].
    keeps_step.
    apply fl_yields_bind with (Q := fun _ => True);
      [|intros ? _; repeat keeps_step].
    apply fl_yields_save. intros stored Hst.
    now apply fl_consistent_complete.
  - unfold getRequestHistory. repeat keeps_step.
  - unfold getRequestPin.
    eapply fl_yields_bind; [apply fl_yields_findById|]. cbv beta.
    intros [request|] Hq; [|exact I]. repeat keeps_step.
  - unfold cancelRequest. do 2 keeps_step.
    eapply fl_yields_bind; [apply fl_yields_findById|]. cbv beta.
    intros [request|] Hq; [|exact I].
    apply fl_yields_bind
      with (Q := fun _ => negb (Status_eqb (status request) pending) = false);
      [apply fl_yields_returnIf_not|intros _ Hp].
    apply negb_false_iff, Status_eqb_eq in Hp.
    apply fl_yields_bind with (Q := fun _ => True); [|intros ? _; exact I].
    apply fl_yields_save. intros stored Hst.
    now apply fl_consistent_cancel.
Qed.

Lemma fl_turn_keeps (st : State) (i : nat) :
  Forall (yields allConsistent (fun _ => True)) (fst st) ->
  allConsistent (snd st) ->
  Forall (yields allConsistent (fun _ => True)) (fst (turn st i)) /\
  allConsistent (snd (turn st i)).
Proof.
  intros Hall Hdb. unfold turn.
  destruct (nth_error (fst st) i) as [[a|r| |f k]|] eqn:E;
    try (split; assumption).
  pose proof (ConcurrentFacts.cc_Forall_nth _ _ _ _ Hall E) as Hp. cbn in Hp.
  destruct (Hp (snd st) Hdb) as [H1 H2]. cbn [fst snd]. split; [|exact H1].
  apply ConcurrentFacts.cc_Forall_setNth; assumption.
Qed.

Lemma fl_exec_keeps (schedule : list nat) (st : State) :
  Forall (yields allConsistent (fun _ => True)) (fst st) ->
  allConsistent (snd st) ->
  allConsistent (snd (exec schedule st)).
Proof.
  revert st. induction schedule as [|i rest IH]; intros st Hall Hdb; [exact Hdb|].
  cbn [exec fold_left]. destruct (fl_turn_keeps st i Hall Hdb) as [H1 H2].
  now apply IH.
Qed.

End InFlightFacts.

(** X30. Consistency is an invariant also with calls in flight together: if
    every stored request is consistent (a pending request has no history, a
    provider is assigned exactly when a code is stored, a code is stored
    exactly when the history has an 'accepted' entry, a request in progress
    has a code), then so is every stored request after any calls of the
    service-request routes, each at its time, under any schedule of their
    database operations. *)
Theorem calls_in_flight_keep_requests_consistent
    (centralAngle : Point -> Point -> Q) (calls : list (Z * Lifecycle.Call))
    (schedule : list nat) (db : DB) :
  forallb consistent (requests db) = true ->
  let pool := map (fun c => Concurrent.handlerOf centralAngle (fst c) (snd c)) calls in
  forallb consistent (requests (snd (Concurrent.exec schedule (pool, db)))) = true.
Proof.
  intros H pool.
  apply (InFlightFacts.fl_exec_keeps schedule (pool, db)); [|exact H].
  apply Forall_forall. intros p Hp. apply in_map_iff in Hp.
  destruct Hp as [c [<- _]]. apply InFlightFacts.fl_handler_keeps.
Qed.

(** Pat and Quinn accept request 100 together, both reading it as pending
    before either saves: it is stored consistent. *)
Lemma calls_in_flight_keep_requests_consistent_witness :
  forallb consistent
    (requests
       (snd (Concurrent.exec [0; 1; 0; 1; 0; 1; 0; 0; 1; 1]%nat
               (map (fun c => Concurrent.handlerOf Scenario.meridianAngle (fst c) (snd c))
                  [(600000, Lifecycle.Accept (1 # 2) Scenario.asPat 100%N);
                   (600000, Lifecycle.Accept (1 # 4) Scenario.asQuinn 100%N)],
                mkDB [Scenario.pendingTap] (Scenario.people ++ [Scenario.quinn])))))
  = true.
Proof.
  apply (calls_in_flight_keep_requests_consistent Scenario.meridianAngle
           [(600000, Lifecycle.Accept (1 # 2) Scenario.asPat 100%N);
            (600000, Lifecycle.Accept (1 # 4) Scenario.asQuinn 100%N)]
           [0; 1; 0; 1; 0; 1; 0; 0; 1; 1]%nat
           (mkDB [Scenario.pendingTap] (Scenario.people ++ [Scenario.quinn]))).
  reflexivity.
Defined.
